(** * Texture replacement cache of PPSSPP (GPU/Common/TextureReplacer.cpp)

    A shallow embedding of the lookup, hashing, eviction and save paths of
    [TextureReplacer], with the properties of its specification stated and
    proved over the embedding, and with it the loading of the configuration
    from the ini files.  Generating an ini file and the body of the
    background save task, which act on files only, are outside the
    embedding.

    Conventions.
    - [u32], [u64] and [size_t] (64 bits) values are [Z] in range; wrap-around
      is written [to_u32], [to_u64] where the C++ arithmetic can wrap.  [int]
      arithmetic is exact (signed overflow is undefined in C++), with [Z.quot]
      for its division.
    - [double] and [float] are IEEE 754 binary64 and binary32 values of the
      Standard Library's [SpecFloat], with its round-to-nearest operations.
    - [std::unordered_map] is stdpp's [gmap]; [emplace] keeps an existing
      entry, [operator[]] creates a default entry when the key is new.
    - A [ReplacedTexture *] is a [handle] into the store [textures] of the
      replacer state; [new] takes a handle that is not in use.
    - The fields of [TextureReplacer] that only a configuration reload writes,
      and the two [g_Config] flags read here, form the record [Policy]; the
      caches and what the calls mutate form [State].
    - Calls the source makes to collaborators whose code lives in other
      files (the row hashes, [ReplacedTexture]'s methods, [SplitString], the
      pixel format table, paths) are fields of the class [Externals].
    - [trace] is a ghost log of the effects a call performs, in order.
    - The parsers a configuration load calls ([TryParse], [sscanf]) are
      fields of the class [Parsers]; an [IniFile] is the record of what the
      load reads from it, and [Files] is what the file system and the
      emulator show to the load. *)

From Stdlib Require Import ZArith Lia Ascii String.
From Stdlib Require Import Floats.SpecFloat.
From stdpp Require Import gmap strings list fin_maps pretty.

Local Open Scope Z_scope.

(** * Part I: the embedding *)

(** ** Machine integers *)

Definition to_u32 (x : Z) : Z := x mod 2 ^ 32.
Definition to_u64 (x : Z) : Z := x mod 2 ^ 64.

Definition is_u32 (x : Z) : Prop := 0 ≤ x < 2 ^ 32.
Definition is_u64 (x : Z) : Prop := 0 ≤ x < 2 ^ 64.

(** ** Floating point *)

Module Double.
Definition of_Z (n : Z) : spec_float := binary_normalize 53 1024 n 0 false.
Definition add := SFadd 53 1024.
Definition sub := SFsub 53 1024.
Definition mul := SFmul 53 1024.
Definition div := SFdiv 53 1024.
Definition ltb := SFltb.
Definition leb := SFleb.
(** [std::min(a, b)] is [(b < a) ? b : a]. *)
Definition std_min (a b : spec_float) : spec_float := if ltb b a then b else a.
Definition is_nan (x : spec_float) : bool :=
  match x with S754_nan => true | _ => false end.
End Double.

Module Float.
Definition of_Z (n : Z) : spec_float := binary_normalize 24 128 n 0 false.
Definition mul := SFmul 24 128.
(** Conversion to an integer drops the fraction.  Out of the range of the
    target the conversion is undefined in C++; the embedding wraps. *)
Definition trunc (x : spec_float) : Z :=
  match x with
  | S754_finite s m e =>
    let magnitude := if 0 <=? e then Z.pos m * 2 ^ e else Z.pos m / 2 ^ (- e) in
    if s then - magnitude else magnitude
  | _ => 0
  end.
Definition to_u32 (x : spec_float) : Z := to_u32 (trunc x).
End Float.

(** ** Keys and enumerations *)

(** [struct ReplacementCacheKey { u64 cachekey; u32 hash; }]. *)
Record ReplacementCacheKey := mkKey { cachekey : Z; hash : Z }.

Global Instance ReplacementCacheKey_eq_dec : EqDecision ReplacementCacheKey.
Proof. solve_decision. Defined.

Global Instance ReplacementCacheKey_countable : Countable ReplacementCacheKey.
Proof.
  refine (inj_countable' (λ k, (cachekey k, hash k)) (λ p, mkKey p.1 p.2) _).
  by intros [].
Defined.

(** [enum class ReplacedTextureHash]; the two xxhash modes carry an
    underscore to leave [XXH32] and [XXH64] to the hash functions. *)
Inductive ReplacedTextureHash := QUICK | XXH32_ | XXH64_.

Inductive ReplacerDecimateMode := NEW_FRAME | FORCE_PRESSURE | ALL.

(** [TEX_FILTER_INVALID] is the value [(TextureFiltering)0] that
    [FindReplacement] stores before it resolves the filtering. *)
Inductive TextureFiltering :=
  | TEX_FILTER_INVALID
  | TEX_FILTER_AUTO
  | TEX_FILTER_FORCE_NEAREST
  | TEX_FILTER_FORCE_LINEAR
  | TEX_FILTER_AUTO_MAX_QUALITY.

(** A [ReplacedTexture *]. *)
Definition handle := positive.

(** ** Records of the replacer *)

Record ReplacedImageFormatSupport := {
  bc123 : bool; astc : bool; bc7 : bool; etc2 : bool
}.

Record ReplacementDesc := {
  desc_newW : Z;
  desc_newH : Z;
  desc_w : Z;
  desc_h : Z;
  desc_cachekey : Z;
  desc_hash : Z;
  desc_forceFiltering : TextureFiltering;
  desc_filenames : list string;
  desc_logId : string;
  desc_hashfiles : string;
  desc_basePath : string;
  desc_formatSupport : ReplacedImageFormatSupport
}.

(** Value of the fast tier [cache_]; a null [texture] is the negative entry. *)
Record ReplacedTextureRef := {
  texture : option handle;
  hashfiles : string
}.

Record SavedTextureCacheData := {
  levelW : list Z;
  levelH : list Z;
  levelSaved : list bool;
  lastTimeSaved : spec_float
}.

Record ReplacedTextureDecodeInfo := {
  info_cachekey : Z;
  info_hash : Z;
  info_addr : Z;
  info_isVideo : bool
}.

Record SaveTextureTask := {
  task_rgbaData : list Z;
  task_w : Z;
  task_h : Z;
  task_pitch : Z;
  task_filename : string;
  task_saveFilename : string;
  task_createSaveDirectory : bool;
  task_saveDirectory : string;
  task_replacedInfoHash : Z;
  task_skipIfExists : bool
}.

(** Effects in the order the code performs them. *)
Inductive Event :=
  | EvLookupHashFile (cachekey hash : Z)
  | EvFindFiltering (cachekey hash : Z)
  | EvNewReplacedTexture (t : handle)
  | EvEnqueueTask (task : SaveTextureTask)
  | EvSavedCacheWrite (key : ReplacementCacheKey) (level : Z)
  | EvLock (t : handle)
  | EvPurge (t : handle) (threshold : spec_float)
  | EvUnlock (t : handle).

(** What a configuration (re)load leaves behind, and [g_Config]. *)
Record Policy := {
  enabled_ : bool;
  bReplaceTextures : bool;
  bSaveNewTextures : bool;
  hash_ : ReplacedTextureHash;
  aliases_ : gmap ReplacementCacheKey string;
  hashranges_ : gmap Z (Z * Z);
  filtering_ : gmap ReplacementCacheKey TextureFiltering;
  reducehashranges_ : gmap Z spec_float;
  allowVideo_ : bool;
  ignoreAddress_ : bool;
  reduceHash_ : bool;
  reduceHashGlobalValue : spec_float;
  ignoreMipmap_ : bool;
  basePath_ : string;
  newTextureDir_ : string;
  formatSupport_ : ReplacedImageFormatSupport
}.

(** Collaborators defined outside TextureReplacer.cpp. *)
Class Externals := {
  (** [class ReplacedTexture], its constructor (the [vfs_] pointer it is
      also given is left out) and the two methods [Decimate] calls. *)
  ReplacedTexture : Type;
  ReplacedTexture_new : ReplacementDesc → ReplacedTexture;
  PurgeIfNotUsedSinceTime : spec_float → ReplacedTexture → ReplacedTexture;
  GetTotalDataSize : ReplacedTexture → Z;
  (** Hashes of a run of bytes; [XXH32] and [XXH64] take a seed. *)
  StableQuickTexHash : list Z → Z;
  XXH32 : list Z → Z → Z;
  XXH64 : list Z → Z → Z;
  (** [textureBitsPerPixel[fmt]]. *)
  textureBitsPerPixel : Z → Z;
  MAX_REPLACEMENT_MIP_LEVELS : nat;
  PSP_GetKernelMemoryEnd : Z;
  SplitString : string → Ascii.ascii → list string;
  (** [Path::operator/]. *)
  Path_join : string → string → string
}.

Record State `{Externals} := {
  cache_ : gmap ReplacementCacheKey ReplacedTextureRef;
  levelCache_ : gmap string handle;
  savedCache_ : gmap ReplacementCacheKey SavedTextureCacheData;
  lastTextureCacheSizeGB_ : spec_float;
  reduceHashSize : spec_float;
  (** The [ReplacedTexture] objects alive, by address. *)
  textures : gmap handle ReplacedTexture;
  (** Tasks handed to [g_threadManager], oldest first. *)
  taskQueue : list SaveTextureTask;
  trace : list Event
}.

(** ** Small library functions *)

(** [std::unordered_map::emplace]: no effect when the key is present. *)
Definition emplace `{Countable K} {V} (k : K) (v : V) (m : gmap K V) : gmap K V :=
  match m !! k with
  | Some _ => m
  | None => <[k := v]> m
  end.

(** [n] bytes of [mem] from address [p]. *)
Definition read (mem : Z → Z) (p n : Z) : list Z :=
  (λ i, mem (p + i)) <$> seqZ 0 n.

Definition hex_digit (d : Z) : Ascii.ascii :=
  match d with
  | 0 => "0" | 1 => "1" | 2 => "2" | 3 => "3" | 4 => "4" | 5 => "5"
  | 6 => "6" | 7 => "7" | 8 => "8" | 9 => "9" | 10 => "a" | 11 => "b"
  | 12 => "c" | 13 => "d" | 14 => "e" | _ => "f"
  end%char.

(** [%0<digits>x] of a value of at most [digits] hexadecimal digits. *)
Fixpoint hex_fixed (digits : nat) (n : Z) : string :=
  match digits with
  | O => ""
  | S digits => hex_fixed digits (n / 16) +:+ String (hex_digit (n mod 16)) ""
  end.

(** [std::string::find_last_of] for one character; [None] is [npos]. *)
Fixpoint find_last_of (c : Ascii.ascii) (s : string) : option nat :=
  match s with
  | EmptyString => None
  | String a s' =>
    match find_last_of c s' with
    | Some i => Some (S i)
    | None => if decide (a = c) then Some O else None
    end
  end.

(** ** State updates *)

Section Updates.
Context `{Externals}.

Definition set_cache (f : gmap ReplacementCacheKey ReplacedTextureRef →
                          gmap ReplacementCacheKey ReplacedTextureRef)
    (st : State) : State :=
  {| cache_ := f (cache_ st); levelCache_ := levelCache_ st;
     savedCache_ := savedCache_ st;
     lastTextureCacheSizeGB_ := lastTextureCacheSizeGB_ st;
     reduceHashSize := reduceHashSize st; textures := textures st;
     taskQueue := taskQueue st; trace := trace st |}.

Definition set_levelCache (f : gmap string handle → gmap string handle)
    (st : State) : State :=
  {| cache_ := cache_ st; levelCache_ := f (levelCache_ st);
     savedCache_ := savedCache_ st;
     lastTextureCacheSizeGB_ := lastTextureCacheSizeGB_ st;
     reduceHashSize := reduceHashSize st; textures := textures st;
     taskQueue := taskQueue st; trace := trace st |}.

Definition set_savedCache (f : gmap ReplacementCacheKey SavedTextureCacheData →
                               gmap ReplacementCacheKey SavedTextureCacheData)
    (st : State) : State :=
  {| cache_ := cache_ st; levelCache_ := levelCache_ st;
     savedCache_ := f (savedCache_ st);
     lastTextureCacheSizeGB_ := lastTextureCacheSizeGB_ st;
     reduceHashSize := reduceHashSize st; textures := textures st;
     taskQueue := taskQueue st; trace := trace st |}.

Definition set_lastTextureCacheSizeGB (x : spec_float) (st : State) : State :=
  {| cache_ := cache_ st; levelCache_ := levelCache_ st;
     savedCache_ := savedCache_ st;
     lastTextureCacheSizeGB_ := x;
     reduceHashSize := reduceHashSize st; textures := textures st;
     taskQueue := taskQueue st; trace := trace st |}.

Definition set_reduceHashSize (x : spec_float) (st : State) : State :=
  {| cache_ := cache_ st; levelCache_ := levelCache_ st;
     savedCache_ := savedCache_ st;
     lastTextureCacheSizeGB_ := lastTextureCacheSizeGB_ st;
     reduceHashSize := x; textures := textures st;
     taskQueue := taskQueue st; trace := trace st |}.

Definition set_textures (f : gmap handle ReplacedTexture → gmap handle ReplacedTexture)
    (st : State) : State :=
  {| cache_ := cache_ st; levelCache_ := levelCache_ st;
     savedCache_ := savedCache_ st;
     lastTextureCacheSizeGB_ := lastTextureCacheSizeGB_ st;
     reduceHashSize := reduceHashSize st; textures := f (textures st);
     taskQueue := taskQueue st; trace := trace st |}.

(** [g_threadManager.EnqueueTask(task)]. *)
Definition EnqueueTask (task : SaveTextureTask) (st : State) : State :=
  {| cache_ := cache_ st; levelCache_ := levelCache_ st;
     savedCache_ := savedCache_ st;
     lastTextureCacheSizeGB_ := lastTextureCacheSizeGB_ st;
     reduceHashSize := reduceHashSize st; textures := textures st;
     taskQueue := taskQueue st ++ [task];
     trace := trace st ++ [EvEnqueueTask task] |}.

Definition log (evs : list Event) (st : State) : State :=
  {| cache_ := cache_ st; levelCache_ := levelCache_ st;
     savedCache_ := savedCache_ st;
     lastTextureCacheSizeGB_ := lastTextureCacheSizeGB_ st;
     reduceHashSize := reduceHashSize st; textures := textures st;
     taskQueue := taskQueue st; trace := trace st ++ evs |}.
End Updates.

(** ** Wildcard lookup *)

(** [LookupWildcard(map, key, cachekey, hash, ignoreAddress)].  The iterator
    the source returns is the entry found, [None] for [map.end()].  [key] is
    the caller's exact key; the source overwrites its fields before each
    further probe. *)
Definition LookupWildcard {V} (map : gmap ReplacementCacheKey V)
    (key : ReplacementCacheKey) (cachekey hash : Z) (ignoreAddress : bool)
    : option (ReplacementCacheKey * V) :=
  let find (key : ReplacementCacheKey) := pair key <$> map !! key in
  match find key with
  | Some alias => Some alias
  | None =>
    (* Only clut hash. *)
    let key := mkKey (Z.land cachekey 0xFFFFFFFF) 0 in
    match find key with
    | Some alias => Some alias
    | None =>
      let no_data_hash :=
        if negb ignoreAddress then
          (* No data hash. *)
          find (mkKey cachekey 0)
        else None in
      match no_data_hash with
      | Some alias => Some alias
      | None =>
        (* No address. *)
        let key := mkKey (Z.land cachekey 0xFFFFFFFF) hash in
        match find key with
        | Some alias => Some alias
        | None =>
          let no_clut :=
            if negb ignoreAddress then
              (* Address, but not clut hash. *)
              find (mkKey (Z.land cachekey 0xFFFFFFFF00000000) hash)
            else None in
          match no_clut with
          | Some alias => Some alias
          | None =>
            (* Anything with this data hash. *)
            find (mkKey 0 hash)
          end
        end
      end
    end
  end.

(** The precedence list as the specification words it, with [~0xFFFFFFFF]
    the mathematical complement. *)
Definition probe_order (cachekey hash : Z) (ignoreAddress : bool)
    : list ReplacementCacheKey :=
  [mkKey cachekey hash; mkKey (Z.land cachekey 0xFFFFFFFF) 0]
  ++ (if ignoreAddress then [] else [mkKey cachekey 0])
  ++ [mkKey (Z.land cachekey 0xFFFFFFFF) hash]
  ++ (if ignoreAddress then []
      else [mkKey (Z.land cachekey (Z.lnot 0xFFFFFFFF)) hash])
  ++ [mkKey 0 hash].

(** First key of [keys] present in [map], with its value. *)
Fixpoint first_hit {V} (map : gmap ReplacementCacheKey V)
    (keys : list ReplacementCacheKey) : option (ReplacementCacheKey * V) :=
  match keys with
  | [] => None
  | key :: keys =>
    match map !! key with
    | Some v => Some (key, v)
    | None => first_hit map keys
    end
  end.

(** ** Lookups over the policy tables *)

Definition Enabled (p : Policy) : bool := enabled_ p.

(** [FindFiltering]: the filter found, [None] for [false]. *)
Definition FindFiltering (p : Policy) (cachekey hash : Z) : option TextureFiltering :=
  if negb (Enabled p) || negb (bReplaceTextures p) then None
  else
    let replacementKey := mkKey cachekey hash in
    let filter := LookupWildcard (filtering_ p) replacementKey cachekey hash
                    (ignoreAddress_ p) in
    let filter :=
      match filter with
      | Some f => Some f.2
      | None =>
        (* Allow a global wildcard. *)
        filtering_ p !! mkKey 0 0
      end in
    filter.

(** [LookupHashFile]: the string returned, [*foundAlias] and [*ignored]. *)
Definition LookupHashFile (p : Policy) (cachekey hash : Z) : string * bool * bool :=
  let key := mkKey cachekey hash in
  match LookupWildcard (aliases_ p) key cachekey hash (ignoreAddress_ p) with
  | Some alias =>
    (* Note: this will be blank if explicitly ignored. *)
    (alias.2, true, bool_decide (alias.2 = ""))
  | None => ("", false, false)
  end.

(** [HashName]: ["%016llx%08x_%d"] for [level > 0], else ["%016llx%08x"]. *)
Definition HashName (cachekey hash level : Z) : string :=
  if 0 <? level then
    hex_fixed 16 cachekey +:+ hex_fixed 8 hash +:+ "_" +:+ pretty level
  else
    hex_fixed 16 cachekey +:+ hex_fixed 8 hash.

(** [LookupHashRange]: the result, [*newW] and [*newH]. *)
Definition LookupHashRange (p : Policy) (addr w h : Z) : bool * Z * Z :=
  let rangeKey :=
    Z.lor (Z.lor (to_u64 (Z.shiftl (to_u64 addr) 32))
                 (to_u64 (Z.shiftl (to_u64 w) 16)))
          (to_u64 h) in
  match hashranges_ p !! rangeKey with
  | Some wh => (true, wh.1, wh.2)
  | None => (false, w, h)
  end.

Definition LookupReduceHashRange (p : Policy) (w h : Z) : spec_float :=
  let reducerangeKey := Z.lor (to_u64 (Z.shiftl (to_u64 w) 16)) (to_u64 h) in
  match reducehashranges_ p !! reducerangeKey with
  | Some rhv => rhv
  | None => reduceHashGlobalValue p
  end.

(** [if (ignoreAddress_) cachekey = cachekey & 0xFFFFFFFFULL;], the statement
    [FindReplacement] and [NotifyTextureDecoded] both run before resolving. *)
Definition effective_cachekey (p : Policy) (cachekey : Z) : Z :=
  if ignoreAddress_ p then Z.land cachekey 0xFFFFFFFF else cachekey.

Section Replacer.
Context `{Externals}.

(** ** ComputeHash *)

(** The dimensions hashed: those of a hash range when there is one, else
    the height falls back to [maxSeenV]. *)
Definition ComputeHash_size (p : Policy) (addr w h maxSeenV : Z) : Z * Z :=
  let '(found, w, h) := LookupHashRange p addr w h in
  let h :=
    if negb found && (h =? 512) && (maxSeenV <? 512) && negb (maxSeenV =? 0)
    then maxSeenV else h in
  (w, h).

(** [const u32 bytesPerLine = (textureBitsPerPixel[fmt] * w) / 8 * reduceHashSize;] *)
Definition ComputeHash_bytesPerLine (fmt w : Z) (reduceHashSize : spec_float) : Z :=
  Float.to_u32
    (Float.mul (Float.of_Z (Z.quot (textureBitsPerPixel fmt * w) 8)) reduceHashSize).

(** [const u32 stride = (textureBitsPerPixel[fmt] * bufw) / 8;] *)
Definition ComputeHash_stride (fmt bufw : Z) : Z :=
  to_u32 (Z.quot (textureBitsPerPixel fmt * bufw) 8).

(** The hash [hash_] selects, with the seed the source passes. *)
Definition ComputeHash_rowHash (p : Policy) : list Z → Z :=
  match hash_ p with
  | QUICK => StableQuickTexHash
  | XXH32_ => λ bytes, XXH32 bytes 0xBACD7814
  | XXH64_ => λ bytes, XXH64 bytes 0xBACD7814
  end.

(** The loop of the strided path: [n] rows from [checkp], [stride] bytes
    apart, [bytesPerLine] bytes hashed in each, folded into [result]. *)
Fixpoint hash_rows (rowHash : list Z → Z) (mem : Z → Z)
    (bytesPerLine stride : Z) (n : nat) (checkp result : Z) : Z :=
  match n with
  | O => result
  | S n =>
    let rowHash_y := to_u32 (rowHash (read mem checkp bytesPerLine)) in
    let result := Z.lxor (to_u32 (result * 11)) rowHash_y in
    hash_rows rowHash mem bytesPerLine stride n (checkp + stride) result
  end.

(** [ComputeHash(addr, bufw, w, h, fmt, maxSeenV)] over the emulated memory
    [mem], whose byte at address [a] is [mem a].  The debug-only assertion
    on [enabled_] is not modelled.  The member [reduceHashSize] is written
    when [reduceHash_] is set. *)
Definition ComputeHash (p : Policy) (mem : Z → Z)
    (addr bufw w h fmt maxSeenV : Z) (st : State) : Z * State :=
  let '(w, h) := ComputeHash_size p addr w h maxSeenV in
  let checkp := addr in
  let st :=
    if reduceHash_ p then set_reduceHashSize (LookupReduceHashRange p w h) st
    else st in
  if bufw <=? w then
    (* We can assume the data is contiguous. *)
    let totalPixels := to_u32 (bufw * h + (w - bufw)) in
    let sizeInRAM :=
      Float.to_u32
        (Float.mul (Float.of_Z (to_u32 (textureBitsPerPixel fmt * totalPixels) / 8))
                   (reduceHashSize st)) in
    (to_u32 (ComputeHash_rowHash p (read mem checkp sizeInRAM)), st)
  else
    (* We have gaps.  Let's hash each row and sum. *)
    let bytesPerLine := ComputeHash_bytesPerLine fmt w (reduceHashSize st) in
    let stride := ComputeHash_stride fmt bufw in
    (hash_rows (ComputeHash_rowHash p) mem bytesPerLine stride (Z.to_nat h) checkp 0,
     st).

(** ** FindReplacement *)

Definition FindReplacement (p : Policy) (cachekey hash w h : Z) (st : State)
    : option handle * State :=
  (* Only actually replace if we're replacing.  We might just be saving. *)
  if negb (Enabled p) || negb (bReplaceTextures p) then (None, st)
  else
    let replacementKey := mkKey cachekey hash in
    match cache_ st !! replacementKey with
    | Some it => (texture it, st)
    | None =>
      let '(_, newW, newH) :=
        LookupHashRange p (to_u32 (Z.shiftr cachekey 32)) w h in
      let cachekey' := effective_cachekey p cachekey in
      let '(hashfiles, foundAlias, ignored) := LookupHashFile p cachekey' hash in
      let st := log [EvLookupHashFile cachekey' hash] st in
      if ignored then
        (* Insert an entry into the cache for faster lookup next time. *)
        let ref := Build_ReplacedTextureRef None "" in
        (None, set_cache (emplace replacementKey ref) st)
      else
        let forceFiltering :=
          default TEX_FILTER_INVALID (FindFiltering p cachekey' hash) in
        let st := log [EvFindFiltering cachekey' hash] st in
        let filenames :=
          if foundAlias then SplitString hashfiles "|"
          else (λ level : nat, HashName cachekey' hash (Z.of_nat level) +:+ ".png")
                 <$> seq 0 MAX_REPLACEMENT_MIP_LEVELS in
        let filenames0 := default "" (filenames !! 0%nat) in
        let desc :=
          {| desc_newW := newW; desc_newH := newH; desc_w := w; desc_h := h;
             desc_cachekey := cachekey; desc_hash := hash;
             desc_forceFiltering := forceFiltering;
             desc_filenames := filenames;
             desc_logId := if foundAlias then hashfiles else filenames0;
             desc_hashfiles := if foundAlias then hashfiles else filenames0;
             desc_basePath := basePath_ p;
             desc_formatSupport := formatSupport_ p |} in
        (* We use hashfiles as a key.  Look it up in the level cache. *)
        match levelCache_ st !! hashfiles with
        | Some t =>
          let ref := Build_ReplacedTextureRef (Some t) hashfiles in
          (Some t, set_cache (emplace replacementKey ref) st)
        | None =>
          (* Final path - we actually need a new replacement texture. *)
          let t : handle := fresh (dom (textures st)) in
          let st := set_textures (insert t (ReplacedTexture_new desc)) st in
          let st := log [EvNewReplacedTexture t] st in
          let ref := Build_ReplacedTextureRef (Some t) hashfiles in
          let st := set_cache (emplace replacementKey ref) st in
          let st := set_levelCache (emplace hashfiles t) st in
          (Some t, st)
        end
    end.

(** ** Saving *)

(** [WillSave]; [None] is the failed assertion on [enabled_]. *)
Definition WillSave (p : Policy) (replacedInfo : ReplacedTextureDecodeInfo)
    : option bool :=
  if negb (enabled_ p) then None
  else if negb (bSaveNewTextures p) then Some false
  (* Don't save the PPGe texture. *)
  else if (0x05000000 <? info_addr replacedInfo)
          && (info_addr replacedInfo <? PSP_GetKernelMemoryEnd) then Some false
  else if info_isVideo replacedInfo && negb (allowVideo_ p) then Some false
  else Some true.

(** A value-initialised [SavedTextureCacheData]. *)
Definition SavedTextureCacheData_default : SavedTextureCacheData :=
  {| levelW := replicate MAX_REPLACEMENT_MIP_LEVELS 0;
     levelH := replicate MAX_REPLACEMENT_MIP_LEVELS 0;
     levelSaved := replicate MAX_REPLACEMENT_MIP_LEVELS false;
     lastTimeSaved := S754_zero false |}.

(** [NotifyTextureDecoded]; [data] gives the byte at an offset from the
    caller's pointer, [now] is the value [time_now_d()] returns.  [None] is
    a failed assertion.  Indexing the level arrays out of range is undefined
    in C++ and leaves the list as it is here. *)
Definition NotifyTextureDecoded (p : Policy)
    (replacedInfo : ReplacedTextureDecodeInfo) (data : Z → Z)
    (pitch level origW origH scaledW scaledH : Z) (now : spec_float)
    (st : State) : option State :=
  if negb (enabled_ p) then None
  else
    match WillSave p replacedInfo with
    | None => None
    | Some false => Some st (* Ignore. *)
    | Some true =>
      if ignoreMipmap_ p && (0 <? level) then Some st
      else
        let cachekey := effective_cachekey p (info_cachekey replacedInfo) in
        let '(_, foundAlias, ignored) :=
          LookupHashFile p cachekey (info_hash replacedInfo) in
        let st := log [EvLookupHashFile cachekey (info_hash replacedInfo)] st in
        (* If it's empty, it's an ignored hash, we intentionally don't save. *)
        if foundAlias || ignored then Some st
        else
          (* Generate a new PNG filename, complete with level. *)
          let hashfile :=
            HashName cachekey (info_hash replacedInfo) level +:+ ".png" in
          let replacementKey := mkKey cachekey (info_hash replacedInfo) in
          let skipIfExists := false in
          match savedCache_ st !! replacementKey with
          | Some _ =>
            (* We've already saved this texture.  Ignore it. *)
            Some st
          | None =>
            (* Only save the hashed portion of the PNG. *)
            let '(found, lookupW, lookupH) :=
              LookupHashRange p (info_addr replacedInfo) origW origH in
            let w := if found then lookupW * Z.quot scaledW origW else scaledW in
            let h := if found then lookupH * Z.quot scaledH origH else scaledH in
            (* Copy data to a buffer, compacting away the pitch. *)
            let saveBuf := mjoin ((λ y, read data (y * pitch) (w * 4)) <$> seqZ 0 h) in
            let pitch := w * 4 in
            (* Create subfolder as needed. *)
            let slash := find_last_of "/" hashfile in
            let task :=
              {| task_rgbaData := saveBuf;
                 task_w := w; task_h := h; task_pitch := pitch;
                 task_filename := Path_join (basePath_ p) hashfile;
                 task_saveFilename := Path_join (newTextureDir_ p) hashfile;
                 task_createSaveDirectory := bool_decide (is_Some slash);
                 task_saveDirectory :=
                   match slash with
                   | Some slash =>
                     Path_join (newTextureDir_ p) (String.substring 0 slash hashfile)
                   | None => ""
                   end;
                 task_replacedInfoHash := info_hash replacedInfo;
                 task_skipIfExists := skipIfExists |} in
            (* We don't care about waiting for the task. *)
            let st := EnqueueTask task st in
            (* Remember that we've saved this for next time. *)
            let saveData :=
              default SavedTextureCacheData_default (savedCache_ st !! replacementKey) in
            let saveData :=
              {| levelW := <[Z.to_nat level := w]> (levelW saveData);
                 levelH := <[Z.to_nat level := h]> (levelH saveData);
                 levelSaved := <[Z.to_nat level := true]> (levelSaved saveData);
                 lastTimeSaved := now |} in
            let st := set_savedCache (insert replacementKey saveData) st in
            Some (log [EvSavedCacheWrite replacementKey level] st)
          end
    end.

(** ** Decimate *)

Definition MAX_CACHE_SIZE : spec_float := Double.of_Z 4.

(** The local [age] of [Decimate], from the mode and
    [lastTextureCacheSizeGB_]. *)
Definition Decimate_age (mode : ReplacerDecimateMode)
    (lastTextureCacheSizeGB : spec_float) : spec_float :=
  (* Allow replacements to be cached for a long time. *)
  match mode with
  | FORCE_PRESSURE => Double.of_Z 90
  | ALL => Double.of_Z 0
  | NEW_FRAME =>
    if Double.ltb (Double.of_Z 1) lastTextureCacheSizeGB then
      let pressure :=
        Double.div (Double.std_min MAX_CACHE_SIZE lastTextureCacheSizeGB)
                   MAX_CACHE_SIZE in
      (* Get more aggressive the closer we are to the max. *)
      Double.add (Double.of_Z 90)
        (Double.mul (Double.sub (Double.of_Z 1) pressure) (Double.of_Z 1710))
    else Double.of_Z 1800
  end.

(** One turn of the loop over [levelCache_]: lock the texture, purge it,
    add its size, unlock.  A pointer that is not in the store is skipped. *)
Definition Decimate_item (threshold : spec_float)
    (acc : gmap handle ReplacedTexture * Z * list Event) (item : string * handle)
    : gmap handle ReplacedTexture * Z * list Event :=
  let '(texs, totalSize, evs) := acc in
  let t := item.2 in
  let texs := alter (PurgeIfNotUsedSinceTime threshold) t texs in
  let totalSize :=
    to_u64 (totalSize + from_option GetTotalDataSize 0 (texs !! t)) in
  (texs, totalSize, evs ++ [EvLock t; EvPurge t threshold; EvUnlock t]).

Definition Decimate_sweep (threshold : spec_float)
    (items : list (string * handle)) (texs : gmap handle ReplacedTexture)
    : gmap handle ReplacedTexture * Z * list Event :=
  foldl (Decimate_item threshold) (texs, 0, []) items.

Definition GiB : spec_float :=
  Double.mul (Double.mul (Double.of_Z 1024) (Double.of_Z 1024)) (Double.of_Z 1024).

(** [Decimate(mode)]; [now] is the value [time_now_d()] returns.  The
    warning logged above 1 GB is not modelled. *)
Definition Decimate (mode : ReplacerDecimateMode) (now : spec_float)
    (st : State) : State :=
  let age := Decimate_age mode (lastTextureCacheSizeGB_ st) in
  let threshold := Double.sub now age in
  let '(texs, totalSize, evs) :=
    Decimate_sweep threshold (map_to_list (levelCache_ st)) (textures st) in
  let totalSizeGB := Double.div (Double.of_Z totalSize) GiB in
  set_lastTextureCacheSizeGB totalSizeGB
    (log evs (set_textures (λ _, texs) st)).

(** ** Sequences of calls *)

Inductive Call :=
  | CallComputeHash (mem : Z → Z) (addr bufw w h fmt maxSeenV : Z)
  | CallFindReplacement (cachekey hash w h : Z)
  | CallNotifyTextureDecoded (replacedInfo : ReplacedTextureDecodeInfo)
      (data : Z → Z) (pitch level origW origH scaledW scaledH : Z)
      (now : spec_float)
  | CallDecimate (mode : ReplacerDecimateMode) (now : spec_float).

Definition step (p : Policy) (c : Call) (st : State) : option State :=
  match c with
  | CallComputeHash mem addr bufw w h fmt maxSeenV =>
    Some (ComputeHash p mem addr bufw w h fmt maxSeenV st).2
  | CallFindReplacement cachekey hash w h =>
    Some (FindReplacement p cachekey hash w h st).2
  | CallNotifyTextureDecoded replacedInfo data pitch level origW origH scaledW scaledH now =>
    NotifyTextureDecoded p replacedInfo data pitch level origW origH scaledW scaledH now st
  | CallDecimate mode now => Some (Decimate mode now st)
  end.

Fixpoint run (p : Policy) (cs : list Call) (st : State) : option State :=
  match cs with
  | [] => Some st
  | c :: cs =>
    match step p c st with
    | Some st => run p cs st
    | None => None
    end
  end.

(** The replacer after construction: empty caches, nothing queued.  The
    initial values of the two float members are those of the header. *)
Definition init_state (lastTextureCacheSizeGB0 reduceHashSize0 : spec_float) : State :=
  {| cache_ := ∅; levelCache_ := ∅; savedCache_ := ∅;
     lastTextureCacheSizeGB_ := lastTextureCacheSizeGB0;
     reduceHashSize := reduceHashSize0;
     textures := ∅; taskQueue := []; trace := [] |}.
End Replacer.

(** ** Definitions the statements use *)

(** The row-hash fold of the strided path over a list of row hashes. *)
Definition fold_rows (rowHashes : list Z) (result : Z) : Z :=
  foldl (λ result rowHash, Z.lxor (to_u32 (result * 11)) rowHash) result rowHashes.

(** The hashes of the [n] rows the strided path reads, in row order: row [y]
    is the [bytesPerLine] bytes at [checkp + y * stride]. *)
Definition strided_row_hashes (rowHash : list Z → Z) (mem : Z → Z)
    (bytesPerLine stride : Z) (n : nat) (checkp : Z) : list Z :=
  (λ y : nat, to_u32 (rowHash (read mem (checkp + Z.of_nat y * stride) bytesPerLine)))
    <$> seq 0 n.

(** The age threshold as the specification words it: the smaller of the size
    and the maximum, 1800 s up to 1 GiB. *)
Definition spec_min (a b : spec_float) : spec_float :=
  if Double.leb a b then a else b.

Definition spec_age (mode : ReplacerDecimateMode) (size : spec_float) : spec_float :=
  match mode with
  | ALL => Double.of_Z 0
  | FORCE_PRESSURE => Double.of_Z 90
  | NEW_FRAME =>
    if Double.leb size (Double.of_Z 1) then Double.of_Z 1800
    else
      Double.add (Double.of_Z 90)
        (Double.mul
           (Double.sub (Double.of_Z 1)
              (Double.div (spec_min size (Double.of_Z 4)) (Double.of_Z 4)))
           (Double.of_Z 1710))
  end.

(** What [FindReplacement] resolves an address key to: the string of
    [LookupHashFile], whether an alias was found, whether it is ignored. *)
Definition resolve (p : Policy) (key : ReplacementCacheKey) : string * bool * bool :=
  LookupHashFile p (effective_cachekey p (cachekey key)) (hash key).

Section Invariants.
Context `{Externals}.

(** States a session under policy [p] can be in. *)
Definition reachable (p : Policy) (st : State) : Prop :=
  ∃ size0 reduce0 cs, run p cs (init_state size0 reduce0) = Some st.

(** Every fast-tier entry agrees with the resolution of its key: negative
    for an ignored key, else the handle the level cache holds for the
    key's string. *)
Definition cache_consistent (p : Policy) (st : State) : Prop :=
  ∀ key ref, cache_ st !! key = Some ref →
    match resolve p key with
    | (_, _, true) => texture ref = None
    | (hashfiles, _, false) =>
      ∃ t, texture ref = Some t ∧ levelCache_ st !! hashfiles = Some t
    end.

(** The level cache pairs strings and live textures one to one. *)
Definition one_handle_per_identity (st : State) : Prop :=
  (∀ hashfiles1 hashfiles2 t,
      levelCache_ st !! hashfiles1 = Some t →
      levelCache_ st !! hashfiles2 = Some t → hashfiles1 = hashfiles2)
  ∧ (∀ t, t ∈ dom (textures st) ↔ ∃ hashfiles, levelCache_ st !! hashfiles = Some t).

(** [st'] extends [st]: entries of the two lookup tiers and records of the saved-cache are
    never removed nor changed. *)
Definition extends (st st' : State) : Prop :=
  (∀ key ref, cache_ st !! key = Some ref → cache_ st' !! key = Some ref)
  ∧ (∀ hashfiles t, levelCache_ st !! hashfiles = Some t →
                    levelCache_ st' !! hashfiles = Some t)
  ∧ (∀ key data, savedCache_ st !! key = Some data →
                 savedCache_ st' !! key = Some data).

(** The events of a sweep over [items]: each texture is purged between
    taking and releasing its own lock. *)
Definition sweep_events (threshold : spec_float) (items : list (string * handle))
    : list Event :=
  items ≫= λ item, [EvLock item.2; EvPurge item.2 threshold; EvUnlock item.2].

(** The sizes the textures of [items] report in the store [texs], added up. *)
Definition sum_sizes (texs : gmap handle ReplacedTexture)
    (items : list (string * handle)) : Z :=
  foldr (λ item acc, from_option GetTotalDataSize 0 (texs !! item.2) + acc) 0 items.

(** The resident size of a state: what the textures of the level cache
    report, added up as a [size_t]. *)
Definition resident_size (st : State) : Z :=
  to_u64 (sum_sizes (textures st) (map_to_list (levelCache_ st))).
(** The gates a decoded texture passes before the saved-cache is
    consulted. *)
Definition save_gates (p : Policy) (replacedInfo : ReplacedTextureDecodeInfo)
    (level : Z) : Prop :=
  WillSave p replacedInfo = Some true
  ∧ (ignoreMipmap_ p && (0 <? level)) = false
  ∧ ∃ s, LookupHashFile p (effective_cachekey p (info_cachekey replacedInfo))
           (info_hash replacedInfo) = (s, false, false).

(** The key [NotifyTextureDecoded] records a save under. *)
Definition save_key (p : Policy) (replacedInfo : ReplacedTextureDecodeInfo)
    : ReplacementCacheKey :=
  mkKey (effective_cachekey p (info_cachekey replacedInfo)) (info_hash replacedInfo).
End Invariants.

(** ** Instances for evaluation *)

Module Demo.
(** A texture as the specification describes a handle: the descriptor it
    was built from, a last-used time and the size of its payload. *)
Record Texture := {
  tex_desc : ReplacementDesc;
  tex_lastUsed : spec_float;
  tex_size : Z
}.

(** Collaborators over arbitrary hash functions: 32 bits per pixel, twelve
    mip levels, a purge that drops the payload of a texture last used
    before the threshold. *)
Definition externals (quick : list Z → Z) (xxh32 xxh64 : list Z → Z → Z)
    : Externals :=
  {| ReplacedTexture := Texture;
     ReplacedTexture_new desc :=
       {| tex_desc := desc; tex_lastUsed := S754_zero false; tex_size := 64 |};
     PurgeIfNotUsedSinceTime t tex :=
       if Double.leb t (tex_lastUsed tex) then tex
       else {| tex_desc := tex_desc tex; tex_lastUsed := tex_lastUsed tex;
               tex_size := 0 |};
     GetTotalDataSize := tex_size;
     StableQuickTexHash := quick;
     XXH32 := xxh32;
     XXH64 := xxh64;
     textureBitsPerPixel _ := 32;
     MAX_REPLACEMENT_MIP_LEVELS := 12;
     PSP_GetKernelMemoryEnd := 0x08400000;
     SplitString s _ := [s];
     Path_join a b := a +:+ "/" +:+ b |}.

(** A stand-in for the hash functions: the sum of the bytes. *)
Definition sum_bytes (bytes : list Z) : Z := foldr Z.add 0 bytes.

Definition E : Externals :=
  externals sum_bytes (λ bytes seed, sum_bytes bytes + seed)
    (λ bytes seed, sum_bytes bytes + seed).

Definition formats : ReplacedImageFormatSupport :=
  {| bc123 := true; astc := false; bc7 := true; etc2 := false |}.

(** Replacing and saving enabled, xxh32, the given aliases. *)
Definition policy (aliases : gmap ReplacementCacheKey string) : Policy :=
  {| enabled_ := true; bReplaceTextures := true; bSaveNewTextures := true;
     hash_ := XXH32_; aliases_ := aliases; hashranges_ := ∅; filtering_ := ∅;
     reducehashranges_ := ∅; allowVideo_ := false; ignoreAddress_ := false;
     reduceHash_ := false;
     reduceHashGlobalValue := S754_finite false 8388608 (-24);
     ignoreMipmap_ := false; basePath_ := "textures/GAME";
     newTextureDir_ := "textures/GAME/new"; formatSupport_ := formats |}.

(** The same with [reduceHash = true]: half of the bytes are hashed. *)
Definition reduce_policy : Policy :=
  {| enabled_ := true; bReplaceTextures := true; bSaveNewTextures := true;
     hash_ := XXH32_; aliases_ := ∅; hashranges_ := ∅; filtering_ := ∅;
     reducehashranges_ := ∅; allowVideo_ := false; ignoreAddress_ := false;
     reduceHash_ := true;
     reduceHashGlobalValue := S754_finite false 8388608 (-24);
     ignoreMipmap_ := false; basePath_ := "textures/GAME";
     newTextureDir_ := "textures/GAME/new"; formatSupport_ := formats |}.

Definition init : @State E :=
  @init_state E (S754_zero false) (S754_finite false 8388608 (-23)).

Definition info (cachekey hash : Z) : ReplacedTextureDecodeInfo :=
  {| info_cachekey := cachekey; info_hash := hash;
     info_addr := 0x04000000; info_isVideo := false |}.

(** A 2 x 2 image of four-byte pixels, rows eight bytes apart, whose byte at
    offset [i] is [i]. *)
Definition pixels (offset : Z) : Z := offset mod 256.

Definition notify (cachekey hash level : Z) : Call :=
  CallNotifyTextureDecoded (info cachekey hash) pixels 8 level 2 2 2 2
    (Double.of_Z 10).

(** Aliases of the end-to-end scenario: two address keys share "foo.png",
    a third is suppressed. *)
Definition aliases : gmap ReplacementCacheKey string :=
  {[ mkKey 1 0xaaaa := "foo.png|"; mkKey 1 0xbbbb := "foo.png|"; mkKey 2 2 := "" ]}.

(** The state a run ends in ([st] itself after a failed assertion). *)
Definition final (p : Policy) (cs : list Call) (st : @State E) : @State E :=
  default st (@run E p cs st).

(** Calls made between two lookups. *)
Definition between : list Call :=
  [CallFindReplacement 7 7 4 4; CallDecimate ALL (Double.of_Z 100); notify 5 6 0].

(** After the first lookup of (1, 0xaaaa). *)
Definition found : @State E :=
  (@FindReplacement E (policy aliases) 1 0xaaaa 4 4 init).2.

(** After the first lookup of the suppressed key (2, 2). *)
Definition ignored : @State E :=
  (@FindReplacement E (policy aliases) 2 2 4 4 init).2.

(** A replacer whose last sweep measured 2 GiB. *)
Definition pressed : @State E :=
  @init_state E (Double.of_Z 2) (S754_finite false 8388608 (-23)).

(** After one save of (5, 6) at level 0. *)
Definition saved : @State E := final (policy ∅) [notify 5 6 0] init.

(** The task the save of (5, 6) at level 0 queues. *)
Definition saved_task : SaveTextureTask :=
  {| task_rgbaData := [0; 1; 2; 3; 4; 5; 6; 7; 8; 9; 10; 11; 12; 13; 14; 15];
     task_w := 2; task_h := 2; task_pitch := 8;
     task_filename := "textures/GAME/000000000000000500000006.png";
     task_saveFilename := "textures/GAME/new/000000000000000500000006.png";
     task_createSaveDirectory := false;
     task_saveDirectory := "";
     task_replacedInfoHash := 6;
     task_skipIfExists := false |}.

(** Two rows of two four-byte pixels, sixteen bytes apart from address
    0x1000: the rows agree on their first pixel and differ on the second.
    [rows_swapped] holds the same rows in the other order; every other byte
    is zero in both. *)
Definition rows (a : Z) : Z :=
  if (0x1004 <=? a) && (a <? 0x1008) then 1
  else if (0x1014 <=? a) && (a <? 0x1018) then 2
  else 0.

Definition rows_swapped (a : Z) : Z :=
  if (0x1004 <=? a) && (a <? 0x1008) then 2
  else if (0x1014 <=? a) && (a <? 0x1018) then 1
  else 0.
End Demo.

(** ** Loading the configuration *)

(** [(int)x] for a [u32] [x]. *)
Definition to_i32 (x : Z) : Z := (x + 2 ^ 31) mod 2 ^ 32 - 2 ^ 31.

(** [std::string::c_str()] as a C function reads it: up to the first NUL. *)
Fixpoint c_str (s : string) : string :=
  match s with
  | EmptyString => EmptyString
  | String a s' =>
    if decide (a = Ascii.zero) then EmptyString else String a (c_str s')
  end.

(** [tolower] in the C locale. *)
Definition tolower (a : Ascii.ascii) : Ascii.ascii :=
  let n := N_of_ascii a in
  if (65 <=? n)%N && (n <=? 90)%N then ascii_of_N (n + 32) else a.

Fixpoint lowercase (s : string) : string :=
  match s with
  | EmptyString => EmptyString
  | String a s' => String (tolower a) (lowercase s')
  end.

(** [strcasecmp(a, b) == 0]. *)
Definition strcasecmp (a b : string) : bool :=
  bool_decide (lowercase a = lowercase b).

Definition INI_FILENAME : string := "textures.ini".
Definition ZIP_FILENAME : string := "textures.zip".
Definition NEW_TEXTURE_DIR : string := "new/".

(** Writes to the members of [TextureReplacer] that make up [Policy]. *)
Definition set_enabled (enabled : bool) (p : Policy) : Policy :=
  {| enabled_ := enabled; bReplaceTextures := bReplaceTextures p;
     bSaveNewTextures := bSaveNewTextures p; hash_ := hash_ p;
     aliases_ := aliases_ p; hashranges_ := hashranges_ p;
     filtering_ := filtering_ p; reducehashranges_ := reducehashranges_ p;
     allowVideo_ := allowVideo_ p; ignoreAddress_ := ignoreAddress_ p;
     reduceHash_ := reduceHash_ p;
     reduceHashGlobalValue := reduceHashGlobalValue p;
     ignoreMipmap_ := ignoreMipmap_ p; basePath_ := basePath_ p;
     newTextureDir_ := newTextureDir_ p; formatSupport_ := formatSupport_ p |}.

Definition set_paths (basePath newTextureDir : string) (p : Policy) : Policy :=
  {| enabled_ := enabled_ p; bReplaceTextures := bReplaceTextures p;
     bSaveNewTextures := bSaveNewTextures p; hash_ := hash_ p;
     aliases_ := aliases_ p; hashranges_ := hashranges_ p;
     filtering_ := filtering_ p; reducehashranges_ := reducehashranges_ p;
     allowVideo_ := allowVideo_ p; ignoreAddress_ := ignoreAddress_ p;
     reduceHash_ := reduceHash_ p;
     reduceHashGlobalValue := reduceHashGlobalValue p;
     ignoreMipmap_ := ignoreMipmap_ p; basePath_ := basePath;
     newTextureDir_ := newTextureDir; formatSupport_ := formatSupport_ p |}.

Definition set_options (hash : ReplacedTextureHash)
    (allowVideo ignoreAddress reduceHash ignoreMipmap : bool) (p : Policy) : Policy :=
  {| enabled_ := enabled_ p; bReplaceTextures := bReplaceTextures p;
     bSaveNewTextures := bSaveNewTextures p; hash_ := hash;
     aliases_ := aliases_ p; hashranges_ := hashranges_ p;
     filtering_ := filtering_ p; reducehashranges_ := reducehashranges_ p;
     allowVideo_ := allowVideo; ignoreAddress_ := ignoreAddress;
     reduceHash_ := reduceHash;
     reduceHashGlobalValue := reduceHashGlobalValue p;
     ignoreMipmap_ := ignoreMipmap; basePath_ := basePath_ p;
     newTextureDir_ := newTextureDir_ p; formatSupport_ := formatSupport_ p |}.

Definition set_aliases (f : gmap ReplacementCacheKey string →
                            gmap ReplacementCacheKey string)
    (p : Policy) : Policy :=
  {| enabled_ := enabled_ p; bReplaceTextures := bReplaceTextures p;
     bSaveNewTextures := bSaveNewTextures p; hash_ := hash_ p;
     aliases_ := f (aliases_ p); hashranges_ := hashranges_ p;
     filtering_ := filtering_ p; reducehashranges_ := reducehashranges_ p;
     allowVideo_ := allowVideo_ p; ignoreAddress_ := ignoreAddress_ p;
     reduceHash_ := reduceHash_ p;
     reduceHashGlobalValue := reduceHashGlobalValue p;
     ignoreMipmap_ := ignoreMipmap_ p; basePath_ := basePath_ p;
     newTextureDir_ := newTextureDir_ p; formatSupport_ := formatSupport_ p |}.

Definition set_hashranges (f : gmap Z (Z * Z) → gmap Z (Z * Z)) (p : Policy) : Policy :=
  {| enabled_ := enabled_ p; bReplaceTextures := bReplaceTextures p;
     bSaveNewTextures := bSaveNewTextures p; hash_ := hash_ p;
     aliases_ := aliases_ p; hashranges_ := f (hashranges_ p);
     filtering_ := filtering_ p; reducehashranges_ := reducehashranges_ p;
     allowVideo_ := allowVideo_ p; ignoreAddress_ := ignoreAddress_ p;
     reduceHash_ := reduceHash_ p;
     reduceHashGlobalValue := reduceHashGlobalValue p;
     ignoreMipmap_ := ignoreMipmap_ p; basePath_ := basePath_ p;
     newTextureDir_ := newTextureDir_ p; formatSupport_ := formatSupport_ p |}.

Definition set_filtering (f : gmap ReplacementCacheKey TextureFiltering →
                              gmap ReplacementCacheKey TextureFiltering)
    (p : Policy) : Policy :=
  {| enabled_ := enabled_ p; bReplaceTextures := bReplaceTextures p;
     bSaveNewTextures := bSaveNewTextures p; hash_ := hash_ p;
     aliases_ := aliases_ p; hashranges_ := hashranges_ p;
     filtering_ := f (filtering_ p); reducehashranges_ := reducehashranges_ p;
     allowVideo_ := allowVideo_ p; ignoreAddress_ := ignoreAddress_ p;
     reduceHash_ := reduceHash_ p;
     reduceHashGlobalValue := reduceHashGlobalValue p;
     ignoreMipmap_ := ignoreMipmap_ p; basePath_ := basePath_ p;
     newTextureDir_ := newTextureDir_ p; formatSupport_ := formatSupport_ p |}.

Definition set_reducehashranges (f : gmap Z spec_float → gmap Z spec_float)
    (p : Policy) : Policy :=
  {| enabled_ := enabled_ p; bReplaceTextures := bReplaceTextures p;
     bSaveNewTextures := bSaveNewTextures p; hash_ := hash_ p;
     aliases_ := aliases_ p; hashranges_ := hashranges_ p;
     filtering_ := filtering_ p; reducehashranges_ := f (reducehashranges_ p);
     allowVideo_ := allowVideo_ p; ignoreAddress_ := ignoreAddress_ p;
     reduceHash_ := reduceHash_ p;
     reduceHashGlobalValue := reduceHashGlobalValue p;
     ignoreMipmap_ := ignoreMipmap_ p; basePath_ := basePath_ p;
     newTextureDir_ := newTextureDir_ p; formatSupport_ := formatSupport_ p |}.

(** An [IniFile] as [LoadIni] and [LoadIniValues] read it.  For an option
    that [Section::Get] is given a member as default, the field is the value
    found, [None] when the default is kept; for a section read through
    [ToMap], the field is the list of its (key, value) entries in the order
    of the iteration, [None] when [HasSection] is false. *)
Record IniFile := {
  (** [options->Get("hash", &hash, "")]. *)
  ini_hash : string;
  ini_video : option bool;
  ini_ignoreAddress : option bool;
  ini_reduceHash : option bool;
  ini_ignoreMipmap : option bool;
  (** [games->Get(gameID, &overrideFilename, "")]: the value when the call
      returns true. *)
  ini_games : string → option string;
  ini_hashes : option (list (string * string));
  ini_hashranges : option (list (string * string));
  ini_filtering : option (list (string * string));
  ini_reducehashranges : option (list (string * string))
}.

(** Parsers defined outside TextureReplacer.cpp.  A [sscanf] gives the
    values it converted, in the order of the format; the variables of the
    conversions it did not reach keep their value. *)
Class Parsers := {
  (** [TryParse(str, &value)] for a [u32]; [None] for [false]. *)
  TryParse_u32 : string → option Z;
  TryParse_u32_range s n : TryParse_u32 s = Some n → is_u32 n;
  (** [TryParse(str, &value)] for a [float]. *)
  TryParse_float : string → option spec_float;
  (** [sscanf(str, "%16llx%8x_%d", ...)]. *)
  sscanf_hashname_level : string → list Z;
  (** [sscanf(str, "%16llx%8x", ...)]. *)
  sscanf_hashname : string → list Z
}.

(** What the file system and the emulator show to a configuration load:
    the disc id, the textures directory, whether a path is a directory,
    whether a path opens as a zip file, and the ini file that [LoadFromVFS]
    loads by its name from the zip file or the directory of a path. *)
Record Files := {
  GetDiscID : string;
  GetSysDirectory_TEXTURES : string;
  IsDirectory : string → bool;
  ZipFileReader_Create : string → bool;
  LoadFromVFS : string → string → option IniFile
}.

(** [levels[level] = name] on a [std::map<int, std::string>], kept as the
    list of its entries in ascending order of the level, which is the order
    a loop over the map visits them in. *)
Fixpoint std_map_assign (level : Z) (name : string) (levels : list (Z * string))
    : list (Z * string) :=
  match levels with
  | [] => [(level, name)]
  | entry :: levels' =>
    if level <? entry.1 then (level, name) :: entry :: levels'
    else if level =? entry.1 then (level, name) :: levels'
    else entry :: std_map_assign level name levels'
  end.

(** The loop over the levels of one key (lines 264-272): names are appended
    while the levels count up from [mipIndex]; the first other level breaks
    the loop. *)
Fixpoint LoadIniValues_levels (levels : list (Z * string)) (mipIndex : Z)
    (alias : string) : string :=
  match levels with
  | [] => alias
  | level :: levels =>
    if level.1 =? mipIndex then
      LoadIniValues_levels levels (mipIndex + 1) (alias +:+ level.2 +:+ "|")
    else alias
  end.

(** The alias stored for one key of [filenameMap] (lines 262-276). *)
Definition LoadIniValues_alias (levels : list (Z * string)) : string :=
  let alias := LoadIniValues_levels levels 0 "" in
  if decide (alias = "|") then "" (* marker for no replacement *) else alias.

Section Loader.
Context `{Externals} `{Parsers}.

Definition ParseHashRange (key value : string) (p : Policy) : Policy :=
  match SplitString key ",", SplitString value "," with
  | [k0; k1; k2], [v0; v1] =>
    match TryParse_u32 k0, TryParse_u32 k1, TryParse_u32 k2 with
    | Some addr, Some fromW, Some fromH =>
      match TryParse_u32 v0, TryParse_u32 v1 with
      | Some toW, Some toH =>
        if (fromW <? toW) || (fromH <? toH) then p
        else
          let rangeKey :=
            Z.lor (Z.lor (to_u64 (Z.shiftl (to_u64 addr) 32))
                         (to_u64 (Z.shiftl (to_u64 fromW) 16)))
                  (to_u64 fromH) in
          (* A [WidthHeightPair] holds two [int]. *)
          set_hashranges (insert rangeKey (to_i32 toW, to_i32 toH)) p
      | _, _ => p
      end
    | _, _, _ => p
    end
  | _, _ => p
  end.

Definition ParseFiltering (key value : string) (p : Policy) : Policy :=
  match sscanf_hashname (c_str key) with
  | cachekey :: rest =>
    let itemKey := mkKey cachekey (default 0 (rest !! 0%nat)) in
    if strcasecmp (c_str value) "nearest" then
      set_filtering (insert itemKey TEX_FILTER_FORCE_NEAREST) p
    else if strcasecmp (c_str value) "linear" then
      set_filtering (insert itemKey TEX_FILTER_FORCE_LINEAR) p
    else if strcasecmp (c_str value) "auto" then
      set_filtering (insert itemKey TEX_FILTER_AUTO) p
    else p
  | [] => p
  end.

Definition ParseReduceHashRange (key value : string) (p : Policy) : Policy :=
  match SplitString key ",", SplitString value "," with
  | [k0; k1], [v0] =>
    match TryParse_u32 k0, TryParse_u32 k1 with
    | Some forW, Some forH =>
      match TryParse_float v0 with
      | Some rhashvalue =>
        if SFeqb rhashvalue (S754_zero false) then p
        else
          let reducerangeKey :=
            Z.lor (to_u64 (Z.shiftl (to_u64 forW) 16)) (to_u64 forH) in
          set_reducehashranges (insert reducerangeKey rhashvalue) p
      | None => p
      end
    | _, _ => p
    end
  | _, _ => p
  end.

(** The first loop over [hashes] (lines 241-258): [filenameMap]. *)
Definition LoadIniValues_filenameMap (hashes : list (string * string))
    : gmap ReplacementCacheKey (list (Z * string)) :=
  foldl (λ filenameMap item,
    match sscanf_hashname_level (c_str item.1) with
    | cachekey :: rest =>
      let key := mkKey cachekey (default 0 (rest !! 0%nat)) in
      (* sscanf might fail to pluck the level, but that's ok. *)
      let level := default 0 (rest !! 1%nat) in
      <[key := std_map_assign level item.2 (default [] (filenameMap !! key))]>
        filenameMap
    | [] => filenameMap
    end) ∅ hashes.

(** The second loop (lines 261-277): every key of [filenameMap] gets its
    alias. *)
Definition LoadIniValues_hashes (hashes : list (string * string)) (p : Policy)
    : Policy :=
  set_aliases
    (λ aliases,
       map_fold (λ key levels aliases, <[key := LoadIniValues_alias levels]> aliases)
         aliases (LoadIniValues_filenameMap hashes)) p.

(** [LoadIniValues(ini, isOverride)]: the result and the members after the
    call.  The messages and the warning on file names are not modelled. *)
Definition LoadIniValues (ini : IniFile) (isOverride : bool) (p : Policy)
    : bool * Policy :=
  let hash := ini_hash ini in
  let chosen :=
    if strcasecmp (c_str hash) "quick" then Some QUICK
    else if strcasecmp (c_str hash) "xxh32" then Some XXH32_
    else if strcasecmp (c_str hash) "xxh64" then Some XXH64_
    else if negb isOverride || negb (bool_decide (hash = "")) then None
    else Some (hash_ p) in
  match chosen with
  | None => (false, p)
  | Some hash =>
    let allowVideo := default (allowVideo_ p) (ini_video ini) in
    let ignoreAddress := default (ignoreAddress_ p) (ini_ignoreAddress ini) in
    let reduceHash := default (reduceHash_ p) (ini_reduceHash ini) in
    let ignoreMipmap := default (ignoreMipmap_ p) (ini_ignoreMipmap ini) in
    let quick := match hash with QUICK => true | _ => false end in
    let reduceHash := if reduceHash && quick then false else reduceHash in
    let ignoreAddress := if ignoreAddress && quick then false else ignoreAddress in
    let p := set_options hash allowVideo ignoreAddress reduceHash ignoreMipmap p in
    let p :=
      match ini_hashes ini with
      | Some hashes => LoadIniValues_hashes hashes p
      | None => p
      end in
    let p :=
      match ini_hashranges ini with
      | Some hashranges =>
        foldl (λ p item, ParseHashRange item.1 item.2 p) p hashranges
      | None => p
      end in
    let p :=
      match ini_filtering ini with
      | Some filters => foldl (λ p item, ParseFiltering item.1 item.2 p) p filters
      | None => p
      end in
    let p :=
      match ini_reducehashranges ini with
      | Some reducehashranges =>
        foldl (λ p item, ParseReduceHashRange item.1 item.2 p) p reducehashranges
      | None => p
      end in
    (true, p)
  end.

(** The members [LoadIni] resets before it reads anything. *)
Definition LoadIni_reset (p : Policy) : Policy :=
  {| enabled_ := enabled_ p; bReplaceTextures := bReplaceTextures p;
     bSaveNewTextures := bSaveNewTextures p; hash_ := QUICK;
     aliases_ := ∅; hashranges_ := ∅; filtering_ := ∅; reducehashranges_ := ∅;
     allowVideo_ := false; ignoreAddress_ := false; reduceHash_ := false;
     reduceHashGlobalValue := S754_finite false 8388608 (-24) (* 0.5 *);
     ignoreMipmap_ := false; basePath_ := basePath_ p;
     newTextureDir_ := newTextureDir_ p; formatSupport_ := formatSupport_ p |}.

(** [LoadIni()]: the result and the members after the call.  The [vfs_]
    pointer and its copies in the textures are not modelled. *)
Definition LoadIni (files : Files) (p : Policy) : bool * Policy :=
  let p := LoadIni_reset p in
  (* First, check for textures.zip, which is used to reduce IO. *)
  let zipPath := Path_join (basePath_ p) ZIP_FILENAME in
  let vfsIsZip := ZipFileReader_Create files zipPath in
  let dir := if vfsIsZip then zipPath else basePath_ p in
  match LoadFromVFS files dir INI_FILENAME with
  | Some ini =>
    match LoadIniValues ini false p with
    | (false, p) => (false, p)
    | (true, p) =>
      (* Allow overriding settings per game id. *)
      match ini_games ini (c_str (GetDiscID files)) with
      | Some overrideFilename =>
        if negb (bool_decide (overrideFilename = ""))
           && negb (bool_decide (overrideFilename = INI_FILENAME)) then
          match LoadFromVFS files dir overrideFilename with
          | None => (false, p)
          | Some overrideIni => LoadIniValues overrideIni true p
          end
        else (true, p)
      | None => (true, p)
      end
    end
  | None =>
    (* We don't accept zip files without inis. *)
    if vfsIsZip then (false, p) else (true, p)
  end.

(** [NotifyConfigChanged()]; [now] is the value [time_now_d()] returns in
    [Decimate].  [bReplaceTextures] and [bSaveNewTextures] of [p] are the
    flags of [g_Config] at the call, [enabled_ p] is the member before it.
    The directory the call may create is not modelled: [IsDirectory] is
    asked after it. *)
Definition NotifyConfigChanged (files : Files) (now : spec_float)
    (p : Policy) (st : State) : Policy * State :=
  let wasEnabled := enabled_ p in
  let p := set_enabled (bReplaceTextures p || bSaveNewTextures p) p in
  let '(p, st) :=
    if enabled_ p then
      let basePath := Path_join (GetSysDirectory_TEXTURES files) (GetDiscID files) in
      let p := set_paths basePath (Path_join basePath NEW_TEXTURE_DIR) p in
      (set_enabled (IsDirectory files (basePath_ p)) p, st)
    else if wasEnabled then (p, Decimate ALL now st)
    else (p, st) in
  if enabled_ p then
    let '(loaded, p) := LoadIni files p in
    (set_enabled loaded p, st)
  else (p, st).
End Loader.

(** ** Statements about the configuration *)

(** The key [ParseHashRange] and [LookupHashRange] file a range under. *)
Definition rangeKey (addr w h : Z) : Z :=
  Z.lor (Z.lor (to_u64 (Z.shiftl (to_u64 addr) 32)) (to_u64 (Z.shiftl (to_u64 w) 16)))
        (to_u64 h).

(** No hash range is larger than the texture it is looked up for, for
    textures below 65536 x 65536. *)
Definition ranges_within (p : Policy) : Prop :=
  ∀ addr w h newW newH,
    is_u32 addr → 0 ≤ w < 2 ^ 16 → 0 ≤ h < 2 ^ 16 →
    LookupHashRange p addr w h = (true, newW, newH) →
    0 ≤ newW ≤ w ∧ 0 ≤ newH ≤ h.

(** No reduce factor of the configuration is zero. *)
Definition reduce_nonzero (p : Policy) : Prop :=
  SFeqb (reduceHashGlobalValue p) (S754_zero false) = false
  ∧ ∀ key rhv, reducehashranges_ p !! key = Some rhv →
               SFeqb rhv (S754_zero false) = false.

(** File names, each followed by the separator of an alias. *)
Definition bars (names : list string) : string :=
  foldr (λ name alias, name +:+ "|" +:+ alias) "" names.

(** The entries of a complete mip chain: level [i] has the [i]-th name. *)
Definition mip_chain (names : list string) : list (Z * string) :=
  imap (λ i name, (Z.of_nat i, name)) names.

(** The filter a value of [filtering] names, whatever the case of its
    letters. *)
Definition filter_named (value : string) : option TextureFiltering :=
  let value := lowercase (c_str value) in
  if decide (value = "nearest") then Some TEX_FILTER_FORCE_NEAREST
  else if decide (value = "linear") then Some TEX_FILTER_FORCE_LINEAR
  else if decide (value = "auto") then Some TEX_FILTER_AUTO
  else None.

(** The key and the level a line of [hashes] is filed under, [None] when
    [sscanf] converts nothing. *)
Definition hashes_key `{Parsers} (name : string) : option (ReplacementCacheKey * Z) :=
  match sscanf_hashname_level (c_str name) with
  | cachekey :: rest =>
    Some (mkKey cachekey (default 0 (rest !! 0%nat)), default 0 (rest !! 1%nat))
  | [] => None
  end.

(** The members a configuration load reads and leaves as they are. *)
Definition load_inputs (p : Policy)
    : bool * bool * bool * string * string * ReplacedImageFormatSupport :=
  (enabled_ p, bReplaceTextures p, bSaveNewTextures p, basePath_ p,
   newTextureDir_ p, formatSupport_ p).

(** The options of the [options] section, and the global reduce factor. *)
Definition load_options (p : Policy)
    : ReplacedTextureHash * bool * bool * bool * bool * spec_float :=
  (hash_ p, allowVideo_ p, ignoreAddress_ p, reduceHash_ p, ignoreMipmap_ p,
   reduceHashGlobalValue p).

(** ** A texture pack for evaluation *)

Module Pack.
(** [SplitString] as the callers here use it: the pieces between the
    delimiters, without a last piece that is empty; a string without
    delimiter is its own only piece. *)
Fixpoint split_from (delim : Ascii.ascii) (seen : bool) (piece s : string)
    : list string :=
  match s with
  | EmptyString => if seen && bool_decide (piece = "") then [] else [piece]
  | String a s' =>
    if decide (a = delim) then piece :: split_from delim true "" s'
    else split_from delim seen (piece +:+ String a "") s'
  end.

Definition split_string (s : string) (delim : Ascii.ascii) : list string :=
  split_from delim false "" s.

(** The collaborators of [Demo.E] with this [SplitString]. *)
Definition E : Externals :=
  {| ReplacedTexture := Demo.Texture;
     ReplacedTexture_new := @ReplacedTexture_new Demo.E;
     PurgeIfNotUsedSinceTime := @PurgeIfNotUsedSinceTime Demo.E;
     GetTotalDataSize := @GetTotalDataSize Demo.E;
     StableQuickTexHash := @StableQuickTexHash Demo.E;
     XXH32 := @XXH32 Demo.E;
     XXH64 := @XXH64 Demo.E;
     textureBitsPerPixel := @textureBitsPerPixel Demo.E;
     MAX_REPLACEMENT_MIP_LEVELS := @MAX_REPLACEMENT_MIP_LEVELS Demo.E;
     PSP_GetKernelMemoryEnd := @PSP_GetKernelMemoryEnd Demo.E;
     SplitString := split_string;
     Path_join := @Path_join Demo.E |}.

(** The value of a digit below [base]. *)
Definition digit (base : Z) (a : Ascii.ascii) : option Z :=
  let n := Z.of_N (N_of_ascii a) in
  let d :=
    if (48 <=? n) && (n <=? 57) then n - 48
    else if (97 <=? n) && (n <=? 102) then n - 87
    else if (65 <=? n) && (n <=? 70) then n - 55
    else base in
  if d <? base then Some d else None.

Fixpoint number (base acc : Z) (s : string) : option Z :=
  match s with
  | EmptyString => Some acc
  | String a s' =>
    match digit base a with
    | Some d => number base (acc * base + d) s'
    | None => None
    end
  end.

(** A stand-in for [TryParse] of a [u32]: decimal digits, or hexadecimal
    digits after "0x". *)
Definition parse_u32 (s : string) : option Z :=
  let parsed :=
    match s with
    | EmptyString => None
    | String "0" (String "x" (String a s')) => number 16 0 (String a s')
    | _ => number 10 0 s
    end in
  match parsed with
  | Some n => if (0 <=? n) && (n <? 2 ^ 32) then Some n else None
  | None => None
  end.

(** A stand-in for [TryParse] of a [float] that knows four values. *)
Definition parse_float (s : string) : option spec_float :=
  if decide (s = "0.5") then Some (S754_finite false 8388608 (-24))
  else if decide (s = "0.25") then Some (S754_finite false 8388608 (-25))
  else if decide (s = "1") then Some (S754_finite false 8388608 (-23))
  else if decide (s = "0") then Some (S754_zero false)
  else None.

(** At most [width] hexadecimal digits from the front of [s]: their value,
    how many there are, and the rest of [s]. *)
Fixpoint hex_prefix (width : nat) (acc : Z) (count : nat) (s : string)
    : Z * nat * string :=
  match width, s with
  | S width, String a s' =>
    match digit 16 a with
    | Some d => hex_prefix width (acc * 16 + d) (S count) s'
    | None => (acc, count, s)
    end
  | _, _ => (acc, count, s)
  end.

(** The decimal digits at the front of [s]: their value and how many
    there are. *)
Fixpoint decimal_prefix (acc : Z) (count : nat) (s : string) : Z * nat :=
  match s with
  | String a s' =>
    match digit 10 a with
    | Some d => decimal_prefix (acc * 10 + d) (S count) s'
    | None => (acc, count)
    end
  | EmptyString => (acc, count)
  end.

(** A stand-in for the conversion [%d]: a sign, if any, and the decimal
    digits after it; whatever follows the digits is left. *)
Definition scan_level (s : string) : option Z :=
  let '(negative, digits) :=
    match s with
    | String "-" s' => (true, s')
    | String "+" s' => (false, s')
    | _ => (false, s)
    end in
  let '(n, count) := decimal_prefix 0 0 digits in
  match count with
  | O => None
  | S _ => Some (if negative : bool then - n else n)
  end.

(** Stand-ins for the two [sscanf] of hash names, for names whose
    hexadecimal part has no blanks, signs or "0x". *)
Definition scan_hashname_level (s : string) : list Z :=
  let '(cachekey, n, rest) := hex_prefix 16 0 0 s in
  match n with
  | O => []
  | S _ =>
    let '(hash, m, rest) := hex_prefix 8 0 0 rest in
    match m with
    | O => [cachekey]
    | S _ =>
      match rest with
      | String "_" rest' =>
        match scan_level rest' with
        | Some level => [cachekey; hash; level]
        | None => [cachekey; hash]
        end
      | _ => [cachekey; hash]
      end
    end
  end.

Definition scan_hashname (s : string) : list Z :=
  take 2 (scan_hashname_level s).

Definition parsers : Parsers.
Proof.
  refine {| TryParse_u32 := parse_u32; TryParse_float := parse_float;
            sscanf_hashname_level := scan_hashname_level;
            sscanf_hashname := scan_hashname |}.
  intros s n. unfold parse_u32, is_u32.
  destruct (match s with EmptyString => None | _ => _ end) as [m|]; [|done].
  destruct ((0 <=? m) && (m <? 2 ^ 32)) eqn:Hrange; [|done].
  intros [= <-]. apply andb_true_iff in Hrange as [?%Z.leb_le ?%Z.ltb_lt]. done.
Defined.

(** textures.ini of the pack: xxh32 with the address ignored; an alias, a
    line for level 1 alone, a line without file name; a hash range and one
    that is larger than its source; a filter; two reduce factors, one of
    them zero. *)
Definition ini : IniFile :=
  {| ini_hash := "XXH32"; ini_video := None; ini_ignoreAddress := Some true;
     ini_reduceHash := Some true; ini_ignoreMipmap := None;
     ini_games := λ gameID,
       if decide (gameID = "ULUS10000") then Some "ulus.ini" else None;
     ini_hashes := Some [("0000000000000001aaaaaaaa", "foo.png");
                         ("0000000000000002bbbbbbbb_1", "mip1.png");
                         ("0000000000000003cccccccc", "")];
     ini_hashranges := Some [("0x100,512,512", "480,272"); ("0x200,64,64", "128,64")];
     ini_filtering := Some [("0000000000000001aaaaaaaa", "Linear")];
     ini_reducehashranges := Some [("512,512", "0.25"); ("64,64", "0")] |}.

(** The override of the game: the quick hash, which drops [reduceHash] and
    [ignoreAddress]. *)
Definition ulus_ini : IniFile :=
  {| ini_hash := "quick"; ini_video := Some true; ini_ignoreAddress := None;
     ini_reduceHash := None; ini_ignoreMipmap := None;
     ini_games := λ _, None;
     ini_hashes := None; ini_hashranges := None; ini_filtering := None;
     ini_reducehashranges := None |}.

(** A directory with textures.ini, and the override for the disc ULUS10000. *)
Definition files (gameID : string) : Files :=
  {| GetDiscID := gameID; GetSysDirectory_TEXTURES := "textures";
     IsDirectory := λ _, true; ZipFileReader_Create := λ _, false;
     LoadFromVFS := λ _ name,
       if decide (name = "textures.ini") then Some ini
       else if decide (name = "ulus.ini") then Some ulus_ini
       else None |}.

(** A textures.zip without textures.ini. *)
Definition bare_zip : Files :=
  {| GetDiscID := "ULUS10000"; GetSysDirectory_TEXTURES := "textures";
     IsDirectory := λ _, true; ZipFileReader_Create := λ _, true;
     LoadFromVFS := λ _ _, None |}.

(** Replacing without saving, and saving without replacing. *)
Definition replace_only : Policy :=
  {| enabled_ := true; bReplaceTextures := true; bSaveNewTextures := false;
     hash_ := XXH32_; aliases_ := Demo.aliases; hashranges_ := ∅; filtering_ := ∅;
     reducehashranges_ := ∅; allowVideo_ := false; ignoreAddress_ := false;
     reduceHash_ := false;
     reduceHashGlobalValue := S754_finite false 8388608 (-24);
     ignoreMipmap_ := false; basePath_ := "textures/GAME";
     newTextureDir_ := "textures/GAME/new"; formatSupport_ := Demo.formats |}.

Definition save_only : Policy :=
  {| enabled_ := true; bReplaceTextures := false; bSaveNewTextures := true;
     hash_ := XXH32_; aliases_ := Demo.aliases; hashranges_ := ∅; filtering_ := ∅;
     reducehashranges_ := ∅; allowVideo_ := false; ignoreAddress_ := false;
     reduceHash_ := false;
     reduceHashGlobalValue := S754_finite false 8388608 (-24);
     ignoreMipmap_ := false; basePath_ := "textures/GAME";
     newTextureDir_ := "textures/GAME/new"; formatSupport_ := Demo.formats |}.

(** The demo policy with [ignoreAddress]. *)
Definition ignore_address : Policy :=
  set_options XXH32_ false true false false (Demo.policy Demo.aliases).

(** The demo policy with a hash range: the 8 x 8 texture at 0x100 is hashed
    as 4 x 2. *)
Definition ranged : Policy :=
  set_hashranges (insert (rangeKey 0x100 8 8) (4, 2)) (Demo.policy ∅).

(** A texture at 0x100, outside of the PPGe range. *)
Definition info : ReplacedTextureDecodeInfo :=
  {| info_cachekey := 5; info_hash := 6; info_addr := 0x100; info_isVideo := false |}.

(** The configuration the pack loads for a disc. *)
Definition loaded (gameID : string) : Policy :=
  (@LoadIni E parsers (files gameID) (Demo.policy Demo.aliases)).2.

(** One decode of that texture at twice its size, and the task it queues. *)
Definition ranged_saved : @State Demo.E :=
  Demo.final ranged
    [CallNotifyTextureDecoded info Demo.pixels 64 0 8 8 16 16 (Double.of_Z 10)]
    Demo.init.

Definition ranged_task : SaveTextureTask :=
  default Demo.saved_task (head (taskQueue ranged_saved)).

(** The replacer of the pack after construction. *)
Definition init : @State E :=
  @init_state E (S754_zero false) (S754_finite false 8388608 (-23)).





(** A replacer whose last sweep measured the cap. *)
Definition full : @State Demo.E :=
  @init_state Demo.E (Double.of_Z 4) (S754_finite false 8388608 (-23)).
End Pack.

(** * Part II: properties *)

(** ** The emplace of unordered maps *)

Section Emplace.
Context `{Countable K} {V : Type}.
Implicit Types (m : gmap K V) (k : K) (v : V).

Lemma emplace_None m k v : m !! k = None → emplace k v m = <[k := v]> m.
Proof. unfold emplace. by intros ->. Qed.

Lemma emplace_Some m k v v' : m !! k = Some v' → emplace k v m = m.
Proof. unfold emplace. by intros ->. Qed.

Lemma lookup_emplace_mono m k v k' v' :
  m !! k' = Some v' → emplace k v m !! k' = Some v'.
Proof.
  intros Hk'. unfold emplace. destruct (m !! k) eqn:Hk; [done|].
  rewrite lookup_insert_ne; [done|]. intros ->. congruence.
Qed.

Lemma lookup_emplace_new m k v : m !! k = None → emplace k v m !! k = Some v.
Proof. intros Hk. rewrite emplace_None by done. apply lookup_insert_eq. Qed.

Lemma lookup_emplace_ne m k v k' : k ≠ k' → emplace k v m !! k' = m !! k'.
Proof.
  intros Hne. unfold emplace. destruct (m !! k); [done|].
  by rewrite lookup_insert_ne.
Qed.
End Emplace.

(** ** The wildcard lookup *)

Lemma land_upper_mask_u64 (x : Z) :
  is_u64 x → Z.land x 0xFFFFFFFF00000000 = Z.land x (Z.lnot 0xFFFFFFFF).
Proof.
  intros [Hlo Hhi]. apply Z.bits_inj'. intros n Hn.
  rewrite !Z.land_spec, Z.lnot_spec by done.
  destruct (Z_lt_ge_dec n 64) as [Hlt|Hge].
  - f_equal.
    change 0xFFFFFFFF00000000 with (Z.shiftl (Z.ones 32) 32).
    change 0xFFFFFFFF with (Z.ones 32).
    destruct (Z_lt_ge_dec n 32) as [Hlt'|Hge'].
    + rewrite Z.shiftl_spec_low by done.
      rewrite Z.ones_spec_low by lia. done.
    + rewrite Z.shiftl_spec by done.
      rewrite Z.ones_spec_low by lia.
      rewrite Z.ones_spec_high by lia. done.
  - assert (Z.testbit x n = false) as ->; [|done].
    destruct (decide (x = 0)) as [->|Hx]; [apply Z.bits_0|].
    apply Z.bits_above_log2; [done|].
    assert (Z.log2 x < 64); [|lia].
    apply Z.log2_lt_pow2; lia.
Qed.

(** C3: the wildcard resolver probes the exact key, then (low 32 bits, 0),
    then (cachekey, 0) unless the address is ignored, then (low 32 bits,
    hash), then (high 32 bits, hash) unless the address is ignored, then
    (0, hash), and returns the first entry present, or no match. *)
Theorem LookupWildcard_probe_order {V} (map : gmap ReplacementCacheKey V)
    (cachekey hash : Z) (ignoreAddress : bool) :
  is_u64 cachekey →
  LookupWildcard map (mkKey cachekey hash) cachekey hash ignoreAddress
  = first_hit map (probe_order cachekey hash ignoreAddress).
Proof.
  intros Hck. unfold LookupWildcard, probe_order.
  rewrite <- (land_upper_mask_u64 cachekey Hck).
  destruct ignoreAddress; simpl;
    repeat (match goal with
            | |- context [map !! ?k] => destruct (map !! k); simpl; try done
            end).
Qed.

(** ** FindReplacement *)

Section FindReplacementFacts.
Context `{Externals}.
Implicit Types (p : Policy) (st : State) (key : ReplacementCacheKey).

Lemma FindReplacement_disabled p ck hs w h st :
  Enabled p && bReplaceTextures p = false →
  FindReplacement p ck hs w h st = (None, st).
Proof.
  intros Hoff. unfold FindReplacement.
  destruct (Enabled p), (bReplaceTextures p); done.
Qed.

Lemma FindReplacement_hit p ck hs w h st ref :
  Enabled p = true → bReplaceTextures p = true →
  cache_ st !! mkKey ck hs = Some ref →
  FindReplacement p ck hs w h st = (texture ref, st).
Proof.
  intros Hen Hrep Hhit. unfold FindReplacement.
  by rewrite Hen, Hrep, Hhit.
Qed.

(** The three ways a lookup that misses the fast tier ends. *)
Lemma FindReplacement_miss p ck hs w h st hashfiles foundAlias ignored :
  Enabled p = true → bReplaceTextures p = true →
  cache_ st !! mkKey ck hs = None →
  resolve p (mkKey ck hs) = (hashfiles, foundAlias, ignored) →
  let r := FindReplacement p ck hs w h st in
  savedCache_ r.2 = savedCache_ st ∧ taskQueue r.2 = taskQueue st ∧
  if ignored then
    r.1 = None ∧
    cache_ r.2 = <[mkKey ck hs := Build_ReplacedTextureRef None ""]> (cache_ st) ∧
    levelCache_ r.2 = levelCache_ st ∧ textures r.2 = textures st ∧
    trace r.2 = trace st ++ [EvLookupHashFile (effective_cachekey p ck) hs]
  else
    match levelCache_ st !! hashfiles with
    | Some t =>
      r.1 = Some t ∧
      cache_ r.2 = <[mkKey ck hs := Build_ReplacedTextureRef (Some t) hashfiles]> (cache_ st) ∧
      levelCache_ r.2 = levelCache_ st ∧ textures r.2 = textures st
    | None =>
      let t := fresh (dom (textures st)) in
      r.1 = Some t ∧
      cache_ r.2 = <[mkKey ck hs := Build_ReplacedTextureRef (Some t) hashfiles]> (cache_ st) ∧
      levelCache_ r.2 = <[hashfiles := t]> (levelCache_ st) ∧
      ∃ tex, textures r.2 = <[t := tex]> (textures st)
    end.
Proof.
  intros Hen Hrep Hmiss Hres. unfold resolve in Hres. simpl in Hres.
  unfold FindReplacement. rewrite Hen, Hrep, Hmiss. simpl.
  destruct (LookupHashRange p _ w h) as [[found newW] newH].
  rewrite Hres. destruct ignored; simpl.
  - rewrite emplace_None by done. done.
  - destruct (levelCache_ st !! hashfiles) as [t|] eqn:Hlevel; simpl.
    + rewrite emplace_None by done. done.
    + rewrite !emplace_None by done. eauto 10.
Qed.

Lemma FindReplacement_cache_mono p ck hs w h st key ref :
  cache_ st !! key = Some ref →
  cache_ (FindReplacement p ck hs w h st).2 !! key = Some ref.
Proof.
  intros Hkey. unfold FindReplacement.
  repeat case_match; simpl; try done; by apply lookup_emplace_mono.
Qed.

Lemma FindReplacement_levelCache_mono p ck hs w h st hashfiles t :
  levelCache_ st !! hashfiles = Some t →
  levelCache_ (FindReplacement p ck hs w h st).2 !! hashfiles = Some t.
Proof.
  intros Hkey. unfold FindReplacement.
  repeat case_match; simpl; try done; by apply lookup_emplace_mono.
Qed.

Lemma FindReplacement_saved p ck hs w h st :
  savedCache_ (FindReplacement p ck hs w h st).2 = savedCache_ st
  ∧ taskQueue (FindReplacement p ck hs w h st).2 = taskQueue st.
Proof. unfold FindReplacement. repeat case_match; done. Qed.
End FindReplacementFacts.

(** ** ComputeHash, NotifyTextureDecoded and Decimate leave the lookup tiers alone *)

Section Frames.
Context `{Externals}.
Implicit Types (p : Policy) (st : State).

Lemma ComputeHash_frame p mem addr bufw w h fmt maxSeenV st :
  let st' := (ComputeHash p mem addr bufw w h fmt maxSeenV st).2 in
  cache_ st' = cache_ st ∧ levelCache_ st' = levelCache_ st ∧
  savedCache_ st' = savedCache_ st ∧ textures st' = textures st ∧
  taskQueue st' = taskQueue st ∧ trace st' = trace st ∧
  lastTextureCacheSizeGB_ st' = lastTextureCacheSizeGB_ st.
Proof. unfold ComputeHash. repeat case_match; done. Qed.

Lemma NotifyTextureDecoded_frame p info data pitch level oW oH sW sH now st st' :
  NotifyTextureDecoded p info data pitch level oW oH sW sH now st = Some st' →
  cache_ st' = cache_ st ∧ levelCache_ st' = levelCache_ st ∧
  textures st' = textures st ∧
  lastTextureCacheSizeGB_ st' = lastTextureCacheSizeGB_ st.
Proof.
  unfold NotifyTextureDecoded. intros Hst'.
  repeat case_match; try done; by inversion Hst'.
Qed.

Lemma Decimate_sweep_dom threshold items texs :
  dom (Decimate_sweep threshold items texs).1.1 = dom texs.
Proof.
  unfold Decimate_sweep. generalize (0 : Z) ([] : list Event).
  revert texs. induction items as [|item items IH]; intros texs n evs; [done|].
  simpl. rewrite IH. apply dom_alter_L.
Qed.

Lemma Decimate_frame mode now st :
  let st' := Decimate mode now st in
  cache_ st' = cache_ st ∧ levelCache_ st' = levelCache_ st ∧
  savedCache_ st' = savedCache_ st ∧ taskQueue st' = taskQueue st ∧
  dom (textures st') = dom (textures st).
Proof.
  unfold Decimate.
  pose proof (Decimate_sweep_dom
    (Double.sub now (Decimate_age mode (lastTextureCacheSizeGB_ st)))
    (map_to_list (levelCache_ st)) (textures st)) as Hdom.
  destruct (Decimate_sweep _ _ _) as [[texs total] evs]. simpl in *. done.
Qed.
End Frames.

(** ** What a sequence of calls keeps *)

Section Runs.
Context `{Externals}.
Implicit Types (p : Policy) (st : State) (c : Call) (cs : list Call).

Lemma extends_refl st : extends st st.
Proof. by unfold extends. Qed.

Lemma extends_trans st1 st2 st3 : extends st1 st2 → extends st2 st3 → extends st1 st3.
Proof.
  intros (Hc & Hl & Hs) (Hc' & Hl' & Hs'). split_and!; auto.
Qed.

(** A call of [NotifyTextureDecoded] either queues nothing and records
    nothing, or passes the gates, finds no record, queues one task and then
    writes the record. *)
Lemma NotifyTextureDecoded_cases p info data pitch level oW oH sW sH now st st' :
  NotifyTextureDecoded p info data pitch level oW oH sW sH now st = Some st' →
  (taskQueue st' = taskQueue st ∧ savedCache_ st' = savedCache_ st ∧
   (save_gates p info level → is_Some (savedCache_ st !! save_key p info)))
  ∨ (save_gates p info level ∧ savedCache_ st !! save_key p info = None ∧
     ∃ task d,
       taskQueue st' = taskQueue st ++ [task] ∧
       savedCache_ st' = <[save_key p info := d]> (savedCache_ st) ∧
       trace st' = trace st ++
         [EvLookupHashFile (effective_cachekey p (info_cachekey info)) (info_hash info);
          EvEnqueueTask task; EvSavedCacheWrite (save_key p info) level]).
Proof.
  unfold NotifyTextureDecoded, save_gates, save_key. intros Hst'.
  destruct (enabled_ p) eqn:Hen; [simpl in Hst'|done].
  destruct (WillSave p info) as [[]|] eqn:Hwill; [| |done].
  2:{ simplify_eq. left. split_and!; try done. by intros [? _]. }
  destruct (ignoreMipmap_ p && (0 <? level)) eqn:Hmip.
  { simplify_eq. left. split_and!; try done. by intros (_ & ? & _). }
  destruct (LookupHashFile p _ (info_hash info)) as [[s foundAlias] ignored] eqn:Hlook.
  destruct (foundAlias || ignored) eqn:Halias.
  { simplify_eq. left. split_and!; try done.
    intros (_ & _ & s' & Hs'). simplify_eq. }
  apply orb_false_elim in Halias as [-> ->].
  destruct (savedCache_ _ !! _) as [d|] eqn:Hsaved; simpl in Hsaved.
  { simplify_eq. left. split_and!; by try done. }
  destruct (LookupHashRange p (info_addr info) oW oH) as [[found lookupW] lookupH].
  simplify_eq. right. simpl. split; [by eauto|]. split; [done|].
  do 2 eexists. split_and!; [done..|]. by rewrite <- !app_assoc.
Qed.

Lemma NotifyTextureDecoded_saved_mono p info data pitch level oW oH sW sH now st st' key d :
  NotifyTextureDecoded p info data pitch level oW oH sW sH now st = Some st' →
  savedCache_ st !! key = Some d → savedCache_ st' !! key = Some d.
Proof.
  intros Hst' Hkey.
  destruct (NotifyTextureDecoded_cases _ _ _ _ _ _ _ _ _ _ _ _ Hst')
    as [(_ & -> & _)|(_ & Hnone & task & d' & _ & -> & _)]; [done|].
  rewrite lookup_insert_ne; [done|]. intros <-. congruence.
Qed.

Lemma step_extends p c st st' : step p c st = Some st' → extends st st'.
Proof.
  destruct c as [mem addr bufw w h fmt maxSeenV|ck hs w h
                |info data pitch level oW oH sW sH now|mode now];
    simpl; intros Hstep.
  - simplify_eq.
    destruct (ComputeHash_frame p mem addr bufw w h fmt maxSeenV st)
      as (Hc & Hl & Hs & _).
    unfold extends. rewrite Hc, Hl, Hs. done.
  - simplify_eq. destruct (FindReplacement_saved p ck hs w h st) as [Hs _].
    unfold extends. rewrite Hs.
    split_and!; [|intros; by apply FindReplacement_levelCache_mono|done].
    intros; by apply FindReplacement_cache_mono.
  - destruct (NotifyTextureDecoded_frame _ _ _ _ _ _ _ _ _ _ _ _ Hstep)
      as (Hc & Hl & _).
    unfold extends. rewrite Hc, Hl. split_and!; [done..|].
    intros key d. by apply NotifyTextureDecoded_saved_mono with (1 := Hstep).
  - simplify_eq. destruct (Decimate_frame mode now st) as (Hc & Hl & Hs & _).
    unfold extends. rewrite Hc, Hl, Hs. done.
Qed.

Lemma run_extends p cs st st' : run p cs st = Some st' → extends st st'.
Proof.
  revert st. induction cs as [|c cs IH]; intros st; simpl.
  - intros [= ->]. apply extends_refl.
  - destruct (step p c st) as [st1|] eqn:Hstep; [|done].
    intros Hrun. eapply extends_trans; [by eapply step_extends|by apply IH].
Qed.

(** The queue of save tasks only grows. *)
Lemma step_taskQueue_prefix p c st st' :
  step p c st = Some st' → taskQueue st `prefix_of` taskQueue st'.
Proof.
  destruct c as [mem addr bufw w h fmt maxSeenV|ck hs w h
                |info data pitch level oW oH sW sH now|mode now];
    simpl; intros Hstep.
  - simplify_eq.
    destruct (ComputeHash_frame p mem addr bufw w h fmt maxSeenV st)
      as (_ & _ & _ & _ & -> & _). done.
  - simplify_eq. by destruct (FindReplacement_saved p ck hs w h st) as [_ ->].
  - destruct (NotifyTextureDecoded_cases _ _ _ _ _ _ _ _ _ _ _ _ Hstep)
      as [(-> & _)|(_ & _ & task & d & -> & _)]; [done|].
    by apply prefix_app_r.
  - simplify_eq. by destruct (Decimate_frame mode now st) as (_ & _ & _ & -> & _).
Qed.

Lemma run_taskQueue_prefix p cs st st' :
  run p cs st = Some st' → taskQueue st `prefix_of` taskQueue st'.
Proof.
  revert st. induction cs as [|c cs IH]; intros st; simpl.
  - by intros [= ->].
  - destruct (step p c st) as [st1|] eqn:Hstep; [|done].
    intros Hrun. etrans; [by eapply step_taskQueue_prefix|by apply IH].
Qed.

(** While the replacer is enabled no assertion fails: every call returns. *)
Lemma NotifyTextureDecoded_total p info data pitch level oW oH sW sH now st :
  enabled_ p = true →
  is_Some (NotifyTextureDecoded p info data pitch level oW oH sW sH now st).
Proof.
  intros Hen. unfold NotifyTextureDecoded, WillSave. rewrite Hen. simpl.
  repeat case_match; simplify_eq; eauto.
Qed.

Lemma step_total p c st : enabled_ p = true → is_Some (step p c st).
Proof.
  intros Hen. destruct c; simpl; eauto. by apply NotifyTextureDecoded_total.
Qed.

Lemma run_total p cs st : enabled_ p = true → is_Some (run p cs st).
Proof.
  intros Hen. revert st. induction cs as [|c cs IH]; intros st; simpl; [eauto|].
  destruct (step_total p c st Hen) as [st' ->]. apply IH.
Qed.

Lemma run_app p cs1 cs2 st :
  run p (cs1 ++ cs2) st = run p cs1 st ≫= run p cs2.
Proof.
  revert st. induction cs1 as [|c cs1 IH]; intros st; simpl; [done|].
  destruct (step p c st); simpl; [apply IH|done].
Qed.

Lemma reachable_step p c st st' :
  reachable p st → step p c st = Some st' → reachable p st'.
Proof.
  intros (size0 & reduce0 & cs & Hrun) Hstep.
  exists size0, reduce0, (cs ++ [c]).
  rewrite run_app, Hrun. simpl. by rewrite Hstep.
Qed.

Lemma reachable_run p cs st st' :
  reachable p st → run p cs st = Some st' → reachable p st'.
Proof.
  revert st. induction cs as [|c cs IH]; intros st Hreach; simpl.
  - by intros [= <-].
  - destruct (step p c st) as [st1|] eqn:Hstep; [|done].
    apply IH. by eapply reachable_step.
Qed.

(** An invariant of every step from the initial state holds in every
    reachable state. *)
Lemma reachable_ind p (P : State → Prop) :
  (∀ size0 reduce0, P (init_state size0 reduce0)) →
  (∀ c st st', P st → step p c st = Some st' → P st') →
  ∀ st, reachable p st → P st.
Proof.
  intros Hinit Hstep st (size0 & reduce0 & cs & Hrun).
  revert Hrun. generalize (Hinit size0 reduce0).
  generalize (init_state size0 reduce0). clear Hinit.
  induction cs as [|c cs IH]; intros st0 HP; simpl.
  - by intros [= <-].
  - destruct (step p c st0) as [st1|] eqn:Hst1; [|done].
    apply IH. by eapply Hstep.
Qed.
End Runs.

(** ** Invariants of the lookup tiers *)

Section TierInvariants.
Context `{Externals}.
Implicit Types (p : Policy) (st : State) (c : Call) (cs : list Call).

Lemma FindReplacement_consistent p ck hs w h st :
  cache_consistent p st →
  cache_consistent p (FindReplacement p ck hs w h st).2.
Proof.
  intros Hcons.
  destruct (Enabled p && bReplaceTextures p) eqn:Hon.
  2:{ by rewrite FindReplacement_disabled. }
  apply andb_true_iff in Hon as [Hen Hrep].
  destruct (cache_ st !! mkKey ck hs) as [ref|] eqn:Hfast.
  { by rewrite (FindReplacement_hit _ _ _ _ _ _ ref). }
  destruct (resolve p (mkKey ck hs)) as [[hashfiles foundAlias] ignored] eqn:Hres.
  pose proof (FindReplacement_miss p ck hs w h st _ _ _ Hen Hrep Hfast Hres) as Hmiss.
  pose proof (FindReplacement_levelCache_mono p ck hs w h st) as Hmono.
  destruct (FindReplacement p ck hs w h st) as [r st']. simpl in *.
  destruct Hmiss as (_ & _ & Hmiss).
  assert (∀ key ref, key ≠ mkKey ck hs → cache_ st !! key = Some ref →
    match resolve p key with
    | (_, _, true) => texture ref = None
    | (hashfiles, _, false) =>
      ∃ t, texture ref = Some t ∧ levelCache_ st' !! hashfiles = Some t
    end) as Hold.
  { intros key ref _ Hkey. specialize (Hcons key ref Hkey).
    destruct (resolve p key) as [[hf fa] []]; [done|].
    destruct Hcons as (t & ? & ?). eauto. }
  intros key ref Hkey.
  destruct (decide (key = mkKey ck hs)) as [->|Hne].
  - rewrite Hres. destruct ignored.
    + destruct Hmiss as (_ & Hc & _). rewrite Hc, lookup_insert_eq in Hkey.
      by simplify_eq.
    + destruct (levelCache_ st !! hashfiles) as [t|] eqn:Hlevel.
      * destruct Hmiss as (_ & Hc & Hl & _). rewrite Hc, lookup_insert_eq in Hkey.
        simplify_eq. exists t. by rewrite Hl.
      * destruct Hmiss as (_ & Hc & Hl & _). rewrite Hc, lookup_insert_eq in Hkey.
        simplify_eq. eexists. split; [done|]. by rewrite Hl, lookup_insert_eq.
  - apply Hold; [done|].
    destruct ignored; [|destruct (levelCache_ st !! hashfiles)];
      destruct Hmiss as (_ & Hc & _); by rewrite Hc, lookup_insert_ne in Hkey.
Qed.

Lemma FindReplacement_one_handle p ck hs w h st :
  one_handle_per_identity st →
  one_handle_per_identity (FindReplacement p ck hs w h st).2.
Proof.
  intros [Hinj Hdom].
  destruct (Enabled p && bReplaceTextures p) eqn:Hon.
  2:{ by rewrite FindReplacement_disabled. }
  apply andb_true_iff in Hon as [Hen Hrep].
  destruct (cache_ st !! mkKey ck hs) as [ref|] eqn:Hfast.
  { by rewrite (FindReplacement_hit _ _ _ _ _ _ ref). }
  destruct (resolve p (mkKey ck hs)) as [[hashfiles foundAlias] ignored] eqn:Hres.
  pose proof (FindReplacement_miss p ck hs w h st _ _ _ Hen Hrep Hfast Hres) as Hmiss.
  destruct (FindReplacement p ck hs w h st) as [r st']. simpl in *.
  destruct Hmiss as (_ & _ & Hmiss).
  destruct ignored; [|destruct (levelCache_ st !! hashfiles) as [t|] eqn:Hlevel].
  - destruct Hmiss as (_ & _ & Hl & Ht & _). unfold one_handle_per_identity.
    by rewrite Hl, Ht.
  - destruct Hmiss as (_ & _ & Hl & Ht). unfold one_handle_per_identity.
    by rewrite Hl, Ht.
  - destruct Hmiss as (_ & _ & Hl & tex & Ht).
    set (t := fresh (dom (textures st))) in *.
    assert (t ∉ dom (textures st)) as Hfresh by apply is_fresh.
    assert (∀ hf, levelCache_ st !! hf ≠ Some t) as Hunused.
    { intros hf Hhf. apply Hfresh, Hdom. eauto. }
    unfold one_handle_per_identity. rewrite Hl, Ht. split.
    + intros hf1 hf2 t' H1 H2.
      destruct (decide (hashfiles = hf1)) as [<-|Hne1];
        destruct (decide (hashfiles = hf2)) as [<-|Hne2]; [done|..].
      * rewrite lookup_insert_eq in H1. rewrite lookup_insert_ne in H2 by done.
        simplify_eq. by destruct (Hunused hf2).
      * rewrite lookup_insert_eq in H2. rewrite lookup_insert_ne in H1 by done.
        simplify_eq. by destruct (Hunused hf1).
      * rewrite lookup_insert_ne in H1, H2 by done. eauto.
    + intros t'. rewrite dom_insert_L, elem_of_union, elem_of_singleton, Hdom.
      split.
      * intros [->|[hf Hhf]].
        -- exists hashfiles. apply lookup_insert_eq.
        -- exists hf. rewrite lookup_insert_ne; [done|]. intros <-. congruence.
      * intros [hf Hhf]. destruct (decide (hashfiles = hf)) as [<-|Hne].
        -- rewrite lookup_insert_eq in Hhf. left. congruence.
        -- rewrite lookup_insert_ne in Hhf by done. eauto.
Qed.

Lemma step_tier_invariants p c st st' :
  cache_consistent p st ∧ one_handle_per_identity st →
  step p c st = Some st' →
  cache_consistent p st' ∧ one_handle_per_identity st'.
Proof.
  intros [Hcons Hone].
  destruct c as [mem addr bufw w h fmt maxSeenV|ck hs w h
                |info data pitch level oW oH sW sH now|mode now];
    simpl; intros Hstep.
  - simplify_eq.
    destruct (ComputeHash_frame p mem addr bufw w h fmt maxSeenV st)
      as (Hc & Hl & _ & Ht & _).
    unfold cache_consistent, one_handle_per_identity. by rewrite Hc, Hl, Ht.
  - simplify_eq.
    split; [by apply FindReplacement_consistent|by apply FindReplacement_one_handle].
  - destruct (NotifyTextureDecoded_frame _ _ _ _ _ _ _ _ _ _ _ _ Hstep)
      as (Hc & Hl & Ht & _).
    unfold cache_consistent, one_handle_per_identity. by rewrite Hc, Hl, Ht.
  - simplify_eq. destruct (Decimate_frame mode now st) as (Hc & Hl & _ & _ & Ht).
    unfold cache_consistent, one_handle_per_identity. by rewrite Hc, Hl, Ht.
Qed.

Lemma reachable_tier_invariants p st :
  reachable p st → cache_consistent p st ∧ one_handle_per_identity st.
Proof.
  apply (reachable_ind p (λ st, cache_consistent p st ∧ one_handle_per_identity st)).
  - intros size0 reduce0. split.
    + intros key ref Hkey. simpl in Hkey. by rewrite lookup_empty in Hkey.
    + split.
      * intros hf1 hf2 t Hhf. simpl in Hhf. by rewrite lookup_empty in Hhf.
      * intros t. simpl. rewrite dom_empty_L. split; [set_solver|].
        intros [hf Hhf]. by rewrite lookup_empty in Hhf.
  - intros c st0 st1. apply step_tier_invariants.
Qed.
End TierInvariants.

Section LookupTheorems.
Context `{Externals}.
Implicit Types (p : Policy) (st : State) (c : Call) (cs : list Call).

(** A lookup that returns a handle leaves it in the fast tier. *)
Lemma FindReplacement_Some_cached p ck hs w h st t :
  (FindReplacement p ck hs w h st).1 = Some t →
  Enabled p = true ∧ bReplaceTextures p = true ∧
  ∃ ref, cache_ (FindReplacement p ck hs w h st).2 !! mkKey ck hs = Some ref
         ∧ texture ref = Some t.
Proof.
  intros Hret.
  destruct (Enabled p && bReplaceTextures p) eqn:Hon.
  2:{ by rewrite FindReplacement_disabled in Hret. }
  apply andb_true_iff in Hon as [Hen Hrep]. split_and!; [done..|].
  destruct (cache_ st !! mkKey ck hs) as [ref|] eqn:Hfast.
  { rewrite (FindReplacement_hit _ _ _ _ _ _ ref) in * by done. eauto. }
  destruct (resolve p (mkKey ck hs)) as [[hashfiles foundAlias] ignored] eqn:Hres.
  pose proof (FindReplacement_miss p ck hs w h st _ _ _ Hen Hrep Hfast Hres) as Hmiss.
  destruct (FindReplacement p ck hs w h st) as [r st']. simpl in *.
  destruct Hmiss as (_ & _ & Hmiss).
  destruct ignored; [|destruct (levelCache_ st !! hashfiles)].
  - destruct Hmiss as (? & _). congruence.
  - destruct Hmiss as (? & -> & _). rewrite lookup_insert_eq.
    eexists. split; [done|]. simpl. congruence.
  - destruct Hmiss as (? & -> & _). rewrite lookup_insert_eq.
    eexists. split; [done|]. simpl. congruence.
Qed.

(** In a consistent state a key that resolves to a string, not ignored,
    gets the handle the level cache holds for the string afterwards. *)
Lemma FindReplacement_level_handle p ck hs w h st hashfiles foundAlias :
  cache_consistent p st →
  Enabled p = true → bReplaceTextures p = true →
  resolve p (mkKey ck hs) = (hashfiles, foundAlias, false) →
  ∃ t, (FindReplacement p ck hs w h st).1 = Some t
       ∧ levelCache_ (FindReplacement p ck hs w h st).2 !! hashfiles = Some t.
Proof.
  intros Hcons Hen Hrep Hres.
  destruct (cache_ st !! mkKey ck hs) as [ref|] eqn:Hfast.
  { rewrite (FindReplacement_hit _ _ _ _ _ _ ref) by done. simpl.
    specialize (Hcons _ _ Hfast). by rewrite Hres in Hcons. }
  pose proof (FindReplacement_miss p ck hs w h st _ _ _ Hen Hrep Hfast Hres) as Hmiss.
  destruct (FindReplacement p ck hs w h st) as [r st']. simpl in *.
  destruct Hmiss as (_ & _ & Hmiss).
  destruct (levelCache_ st !! hashfiles) as [t|] eqn:Hlevel.
  - destruct Hmiss as (-> & _ & -> & _). eauto.
  - destruct Hmiss as (-> & _ & -> & _). eexists. split; [done|].
    apply lookup_insert_eq.
Qed.






(** C2: once [FindReplacement] has returned a handle for (cachekey, hash,
    w, h), every later call with these arguments, whatever is called in
    between, returns that handle from the fast tier and leaves the state as
    it is: nothing is resolved or built again. *)
Theorem FindReplacement_idempotent p ck hs w h st t cs :
  (FindReplacement p ck hs w h st).1 = Some t →
  ∃ st2,
    run p cs (FindReplacement p ck hs w h st).2 = Some st2
    ∧ FindReplacement p ck hs w h st2 = (Some t, st2)
    ∧ ∃ ref, cache_ st2 !! mkKey ck hs = Some ref ∧ texture ref = Some t.
Proof.
  intros Hret.
  destruct (FindReplacement_Some_cached _ _ _ _ _ _ _ Hret)
    as (Hen & Hrep & ref & Hfast & Htex).
  destruct (run_total p cs (FindReplacement p ck hs w h st).2 Hen) as [st2 Hrun].
  exists st2. split; [done|].
  destruct (run_extends _ _ _ _ Hrun) as (Hc & _).
  apply Hc in Hfast.
  rewrite (FindReplacement_hit _ _ _ _ _ _ ref), Htex by done. eauto.
Qed.

(** C4: in a session under one policy, for an address key whose alias is
    the empty string, [FindReplacement] returns nothing and leaves a
    negative entry in the fast tier, written after one run of
    [LookupHashFile] when the key was not cached; every later call for the
    key returns nothing from the fast tier and leaves the state, and so the
    trace of resolver calls, as it is. *)
Theorem FindReplacement_ignored_memoized p st ck hs w h s foundAlias cs w' h' :
  reachable p st →
  Enabled p = true → bReplaceTextures p = true →
  resolve p (mkKey ck hs) = (s, foundAlias, true) →
  (FindReplacement p ck hs w h st).1 = None
  ∧ (∃ ref, cache_ (FindReplacement p ck hs w h st).2 !! mkKey ck hs = Some ref
            ∧ texture ref = None)
  ∧ (cache_ st !! mkKey ck hs = None →
     cache_ (FindReplacement p ck hs w h st).2 !! mkKey ck hs
     = Some (Build_ReplacedTextureRef None "")
     ∧ trace (FindReplacement p ck hs w h st).2
       = trace st ++ [EvLookupHashFile (effective_cachekey p ck) hs])
  ∧ ∃ st2, run p cs (FindReplacement p ck hs w h st).2 = Some st2
           ∧ FindReplacement p ck hs w' h' st2 = (None, st2).
Proof.
  intros Hreach Hen Hrep Hres.
  destruct (run_total p cs (FindReplacement p ck hs w h st).2 Hen) as [st2 Hrun].
  destruct (reachable_tier_invariants p st Hreach) as [Hcons _].
  assert ((FindReplacement p ck hs w h st).1 = None
          ∧ (∃ ref, cache_ (FindReplacement p ck hs w h st).2 !! mkKey ck hs = Some ref
                    ∧ texture ref = None)
          ∧ (cache_ st !! mkKey ck hs = None →
             cache_ (FindReplacement p ck hs w h st).2 !! mkKey ck hs
             = Some (Build_ReplacedTextureRef None "")
             ∧ trace (FindReplacement p ck hs w h st).2
               = trace st ++ [EvLookupHashFile (effective_cachekey p ck) hs]))
    as (Hret & (ref & Hfast & Hneg) & Hfirst).
  { destruct (cache_ st !! mkKey ck hs) as [ref|] eqn:Hfast.
    - rewrite (FindReplacement_hit _ _ _ _ _ _ ref) by done. simpl.
      specialize (Hcons _ _ Hfast). rewrite Hres in Hcons.
      split_and!; [done|by eauto|done].
    - pose proof (FindReplacement_miss p ck hs w h st _ _ _ Hen Hrep Hfast Hres)
        as (_ & _ & Hr & Hc & _ & _ & Htr).
      rewrite Hr, Hc, Htr, lookup_insert_eq. split_and!; [done|by eauto|done]. }
  split_and!; [done|by eauto|done|].
  exists st2. split; [done|].
  destruct (run_extends _ _ _ _ Hrun) as (Hc & _).
  apply Hc in Hfast.
  by rewrite (FindReplacement_hit _ _ _ _ _ _ ref), Hneg.
Qed.
End LookupTheorems.

(** ** Saving decoded textures *)

Section SaveTheorems.
Context `{Externals}.
Implicit Types (p : Policy) (st : State) (c : Call) (cs : list Call).
Implicit Types (info : ReplacedTextureDecodeInfo).

Lemma save_key_eq p info1 info2 :
  info_cachekey info1 = info_cachekey info2 →
  info_hash info1 = info_hash info2 →
  save_key p info1 = save_key p info2.
Proof. unfold save_key. by intros -> ->. Qed.

(** With a record for its key in the saved-cache, a call queues nothing
    and records nothing, at any level. *)
Lemma NotifyTextureDecoded_recorded p info data pitch level oW oH sW sH now st st' :
  is_Some (savedCache_ st !! save_key p info) →
  NotifyTextureDecoded p info data pitch level oW oH sW sH now st = Some st' →
  taskQueue st' = taskQueue st ∧ savedCache_ st' = savedCache_ st.
Proof.
  intros [d Hd] Hst'.
  destruct (NotifyTextureDecoded_cases _ _ _ _ _ _ _ _ _ _ _ _ Hst')
    as [(? & ? & _)|(_ & Hnone & _)]; [done|congruence].
Qed.

(** A call that queues a task leaves a record for its key. *)
Lemma NotifyTextureDecoded_queued p info data pitch level oW oH sW sH now st st' :
  NotifyTextureDecoded p info data pitch level oW oH sW sH now st = Some st' →
  taskQueue st' ≠ taskQueue st →
  save_gates p info level ∧ savedCache_ st !! save_key p info = None ∧
  ∃ task d,
    taskQueue st' = taskQueue st ++ [task] ∧
    savedCache_ st' !! save_key p info = Some d ∧
    trace st' = trace st ++
      [EvLookupHashFile (effective_cachekey p (info_cachekey info)) (info_hash info);
       EvEnqueueTask task; EvSavedCacheWrite (save_key p info) level].
Proof.
  intros Hst' Hqueued.
  destruct (NotifyTextureDecoded_cases _ _ _ _ _ _ _ _ _ _ _ _ Hst')
    as [(? & _)|(Hgates & Hnone & task & d & Hq & Hs & Htr)]; [done|].
  split_and!; [done..|]. exists task, d. by rewrite Hs, lookup_insert_eq.
Qed.

(** A call that passes the gates and finds no record queues a task. *)
Lemma NotifyTextureDecoded_first p info data pitch level oW oH sW sH now st :
  save_gates p info level →
  savedCache_ st !! save_key p info = None →
  ∃ st' task d,
    NotifyTextureDecoded p info data pitch level oW oH sW sH now st = Some st' ∧
    taskQueue st' = taskQueue st ++ [task] ∧
    savedCache_ st' !! save_key p info = Some d.
Proof.
  intros Hgates Hnone.
  assert (is_Some (NotifyTextureDecoded p info data pitch level oW oH sW sH now st))
    as [st' Hst'].
  { destruct Hgates as (Hwill & Hmip & s & Hlook).
    unfold NotifyTextureDecoded. rewrite Hwill.
    unfold WillSave in Hwill. destruct (enabled_ p); [simpl|done].
    rewrite Hmip, Hlook. simpl. unfold save_key in Hnone. rewrite Hnone.
    destruct (LookupHashRange p (info_addr info) oW oH) as [[? ?] ?]. eauto. }
  exists st'.
  destruct (NotifyTextureDecoded_cases _ _ _ _ _ _ _ _ _ _ _ _ Hst')
    as [(_ & _ & Hrec)|(_ & _ & task & d & Hq & Hs & _)].
  - destruct (Hrec Hgates) as [d Hd]. congruence.
  - exists task, d. by rewrite Hs, lookup_insert_eq.
Qed.

(** C6, amended: of two calls of [NotifyTextureDecoded] for the same
    (cachekey, hash, level) in a session, at most one queues a save task;
    when the first passes the gates and finds no record it queues exactly
    one, and the second finds the record and queues none. *)
Theorem NotifyTextureDecoded_saves_once p info1 info2 data1 data2 pitch1 pitch2
    level oW1 oH1 sW1 sH1 oW2 oH2 sW2 sH2 now1 now2 st cs :
  enabled_ p = true →
  info_cachekey info1 = info_cachekey info2 →
  info_hash info1 = info_hash info2 →
  ∃ st1 st2 st3,
    NotifyTextureDecoded p info1 data1 pitch1 level oW1 oH1 sW1 sH1 now1 st = Some st1
    ∧ run p cs st1 = Some st2
    ∧ NotifyTextureDecoded p info2 data2 pitch2 level oW2 oH2 sW2 sH2 now2 st2 = Some st3
    ∧ (taskQueue st1 = taskQueue st ∨ taskQueue st3 = taskQueue st2)
    ∧ (save_gates p info1 level → savedCache_ st !! save_key p info1 = None →
       (∃ task, taskQueue st1 = taskQueue st ++ [task])
       ∧ is_Some (savedCache_ st2 !! save_key p info2)
       ∧ taskQueue st3 = taskQueue st2).
Proof.
  intros Hen Hck Hhs.
  destruct (NotifyTextureDecoded_total p info1 data1 pitch1 level oW1 oH1 sW1 sH1
              now1 st Hen) as [st1 Hst1].
  destruct (run_total p cs st1 Hen) as [st2 Hrun].
  destruct (NotifyTextureDecoded_total p info2 data2 pitch2 level oW2 oH2 sW2 sH2
              now2 st2 Hen) as [st3 Hst3].
  exists st1, st2, st3. split_and!; [done..| |].
  all: pose proof (save_key_eq p _ _ Hck Hhs) as Hkey.
  all: destruct (run_extends _ _ _ _ Hrun) as (_ & _ & Hsaved).
  all: assert (is_Some (savedCache_ st1 !! save_key p info1) →
               is_Some (savedCache_ st2 !! save_key p info2)
               ∧ taskQueue st3 = taskQueue st2) as Hdrop
         by (intros [d Hd]; apply Hsaved in Hd; rewrite Hkey in Hd;
             split; [by eexists|];
             by eapply NotifyTextureDecoded_recorded with (2 := Hst3)).
  - destruct (NotifyTextureDecoded_cases _ _ _ _ _ _ _ _ _ _ _ _ Hst1)
      as [(? & _)|(_ & _ & task & d & _ & Hs & _)]; [by left|right].
    apply Hdrop. rewrite Hs, lookup_insert_eq. by eexists.
  - intros Hgates Hnone.
    destruct (NotifyTextureDecoded_first p info1 data1 pitch1 level oW1 oH1 sW1 sH1
                now1 st Hgates Hnone) as (st1' & task & d & Hst1' & Hq & Hd).
    simplify_eq. split; [by eexists|]. by apply Hdrop.
Qed.

(** C7, amended: a call of [NotifyTextureDecoded] that queues a save task
    writes the record for (cachekey, hash) in the same call, right after
    queueing the task; the record is there when the call returns, so every
    later decode of the same (cachekey, hash) queues nothing, while the task
    is still in the queue. *)
Theorem NotifyTextureDecoded_record_follows_enqueue p info data pitch level
    oW oH sW sH now st st1 :
  NotifyTextureDecoded p info data pitch level oW oH sW sH now st = Some st1 →
  taskQueue st1 ≠ taskQueue st →
  ∃ task,
    taskQueue st1 = taskQueue st ++ [task]
    ∧ trace st1 = trace st ++
        [EvLookupHashFile (effective_cachekey p (info_cachekey info)) (info_hash info);
         EvEnqueueTask task; EvSavedCacheWrite (save_key p info) level]
    ∧ savedCache_ st !! save_key p info = None
    ∧ is_Some (savedCache_ st1 !! save_key p info)
    ∧ ∀ cs info2 data2 pitch2 level2 oW2 oH2 sW2 sH2 now2,
        save_key p info2 = save_key p info →
        ∃ st2 st3,
          run p cs st1 = Some st2
          ∧ NotifyTextureDecoded p info2 data2 pitch2 level2 oW2 oH2 sW2 sH2 now2 st2
            = Some st3
          ∧ taskQueue st3 = taskQueue st2 ∧ task ∈ taskQueue st3.
Proof.
  intros Hst1 Hqueued.
  destruct (NotifyTextureDecoded_queued _ _ _ _ _ _ _ _ _ _ _ _ Hst1 Hqueued)
    as ((Hwill & _) & Hnone & task & d & Hq & Hd & Htr).
  assert (enabled_ p = true) as Hen.
  { unfold WillSave in Hwill. by destruct (enabled_ p). }
  exists task. split_and!; [done..|by eexists|].
  intros cs info2 data2 pitch2 level2 oW2 oH2 sW2 sH2 now2 Hkey.
  destruct (run_total p cs st1 Hen) as [st2 Hrun].
  destruct (NotifyTextureDecoded_total p info2 data2 pitch2 level2 oW2 oH2 sW2 sH2
              now2 st2 Hen) as [st3 Hst3].
  exists st2, st3. split_and!; [done..| |];
    destruct (run_extends _ _ _ _ Hrun) as (_ & _ & Hsaved).
  all: assert (taskQueue st3 = taskQueue st2) as Hsame
         by (eapply NotifyTextureDecoded_recorded with (2 := Hst3);
             rewrite Hkey; apply Hsaved in Hd; by eexists).
  - done.
  - rewrite Hsame.
    eapply elem_of_prefix; [|by eapply run_taskQueue_prefix].
    rewrite Hq. apply elem_of_app. right. by apply list_elem_of_singleton.
Qed.

(** C10: the record that drops repeated saves is found by (cachekey, hash)
    alone.  Once a call has recorded a save at some level, every later call
    for the same (cachekey, hash), at whatever level, queues no task and
    leaves the saved-cache as it is. *)
Theorem NotifyTextureDecoded_dedup_ignores_level p info1 info2 data1 data2
    pitch1 pitch2 level1 level2 oW1 oH1 sW1 sH1 oW2 oH2 sW2 sH2 now1 now2
    st st1 cs :
  info_cachekey info1 = info_cachekey info2 →
  info_hash info1 = info_hash info2 →
  NotifyTextureDecoded p info1 data1 pitch1 level1 oW1 oH1 sW1 sH1 now1 st = Some st1 →
  savedCache_ st !! save_key p info1 = None →
  is_Some (savedCache_ st1 !! save_key p info1) →
  ∃ st2 st3,
    run p cs st1 = Some st2
    ∧ NotifyTextureDecoded p info2 data2 pitch2 level2 oW2 oH2 sW2 sH2 now2 st2 = Some st3
    ∧ taskQueue st3 = taskQueue st2 ∧ savedCache_ st3 = savedCache_ st2.
Proof.
  intros Hck Hhs Hst1 _ [d Hd].
  assert (enabled_ p = true) as Hen.
  { unfold NotifyTextureDecoded in Hst1. by destruct (enabled_ p). }
  destruct (run_total p cs st1 Hen) as [st2 Hrun].
  destruct (NotifyTextureDecoded_total p info2 data2 pitch2 level2 oW2 oH2 sW2 sH2
              now2 st2 Hen) as [st3 Hst3].
  exists st2, st3. split_and!; [done..| |];
    destruct (run_extends _ _ _ _ Hrun) as (_ & _ & Hsaved);
    apply Hsaved in Hd; rewrite (save_key_eq p _ _ Hck Hhs) in Hd;
    eapply NotifyTextureDecoded_recorded with (2 := Hst3); by eexists.
Qed.
End SaveTheorems.

(** ** Decimate *)

Section DecimateFacts.
Context `{Externals}.
Implicit Types (st : State) (texs : gmap handle ReplacedTexture).
Implicit Types (items : list (string * handle)).

Lemma to_u64_add_l a b : to_u64 (to_u64 a + b) = to_u64 (a + b).
Proof. unfold to_u64. apply Zplus_mod_idemp_l. Qed.

Lemma Decimate_sweep_events threshold items texs n evs :
  (foldl (Decimate_item threshold) (texs, n, evs) items).2
  = evs ++ sweep_events threshold items.
Proof.
  revert texs n evs. induction items as [|item items IH]; intros texs n evs; simpl.
  - by rewrite app_nil_r.
  - rewrite IH. by rewrite <- app_assoc.
Qed.

Lemma Decimate_sweep_textures threshold items texs n evs t tex' :
  (foldl (Decimate_item threshold) (texs, n, evs) items).1.1 !! t = Some tex' →
  ∃ tex k, texs !! t = Some tex
           ∧ tex' = Nat.iter k (PurgeIfNotUsedSinceTime threshold) tex
           ∧ (k ≠ 0%nat → t ∈ items.*2).
Proof.
  revert texs n evs. induction items as [|item items IH]; intros texs n evs; simpl.
  - intros Ht. exists tex', 0%nat. by split_and!.
  - intros Ht. apply IH in Ht as (tex1 & k & Ht & -> & Hk).
    rewrite lookup_alter in Ht. destruct (decide (item.2 = t)) as [Heq|Hne].
    + subst t. destruct (texs !! item.2) as [tex|] eqn:Htex; simplify_eq/=.
      exists tex, (S k). rewrite Nat.iter_succ_r. split_and!; [done..|].
      intros _. apply list_elem_of_here.
    + exists tex1, k. split_and!; [done..|].
      intros Hk'. apply list_elem_of_further. auto.
Qed.

(** Over distinct textures the sweep purges each once and adds up the
    sizes they report afterwards. *)
Lemma Decimate_sweep_total threshold items texs n evs :
  NoDup items.*2 →
  let r := foldl (Decimate_item threshold) (texs, n, evs) items in
  to_u64 r.1.2 = to_u64 (n + sum_sizes r.1.1 items)
  ∧ ∀ t, t ∉ items.*2 → r.1.1 !! t = texs !! t.
Proof.
  revert texs n evs. induction items as [|item items IH]; intros texs n evs Hnodup; simpl.
  - split; [|done]. f_equal. lia.
  - apply NoDup_cons in Hnodup as [Hitem Hnodup].
    destruct (IH (alter (PurgeIfNotUsedSinceTime threshold) item.2 texs)
                 (to_u64 (n + from_option GetTotalDataSize 0
                    (alter (PurgeIfNotUsedSinceTime threshold) item.2 texs !! item.2)))
                 (evs ++ [EvLock item.2; EvPurge item.2 threshold; EvUnlock item.2])
                 Hnodup) as [Htotal Hother].
    split.
    + rewrite Htotal, to_u64_add_l, (Hother _ Hitem). f_equal. lia.
    + intros t Ht. apply not_elem_of_cons in Ht as [Hne Ht].
      rewrite Hother by done. by rewrite lookup_alter_ne.
Qed.
End DecimateFacts.

(** ** Comparisons of floating-point values *)

Section FloatFacts.
Implicit Types (x y : spec_float).

Lemma compare_cont_antisym (m1 m2 : positive) :
  Pos.compare_cont Eq m2 m1 = CompOpp (Pos.compare_cont Eq m1 m2).
Proof. apply (Pos.compare_antisym m1 m2). Qed.

Lemma SFcompare_antisym x y :
  SFcompare y x = CompOpp <$> SFcompare x y.
Proof.
  destruct x as [sx|sx| |sx mx ex], y as [sy|sy| |sy my ey]; simpl;
    try done; try (by destruct sx); try (by destruct sy);
    try (by destruct sx, sy).
  destruct sx, sy; simpl; try done.
  - rewrite (Z.compare_antisym ex ey).
    destruct (ex ?= ey); simpl; try done.
    by rewrite (compare_cont_antisym mx my), CompOpp_involutive.
  - rewrite (Z.compare_antisym ex ey).
    destruct (ex ?= ey); simpl; try done.
    by rewrite (compare_cont_antisym mx my).
Qed.

Lemma SFcompare_nan_free x y :
  Double.is_nan x = false → Double.is_nan y = false → is_Some (SFcompare x y).
Proof. destruct x, y; simpl; try done; eauto. Qed.

(** [y < x] is the negation of [x <= y] unless one of them is a NaN. *)
Lemma ltb_negb_leb x y :
  Double.is_nan x = false → Double.is_nan y = false →
  Double.ltb y x = negb (Double.leb x y).
Proof.
  intros Hx Hy. unfold Double.ltb, Double.leb, SFltb, SFleb.
  rewrite (SFcompare_antisym x y).
  destruct (SFcompare_nan_free x y Hx Hy) as [c ->]. by destruct c.
Qed.

(** Values that compare equal to a finite number are that number. *)
Lemma SFcompare_Eq_finite x s m e :
  SFcompare x (S754_finite s m e) = Some Eq → x = S754_finite s m e.
Proof.
  destruct x as [sx|sx| |sx mx ex]; simpl; try (by destruct s);
    try (by destruct sx).
  destruct sx, s; simpl; try done;
    destruct (ex ?= e) eqn:He; try done; apply Z.compare_eq in He as ->.
  - intros Hm. f_equal. apply Pos.compare_eq.
    destruct (Pos.compare_cont Eq mx m) eqn:Hcmp; simplify_eq/=. done.
  - intros Hm. f_equal. apply Pos.compare_eq. by simplify_eq.
Qed.

Lemma std_min_spec_min x s m e :
  Double.is_nan x = false →
  Double.std_min (S754_finite s m e) x = spec_min x (S754_finite s m e).
Proof.
  intros Hx. unfold Double.std_min, spec_min, Double.ltb, Double.leb, SFltb, SFleb.
  destruct (SFcompare x (S754_finite s m e)) as [[]|] eqn:Hcmp; try done.
  symmetry. by apply SFcompare_Eq_finite.
Qed.

(** Rounding a non-negative mantissa never gives a NaN. *)
Lemma shr_1_nonneg mrs : 0 ≤ shr_m mrs → 0 ≤ shr_m (shr_1 mrs).
Proof. destruct mrs as [[|[]|[]] r s]; simpl; lia. Qed.

Lemma iter_shr_1_nonneg n mrs : 0 ≤ shr_m mrs → 0 ≤ shr_m (SpecFloat.iter_pos shr_1 n mrs).
Proof.
  revert mrs. induction n as [n IH|n IH|]; intros mrs Hm; simpl.
  - apply IH, IH. by apply shr_1_nonneg.
  - by apply IH, IH.
  - by apply shr_1_nonneg.
Qed.

Lemma shr_fexp_nonneg prec emax m e l :
  0 ≤ m → 0 ≤ shr_m (shr_fexp prec emax m e l).1.
Proof.
  intros Hm. unfold shr_fexp, shr.
  assert (0 ≤ shr_m (shr_record_of_loc m l)) as Hrec.
  { by destruct l as [|[]]. }
  destruct (_ - e); simpl; [done| |done]. by apply iter_shr_1_nonneg.
Qed.

Lemma binary_round_aux_not_nan prec emax s m e l :
  0 ≤ m → Double.is_nan (binary_round_aux prec emax s m e l) = false.
Proof.
  intros Hm. unfold binary_round_aux.
  pose proof (shr_fexp_nonneg prec emax m e l Hm) as H1.
  destruct (shr_fexp prec emax m e l) as [mrs' e']. simpl in H1.
  assert (0 ≤ round_nearest_even (shr_m mrs') (loc_of_shr_record mrs')) as Hr.
  { unfold round_nearest_even. destruct (loc_of_shr_record mrs') as [|[]];
      try destruct (Z.even _); lia. }
  pose proof (shr_fexp_nonneg prec emax _ e' loc_Exact Hr) as H2.
  destruct (shr_fexp prec emax _ e' loc_Exact) as [mrs'' e'']. simpl in H2.
  destruct (shr_m mrs''); [done| |lia]. by destruct (_ <=? _).
Qed.

Lemma of_Z_not_nan n : Double.is_nan (Double.of_Z n) = false.
Proof.
  unfold Double.of_Z, binary_normalize, binary_round.
  destruct n; [done|..];
    destruct (shl_align _ _ _); by apply binary_round_aux_not_nan.
Qed.

Lemma GiB_value : GiB = S754_finite false 4503599627370496 (-22).
Proof. by vm_compute. Qed.

(** A size in bytes over 2^30 is never a NaN. *)
Lemma size_in_GiB_not_nan n :
  Double.is_nan (Double.div (Double.of_Z n) GiB) = false.
Proof.
  rewrite GiB_value. pose proof (of_Z_not_nan n) as Hn.
  destruct (Double.of_Z n) as [s|s| |s m e]; try done.
  unfold Double.div, SFdiv.
  destruct (SFdiv_core_binary _ _ _ _ _ _) as [[q e'] l] eqn:Hcore.
  apply binary_round_aux_not_nan.
  unfold SFdiv_core_binary in Hcore.
  destruct (Z.div_eucl _ _) as [q' r] eqn:Hdiv. simplify_eq.
  match type of Hdiv with Z.div_eucl ?a ?b = _ =>
    assert (0 ≤ a) as Ha; [|pose proof (Z_div_mod a b); rewrite Hdiv in *]
  end.
  { destruct (_ - _ - _); [lia| |lia]. apply Z.shiftl_nonneg. lia. }
  nia.
Qed.
End FloatFacts.

Section DecimateTheorems.
Context `{Externals}.
Implicit Types (p : Policy) (st : State).

Lemma Decimate_age_spec mode size :
  Double.is_nan size = false → Decimate_age mode size = spec_age mode size.
Proof.
  intros Hsize. destruct mode; [|done..]. unfold Decimate_age, spec_age.
  rewrite (ltb_negb_leb size (Double.of_Z 1)) by done.
  destruct (Double.leb size (Double.of_Z 1)); [done|].
  unfold MAX_CACHE_SIZE. cbv [negb].
  change (Double.of_Z 4) with (S754_finite false 4503599627370496 (-50)).
  by rewrite std_min_spec_min.
Qed.

Lemma Decimate_unfold mode now st :
  let threshold := Double.sub now (Decimate_age mode (lastTextureCacheSizeGB_ st)) in
  let r := Decimate_sweep threshold (map_to_list (levelCache_ st)) (textures st) in
  textures (Decimate mode now st) = r.1.1
  ∧ lastTextureCacheSizeGB_ (Decimate mode now st)
    = Double.div (Double.of_Z r.1.2) GiB
  ∧ trace (Decimate mode now st) = trace st ++ r.2.
Proof. unfold Decimate. by destruct (Decimate_sweep _ _ _) as [[texs total] evs]. Qed.

Lemma level_handles_NoDup st :
  one_handle_per_identity st → NoDup (map_to_list (levelCache_ st)).*2.
Proof.
  intros [Hinj _]. apply NoDup_fmap_2_strong; [|apply NoDup_map_to_list].
  intros [hf1 t1] [hf2 t2] H1%elem_of_map_to_list H2%elem_of_map_to_list.
  simpl. intros <-. f_equal. eauto.
Qed.

(** C5: [Decimate] takes its age from the mode and the last measured
    size: 0 for ALL, 90 for FORCE_PRESSURE and, for a normal sweep, 1800
    up to 1 GiB and 90 + (1 - min(size, 4)/4) * 1710 above; every texture
    is purged with the threshold [now - age]; the sweep stores the sizes
    the textures of the level cache report afterwards, added up and in
    GiB, and the next call computes its age from that value. *)
Theorem Decimate_age_and_measure p mode now st :
  reachable p st →
  Double.is_nan (lastTextureCacheSizeGB_ st) = false →
  let st' := Decimate mode now st in
  Decimate_age mode (lastTextureCacheSizeGB_ st)
  = spec_age mode (lastTextureCacheSizeGB_ st)
  ∧ trace st'
    = trace st ++ sweep_events
        (Double.sub now (spec_age mode (lastTextureCacheSizeGB_ st)))
        (map_to_list (levelCache_ st))
  ∧ lastTextureCacheSizeGB_ st' = Double.div (Double.of_Z (resident_size st')) GiB
  ∧ ∀ mode', Decimate_age mode' (lastTextureCacheSizeGB_ st')
             = spec_age mode' (Double.div (Double.of_Z (resident_size st')) GiB).
Proof.
  intros Hreach Hnan.
  destruct (reachable_tier_invariants p st Hreach) as [_ Hone].
  pose proof (Decimate_age_spec mode _ Hnan) as Hage.
  destruct (Decimate_unfold mode now st) as (Htex & Hsize & Htrace).
  destruct (Decimate_frame mode now st) as (_ & Hlevel & _).
  assert (lastTextureCacheSizeGB_ (Decimate mode now st)
          = Double.div (Double.of_Z (resident_size (Decimate mode now st))) GiB)
    as Hmeasure.
  { rewrite Hsize. unfold resident_size. rewrite Hlevel, Htex.
    destruct (Decimate_sweep_total
      (Double.sub now (Decimate_age mode (lastTextureCacheSizeGB_ st)))
      (map_to_list (levelCache_ st)) (textures st) 0 []
      (level_handles_NoDup st Hone)) as [Htotal _].
    rewrite Z.add_0_l in Htotal. unfold Decimate_sweep. rewrite <- Htotal.
    assert (∀ items texs n evs, 0 ≤ n < 2 ^ 64 →
      0 ≤ (foldl (Decimate_item
             (Double.sub now (Decimate_age mode (lastTextureCacheSizeGB_ st))))
             (texs, n, evs) items).1.2 < 2 ^ 64) as Hrange.
    { induction items as [|item items IH]; intros texs n evs Hn; [done|].
      simpl. apply IH. unfold to_u64. apply Z.mod_pos_bound. lia. }
    unfold to_u64. rewrite Z.mod_small; [done|]. apply Hrange. lia. }
  simpl. split_and!; [done| |done|].
  - rewrite Htrace. unfold Decimate_sweep.
    by rewrite Decimate_sweep_events, Hage.
  - intros mode'. rewrite <- Hmeasure. apply Decimate_age_spec.
    rewrite Hmeasure. apply size_in_GiB_not_nan.
Qed.

(** C9: whatever the mode, [Decimate] leaves the fast tier and the level
    cache as they are, frees no texture, and changes a texture only by
    purging it, each purge between taking and releasing the texture's own
    lock. *)
Theorem Decimate_keeps_tiers mode now st :
  let st' := Decimate mode now st in
  let threshold := Double.sub now (Decimate_age mode (lastTextureCacheSizeGB_ st)) in
  cache_ st' = cache_ st
  ∧ levelCache_ st' = levelCache_ st
  ∧ dom (textures st') = dom (textures st)
  ∧ (∀ t tex', textures st' !! t = Some tex' →
       ∃ tex k, textures st !! t = Some tex
                ∧ tex' = Nat.iter k (PurgeIfNotUsedSinceTime threshold) tex)
  ∧ trace st' = trace st ++ sweep_events threshold (map_to_list (levelCache_ st)).
Proof.
  destruct (Decimate_frame mode now st) as (Hcache & Hlevel & _ & _ & Hdom).
  destruct (Decimate_unfold mode now st) as (Htex & _ & Htrace).
  simpl. split_and!; [done..| |].
  - intros t tex'. rewrite Htex. unfold Decimate_sweep.
    intros (tex & k & ? & ? & _)%Decimate_sweep_textures. eauto.
  - rewrite Htrace. unfold Decimate_sweep. by rewrite Decimate_sweep_events.
Qed.
End DecimateTheorems.

(** ** The row fold of the strided hash *)

Section RowFold.
Lemma to_u32_is_u32 x : is_u32 (to_u32 x).
Proof. unfold is_u32, to_u32. apply Z.mod_pos_bound. lia. Qed.

Lemma lxor_is_u32 a b : is_u32 a → is_u32 b → is_u32 (Z.lxor a b).
Proof.
  intros [Ha Ha'] [Hb Hb']. split; [by apply Z.lxor_nonneg|].
  destruct (decide (Z.lxor a b = 0)) as [->|Hne]; [lia|].
  apply Z.log2_lt_cancel.
  eapply Z.le_lt_trans; [by apply Z.log2_lxor|].
  rewrite Z.log2_pow2 by lia.
  apply Z.max_lub_lt.
  - destruct (decide (a = 0)) as [->|?]; [done|]. apply Z.log2_lt_pow2; lia.
  - destruct (decide (b = 0)) as [->|?]; [done|]. apply Z.log2_lt_pow2; lia.
Qed.

(** 11 is invertible modulo 2^32. *)
Lemma mul_11_inj a b : is_u32 a → is_u32 b → to_u32 (a * 11) = to_u32 (b * 11) → a = b.
Proof.
  unfold is_u32, to_u32. intros Ha Hb Heq.
  assert ((a * 11 * 3123612579) mod 2 ^ 32 = (b * 11 * 3123612579) mod 2 ^ 32) as Hinv.
  { rewrite <- (Z.mul_mod_idemp_l (a * 11)), <- (Z.mul_mod_idemp_l (b * 11)) by lia.
    by rewrite Heq. }
  replace (a * 11 * 3123612579) with (a + 8 * a * 2 ^ 32) in Hinv by lia.
  replace (b * 11 * 3123612579) with (b + 8 * b * 2 ^ 32) in Hinv by lia.
  rewrite !Z.mod_add, !Z.mod_small in Hinv by lia. done.
Qed.

Lemma lxor_cancel_r a b c : Z.lxor a c = Z.lxor b c → a = b.
Proof.
  intros Heq. apply (f_equal (λ x, Z.lxor x c)) in Heq.
  by rewrite !Z.lxor_assoc, !Z.lxor_nilpotent, !Z.lxor_0_r in Heq.
Qed.

Lemma fold_rows_app hs1 hs2 r :
  fold_rows (hs1 ++ hs2) r = fold_rows hs2 (fold_rows hs1 r).
Proof. unfold fold_rows. apply foldl_app. Qed.

Lemma fold_rows_is_u32 hs r : is_u32 r → Forall is_u32 hs → is_u32 (fold_rows hs r).
Proof.
  revert r. induction hs as [|x hs IH]; intros r Hr Hhs; [done|].
  apply Forall_cons in Hhs as [Hx Hhs]. simpl. apply IH; [|done].
  apply lxor_is_u32; [apply to_u32_is_u32|done].
Qed.

(** Later rows never cancel a difference in the running value. *)
Lemma fold_rows_inj hs r1 r2 :
  is_u32 r1 → is_u32 r2 → Forall is_u32 hs →
  fold_rows hs r1 = fold_rows hs r2 → r1 = r2.
Proof.
  revert r1 r2. induction hs as [|x hs IH]; intros r1 r2 Hr1 Hr2 Hhs; [done|].
  apply Forall_cons in Hhs as [Hx Hhs]. simpl. intros Heq.
  apply IH in Heq; [|by apply lxor_is_u32; [apply to_u32_is_u32|]..|done].
  apply lxor_cancel_r in Heq. by apply mul_11_inj.
Qed.

Lemma hash_rows_fold rowHash mem bytesPerLine stride n checkp result :
  hash_rows rowHash mem bytesPerLine stride n checkp result
  = fold_rows (strided_row_hashes rowHash mem bytesPerLine stride n checkp) result.
Proof.
  unfold strided_row_hashes.
  revert checkp result. induction n as [|n IH]; intros checkp result; [done|].
  simpl. rewrite IH. rewrite Z.mul_0_l, Z.add_0_r. f_equal.
  rewrite <- fmap_S_seq, <- list_fmap_compose.
  apply list_fmap_ext. intros i y _. simpl. do 3 f_equal. lia.
Qed.
End RowFold.

Section ComputeHashTheorem.
Context `{Externals}.

(** The strided hash reads the memory only through the hashed bytes of the
    rows. *)
Lemma ComputeHash_strided_ext p mem mem' addr bufw w h fmt maxSeenV st w' h' :
  ComputeHash_size p addr w h maxSeenV = (w', h') →
  w' < bufw →
  (∀ y, 0 ≤ y < h' →
     read mem' (addr + y * ComputeHash_stride fmt bufw)
       (ComputeHash_bytesPerLine fmt w'
          (if reduceHash_ p then LookupReduceHashRange p w' h' else reduceHashSize st))
     = read mem (addr + y * ComputeHash_stride fmt bufw)
         (ComputeHash_bytesPerLine fmt w'
            (if reduceHash_ p then LookupReduceHashRange p w' h' else reduceHashSize st))) →
  (ComputeHash p mem' addr bufw w h fmt maxSeenV st).1
  = (ComputeHash p mem addr bufw w h fmt maxSeenV st).1.
Proof.
  intros Hsize Hstrided Hrows. unfold ComputeHash. rewrite Hsize.
  assert ((bufw <=? w') = false) as -> by lia.
  cbv beta iota zeta. unfold fst.
  rewrite !hash_rows_fold. f_equal. unfold strided_row_hashes.
  apply list_fmap_ext. intros i y Hy%lookup_seq. simpl in Hy.
  assert (reduceHashSize
            (if reduceHash_ p then set_reduceHashSize (LookupReduceHashRange p w' h') st
             else st)
          = if reduceHash_ p then LookupReduceHashRange p w' h' else reduceHashSize st)
    as -> by (by destruct (reduceHash_ p)).
  rewrite Hrows; [done|lia].
Qed.
(** C8, amended: on the strided path [ComputeHash] folds the hashes of
    the rows in row order as result = (result * 11) xor rowHash.  The fold
    depends on the order of the rows, but a swap need not change it:
    swapping two row hashes changes the result exactly when it changes the
    running value after the later of the two rows; for the first two rows,
    exactly when (11 * a) xor b and (11 * b) xor a differ. *)
Theorem ComputeHash_strided_fold p mem addr bufw w h fmt maxSeenV st
    (pre mid post : list Z) (a b : Z) :
  (ComputeHash_size p addr w h maxSeenV).1 < bufw →
  Forall is_u32 (pre ++ a :: mid ++ b :: post) →
  let '(w', h') := ComputeHash_size p addr w h maxSeenV in
  let st' := (ComputeHash p mem addr bufw w h fmt maxSeenV st).2 in
  (ComputeHash p mem addr bufw w h fmt maxSeenV st).1
  = fold_rows
      (strided_row_hashes (ComputeHash_rowHash p) mem
         (ComputeHash_bytesPerLine fmt w' (reduceHashSize st'))
         (ComputeHash_stride fmt bufw) (Z.to_nat h') addr) 0
  ∧ (fold_rows (pre ++ a :: mid ++ b :: post) 0
     = fold_rows (pre ++ b :: mid ++ a :: post) 0
     ↔ fold_rows (pre ++ a :: mid ++ [b]) 0 = fold_rows (pre ++ b :: mid ++ [a]) 0)
  ∧ (fold_rows (a :: b :: post) 0 = fold_rows (b :: a :: post) 0
     ↔ Z.lxor (to_u32 (a * 11)) b = Z.lxor (to_u32 (b * 11)) a).
Proof.
  intros Hstrided Hu32. unfold ComputeHash.
  destruct (ComputeHash_size p addr w h maxSeenV) as [w' h']. simpl in Hstrided.
  assert ((bufw <=? w') = false) as -> by lia.
  split; [simpl; apply hash_rows_fold|].
  apply Forall_app in Hu32 as [Hpre Hrest].
  apply Forall_cons in Hrest as [Ha Hrest].
  apply Forall_app in Hrest as [Hmid Hrest].
  apply Forall_cons in Hrest as [Hb Hpost].
  assert (is_u32 0) as H0 by (unfold is_u32; lia).
  split.
  - replace (pre ++ a :: mid ++ b :: post) with ((pre ++ a :: mid ++ [b]) ++ post)
      by (by rewrite <- !app_assoc; simpl; rewrite <- app_assoc).
    replace (pre ++ b :: mid ++ a :: post) with ((pre ++ b :: mid ++ [a]) ++ post)
      by (by rewrite <- !app_assoc; simpl; rewrite <- app_assoc).
    rewrite !fold_rows_app. split; [|by intros ->].
    apply fold_rows_inj; [| |done].
    + apply fold_rows_is_u32. 
      * by apply fold_rows_is_u32.
      * apply Forall_cons; split; [done|]. apply Forall_app; split; [done|].
        by apply Forall_singleton.
    + apply fold_rows_is_u32. 
      * by apply fold_rows_is_u32.
      * apply Forall_cons; split; [done|]. apply Forall_app; split; [done|].
        by apply Forall_singleton.
  - change (a :: b :: post) with ([a; b] ++ post).
    change (b :: a :: post) with ([b; a] ++ post).
    rewrite !fold_rows_app. simpl.
    change (to_u32 (0 * 11)) with 0. rewrite !Z.lxor_0_l.
    split; [|by intros ->].
    apply fold_rows_inj; [| |done];
      (apply lxor_is_u32; [apply to_u32_is_u32|done]).
Qed.
End ComputeHashTheorem.

(** * Part II, continued: names, sessions and the configuration *)

(** ** Generated file names *)

Section Names.
Implicit Types (s t : string) (c : Ascii.ascii).

Lemma length_string_app s t :
  String.length (s +:+ t) = (String.length s + String.length t)%nat.
Proof. induction s as [|a s IH]; simpl; [done|]. by rewrite IH. Qed.

Lemma string_app_inj_length s1 s2 t1 t2 :
  String.length s1 = String.length s2 →
  s1 +:+ t1 = s2 +:+ t2 → s1 = s2 ∧ t1 = t2.
Proof.
  revert s2. induction s1 as [|a s1 IH]; intros [|b s2]; simpl; try done.
  intros [= Hlen] [= -> Happ]. destruct (IH _ Hlen Happ) as [-> ->]. done.
Qed.

Lemma string_app_empty_r s : s +:+ "" = s.
Proof.
  induction s as [|a s IH]; [done|].
  change (String a (s +:+ "") = String a s). by rewrite IH.
Qed.

Lemma length_hex_fixed digits n : String.length (hex_fixed digits n) = digits.
Proof.
  revert n. induction digits as [|digits IH]; intros n; simpl; [done|].
  rewrite length_string_app, IH. simpl. lia.
Qed.

Lemma hex_digit_inj a b :
  0 ≤ a < 16 → 0 ≤ b < 16 → hex_digit a = hex_digit b → a = b.
Proof.
  intros Ha Hb.
  assert (a = 0 ∨ a = 1 ∨ a = 2 ∨ a = 3 ∨ a = 4 ∨ a = 5 ∨ a = 6 ∨ a = 7 ∨
          a = 8 ∨ a = 9 ∨ a = 10 ∨ a = 11 ∨ a = 12 ∨ a = 13 ∨ a = 14 ∨ a = 15)
    as Hcases by lia.
  assert (b = 0 ∨ b = 1 ∨ b = 2 ∨ b = 3 ∨ b = 4 ∨ b = 5 ∨ b = 6 ∨ b = 7 ∨
          b = 8 ∨ b = 9 ∨ b = 10 ∨ b = 11 ∨ b = 12 ∨ b = 13 ∨ b = 14 ∨ b = 15)
    as Hcases' by lia.
  clear Ha Hb.
  repeat (destruct Hcases as [->|Hcases]); try subst a;
    repeat (destruct Hcases' as [->|Hcases']); try subst b; simpl; congruence.
Qed.

Lemma hex_fixed_inj digits a b :
  hex_fixed digits a = hex_fixed digits b →
  a mod 16 ^ Z.of_nat digits = b mod 16 ^ Z.of_nat digits.
Proof.
  revert a b. induction digits as [|digits IH]; intros a b; simpl hex_fixed.
  { intros _. by rewrite !Z.mod_1_r. }
  intros Happ.
  apply string_app_inj_length in Happ as [Hhigh [= Hlow]];
    [|by rewrite !length_hex_fixed].
  apply IH in Hhigh.
  apply hex_digit_inj in Hlow; [|by apply Z.mod_pos_bound..].
  rewrite Nat2Z.inj_succ, Z.pow_succ_r by lia.
  rewrite !(Z.rem_mul_r _ 16) by lia. congruence.
Qed.

Lemma find_last_of_app c s t :
  find_last_of c (s +:+ t) = None ↔ find_last_of c s = None ∧ find_last_of c t = None.
Proof.
  induction s as [|a s IH].
  - change ("" +:+ t) with t. simpl. split; [done|by intros [_ ?]].
  - change (String a s +:+ t) with (String a (s +:+ t)). simpl.
    destruct (find_last_of c (s +:+ t)) as [i|].
    + split; [done|]. intros [Hs Ht].
      destruct (find_last_of c s); [done|].
      destruct IH as [_ IH]. discriminate (IH (conj eq_refl Ht)).
    + destruct IH as [IH _]. destruct (IH eq_refl) as [-> ->].
      destruct (decide (a = c)); (split; [|intros [? _]]; done).
Qed.

Lemma hex_digit_no_slash d : hex_digit d ≠ "/"%char.
Proof. unfold hex_digit. repeat case_match; done. Qed.

Lemma hex_fixed_no_slash digits n : find_last_of "/" (hex_fixed digits n) = None.
Proof.
  revert n. induction digits as [|digits IH]; intros n; simpl hex_fixed; [done|].
  apply find_last_of_app. split; [apply IH|]. simpl.
  destruct (decide _) as [Heq|]; [|done]. by destruct (hex_digit_no_slash (n mod 16)).
Qed.

Lemma pretty_N_char_no_slash x : pretty_N_char x ≠ "/"%char.
Proof. unfold pretty_N_char. repeat case_match; done. Qed.

Lemma pretty_N_go_no_slash x s :
  find_last_of "/" s = None → find_last_of "/" (pretty_N_go x s) = None.
Proof.
  revert s. induction (N.lt_wf_0 x) as [x _ IH]; intros s Hs.
  destruct (decide (x = 0)%N) as [->|Hx]; [by rewrite pretty_N_go_0|].
  rewrite pretty_N_go_step by lia. apply IH.
  - apply N.div_lt; lia.
  - simpl. rewrite Hs. destruct (decide _) as [Heq|]; [|done].
    by destruct (pretty_N_char_no_slash (x `mod` 10)%N).
Qed.

Lemma pretty_Z_no_slash (level : Z) : find_last_of "/" (pretty level) = None.
Proof.
  destruct level as [|x|x]; [done|..].
  - unfold pretty, pretty_Z, pretty, pretty_positive, pretty, pretty_N.
    destruct (decide _); [done|]. by apply pretty_N_go_no_slash.
  - unfold pretty, pretty_Z. apply find_last_of_app. split; [done|].
    unfold pretty, pretty_positive, pretty, pretty_N.
    destruct (decide _); [done|]. by apply pretty_N_go_no_slash.
Qed.

Lemma HashName_no_slash cachekey hash level :
  find_last_of "/" (HashName cachekey hash level +:+ ".png") = None.
Proof.
  pose proof (hex_fixed_no_slash 16 cachekey) as Hck.
  pose proof (hex_fixed_no_slash 8 hash) as Hhs.
  pose proof (pretty_Z_no_slash level) as Hlevel.
  unfold HashName. generalize dependent (hex_fixed 16 cachekey).
  generalize dependent (hex_fixed 8 hash). intros s8 Hs8 s16 Hs16.
  destruct (0 <? level).
  - apply find_last_of_app. split; [|done].
    apply find_last_of_app. split; [done|].
    apply find_last_of_app. split; [done|].
    apply (find_last_of_app _ "_"). done.
  - apply find_last_of_app. split; [|done].
    apply find_last_of_app. done.
Qed.

Lemma mod_small_u64 x : is_u64 x → x mod 16 ^ Z.of_nat 16 = x.
Proof. intros Hx. apply Z.mod_small. exact Hx. Qed.

Lemma mod_small_u32 x : is_u32 x → x mod 16 ^ Z.of_nat 8 = x.
Proof. intros Hx. apply Z.mod_small. exact Hx. Qed.

(** X1: the generated names tell the textures apart: [HashName] gives the
    same name only for the same cachekey, hash and level, for a 64-bit
    cachekey, a 32-bit hash and a level from 0. *)
Theorem HashName_inj cachekey1 hash1 level1 cachekey2 hash2 level2 :
  is_u64 cachekey1 → is_u32 hash1 → 0 ≤ level1 →
  is_u64 cachekey2 → is_u32 hash2 → 0 ≤ level2 →
  HashName cachekey1 hash1 level1 = HashName cachekey2 hash2 level2 →
  cachekey1 = cachekey2 ∧ hash1 = hash2 ∧ level1 = level2.
Proof.
  intros Hck1 Hhs1 Hl1 Hck2 Hhs2 Hl2. unfold HashName.
  assert (∀ rest1 rest2,
    hex_fixed 16 cachekey1 +:+ hex_fixed 8 hash1 +:+ rest1
    = hex_fixed 16 cachekey2 +:+ hex_fixed 8 hash2 +:+ rest2 →
    cachekey1 = cachekey2 ∧ hash1 = hash2 ∧ rest1 = rest2) as Hsplit.
  { intros rest1 rest2 Heq.
    apply string_app_inj_length in Heq as [Hck Heq]; [|by rewrite !length_hex_fixed].
    apply string_app_inj_length in Heq as [Hhs Heq]; [|by rewrite !length_hex_fixed].
    apply hex_fixed_inj in Hck, Hhs.
    rewrite !mod_small_u64 in Hck by done. rewrite !mod_small_u32 in Hhs by done.
    done. }
  destruct (0 <? level1) eqn:Hlev1, (0 <? level2) eqn:Hlev2; intros Heq.
  - apply Hsplit in Heq as (-> & -> & [= Hlev]).
    apply pretty_Z_inj in Hlev. by subst.
  - rewrite <- (string_app_empty_r (hex_fixed 8 hash2)) in Heq.
    apply Hsplit in Heq as (_ & _ & ?). done.
  - rewrite <- (string_app_empty_r (hex_fixed 8 hash1)) in Heq.
    apply Hsplit in Heq as (_ & _ & ?). done.
  - rewrite <- (string_app_empty_r (hex_fixed 8 hash1)) in Heq.
    rewrite <- (string_app_empty_r (hex_fixed 8 hash2)) in Heq.
    apply Hsplit in Heq as (-> & -> & _). split_and!; [done..|]. lia.
Qed.
End Names.

Section SaveTasks.
Context `{Externals}.
Implicit Types (p : Policy) (st : State) (c : Call) (cs : list Call).
Implicit Types (info : ReplacedTextureDecodeInfo) (task : SaveTextureTask).

(** The task a call queues, field by field. *)
Lemma NotifyTextureDecoded_task p info data pitch level oW oH sW sH now st st' task :
  NotifyTextureDecoded p info data pitch level oW oH sW sH now st = Some st' →
  taskQueue st' = taskQueue st ++ [task] →
  ∃ found lookupW lookupH,
    LookupHashRange p (info_addr info) oW oH = (found, lookupW, lookupH) ∧
    let w := if found then lookupW * Z.quot sW oW else sW in
    let h := if found then lookupH * Z.quot sH oH else sH in
    let hashfile :=
      HashName (effective_cachekey p (info_cachekey info)) (info_hash info) level
      +:+ ".png" in
    task_rgbaData task = mjoin ((λ y, read data (y * pitch) (w * 4)) <$> seqZ 0 h) ∧
    task_w task = w ∧ task_h task = h ∧ task_pitch task = w * 4 ∧
    task_filename task = Path_join (basePath_ p) hashfile ∧
    task_saveFilename task = Path_join (newTextureDir_ p) hashfile ∧
    task_createSaveDirectory task = false ∧ task_saveDirectory task = "" ∧
    task_replacedInfoHash task = info_hash info ∧ task_skipIfExists task = false.
Proof.
  intros Hst' Hq.
  assert (taskQueue st ≠ taskQueue st ++ [task]) as Hne.
  { intros Heq. apply (f_equal length) in Heq. rewrite length_app in Heq.
    simpl in Heq. lia. }
  unfold NotifyTextureDecoded in Hst'.
  destruct (enabled_ p); [simpl in Hst'|done].
  destruct (WillSave p info) as [[]|]; [| |done]; [|by simplify_eq].
  destruct (ignoreMipmap_ p && (0 <? level)); [by simplify_eq|].
  destruct (LookupHashFile p _ (info_hash info)) as [[s foundAlias] ignored].
  destruct (foundAlias || ignored); [by simplify_eq|].
  destruct (savedCache_ _ !! _); simpl in Hst'; [by simplify_eq|].
  destruct (LookupHashRange p (info_addr info) oW oH) as [[found lookupW] lookupH].
  simplify_eq. simpl in Hq. apply app_inv_head in Hq as [= <-].
  exists found, lookupW, lookupH. split; [done|]. simpl.
  rewrite HashName_no_slash. done.
Qed.

(** X2: every task in the queue of a session writes one file of generated
    name: no directory is to be created, an existing save is not skipped,
    the rows are packed, and the two paths end in the same generated name. *)
Theorem taskQueue_generated_names p st :
  reachable p st →
  Forall (λ task,
    task_createSaveDirectory task = false ∧ task_saveDirectory task = "" ∧
    task_skipIfExists task = false ∧ task_pitch task = task_w task * 4 ∧
    ∃ cachekey level,
      let hashfile := HashName cachekey (task_replacedInfoHash task) level +:+ ".png" in
      task_filename task = Path_join (basePath_ p) hashfile ∧
      task_saveFilename task = Path_join (newTextureDir_ p) hashfile ∧
      find_last_of "/" hashfile = None) (taskQueue st).
Proof.
  apply (reachable_ind p (λ st, Forall _ (taskQueue st))); [by constructor|].
  intros c st0 st1 IH Hstep.
  destruct c as [mem addr bufw w h fmt maxSeenV|ck hs w h
                |info data pitch level oW oH sW sH now|mode now];
    simpl in Hstep.
  - simplify_eq.
    by destruct (ComputeHash_frame p mem addr bufw w h fmt maxSeenV st0)
      as (_ & _ & _ & _ & -> & _).
  - simplify_eq. by destruct (FindReplacement_saved p ck hs w h st0) as [_ ->].
  - destruct (NotifyTextureDecoded_cases _ _ _ _ _ _ _ _ _ _ _ _ Hstep)
      as [(-> & _)|(_ & _ & task & d & Hq & _)]; [done|].
    rewrite Hq. apply Forall_app. split; [done|]. constructor; [|done].
    destruct (NotifyTextureDecoded_task _ _ _ _ _ _ _ _ _ _ _ _ _ Hstep Hq)
      as (found & lookupW & lookupH & _ & _ & Hw & _ & Hp & Hf & Hs & Hc & Hd & Hh & Hk).
    rewrite <- Hw in Hp. split_and!; [done..|].
    exists (effective_cachekey p (info_cachekey info)), level.
    rewrite Hh. split_and!; [done..|]. apply HashName_no_slash.
  - simplify_eq. by destruct (Decimate_frame mode now st0) as (_ & _ & _ & -> & _).
Qed.

Lemma length_read data a n : length (read data a n) = Z.to_nat n.
Proof. unfold read. by rewrite length_fmap, length_seqZ. Qed.

Lemma lookup_read data a n i :
  0 ≤ i < n → read data a n !! Z.to_nat i = Some (data (a + i)).
Proof.
  intros Hi. unfold read. rewrite list_lookup_fmap.
  rewrite (lookup_seqZ_lt 0 n (Z.to_nat i)) by lia. simpl. do 2 f_equal. lia.
Qed.

(** X3: the buffer of a queued task holds the rows of the image one after
    the other: [w * 4] bytes a row, byte [x] of row [y] taken from offset
    [y * pitch + x] of the decoded data; without a hash range the image
    has the scaled size. *)
Theorem NotifyTextureDecoded_compacts_pitch p info data pitch level oW oH sW sH
    now st st' task :
  NotifyTextureDecoded p info data pitch level oW oH sW sH now st = Some st' →
  taskQueue st' = taskQueue st ++ [task] →
  0 ≤ task_w task → 0 ≤ task_h task →
  length (task_rgbaData task) = Z.to_nat (task_w task * task_h task * 4)
  ∧ (∀ x y, 0 ≤ y < task_h task → 0 ≤ x < task_w task * 4 →
       task_rgbaData task !! Z.to_nat (y * (task_w task * 4) + x)
       = Some (data (y * pitch + x)))
  ∧ ((LookupHashRange p (info_addr info) oW oH).1.1 = false →
     task_w task = sW ∧ task_h task = sH).
Proof.
  intros Hst' Hq.
  destruct (NotifyTextureDecoded_task _ _ _ _ _ _ _ _ _ _ _ _ _ Hst' Hq)
    as (found & lookupW & lookupH & Hrange & Hbuf & Hw & Hh & _).
  rewrite Hrange. simpl.
  assert (found = false → task_w task = sW ∧ task_h task = sH) as Hplain.
  { by intros ->. }
  generalize dependent (if found then lookupW * Z.quot sW oW else sW).
  generalize dependent (if found then lookupH * Z.quot sH oH else sH).
  intros h Hh w Hbuf Hw. rewrite Hbuf. rewrite Hw, Hh in *.
  clear Hbuf Hw Hh. intros Hw Hh.
  assert (Forall (λ row, length row = Z.to_nat (w * 4))
            ((λ y, read data (y * pitch) (w * 4)) <$> seqZ 0 h)) as Hrows.
  { apply Forall_fmap, Forall_forall. intros y _. apply length_read. }
  split_and!.
  - rewrite length_join, (sum_list_fmap_same (Z.to_nat (w * 4))) by done.
    rewrite length_fmap, length_seqZ, <- Z2Nat.inj_mul by lia. f_equal. lia.
  - intros x y Hy Hx.
    replace (Z.to_nat (y * (w * 4) + x))
      with (Z.to_nat y * Z.to_nat (w * 4) + Z.to_nat x)%nat
      by (rewrite <- Z2Nat.inj_mul, <- Z2Nat.inj_add by lia; f_equal; lia).
    apply (join_lookup_Some_same_length' _ _ _ _ _ Hrows); [lia|].
    exists (read data (y * pitch) (w * 4)). split.
    + rewrite list_lookup_fmap, (lookup_seqZ_lt 0 h (Z.to_nat y)) by lia.
      simpl. rewrite Z2Nat.id by lia. done.
    + by apply lookup_read.
  - done.
Qed.
End SaveTasks.

Section Sessions.
Context `{Externals}.
Implicit Types (p : Policy) (st : State) (c : Call) (cs : list Call).
Implicit Types (info : ReplacedTextureDecodeInfo) (task : SaveTextureTask).

(** An invariant of every step holds along a run. *)
Lemma run_ind p (P : State → Prop) :
  (∀ c st st', P st → step p c st = Some st' → P st') →
  ∀ cs st st', P st → run p cs st = Some st' → P st'.
Proof.
  intros Hstep cs. induction cs as [|c cs IH]; intros st st' HP; simpl.
  - by intros [= <-].
  - destruct (step p c st) as [st1|] eqn:Hst1; [|done]. eauto.
Qed.

(** X5: with saving switched off no call of a session queues a save task or
    writes a record, whatever is decoded. *)
Theorem run_saving_off p cs st st' :
  bSaveNewTextures p = false →
  run p cs st = Some st' →
  taskQueue st' = taskQueue st ∧ savedCache_ st' = savedCache_ st.
Proof.
  intros Hoff.
  apply (run_ind p (λ st', taskQueue st' = taskQueue st ∧ savedCache_ st' = savedCache_ st));
    [|done].
  intros c st0 st1 [IHq IHs] Hstep. rewrite <- IHq, <- IHs. clear IHq IHs.
  destruct c as [mem addr bufw w h fmt maxSeenV|ck hs w h
                |info data pitch level oW oH sW sH now|mode now];
    simpl in Hstep.
  - simplify_eq.
    by destruct (ComputeHash_frame p mem addr bufw w h fmt maxSeenV st0)
      as (_ & _ & -> & _ & -> & _).
  - simplify_eq. by destruct (FindReplacement_saved p ck hs w h st0) as [-> ->].
  - unfold NotifyTextureDecoded, WillSave in Hstep. rewrite Hoff in Hstep.
    destruct (enabled_ p); simpl in Hstep; by simplify_eq.
  - simplify_eq. by destruct (Decimate_frame mode now st0) as (_ & _ & -> & -> & _).
Qed.

(** X6: with replacing switched off every lookup returns nothing, and no
    call of a session adds a cache entry or builds a texture. *)
Theorem run_replacing_off p cs st st' cachekey hash w h :
  bReplaceTextures p = false →
  run p cs st = Some st' →
  FindReplacement p cachekey hash w h st' = (None, st')
  ∧ cache_ st' = cache_ st ∧ levelCache_ st' = levelCache_ st
  ∧ dom (textures st') = dom (textures st).
Proof.
  intros Hoff Hrun. split.
  { apply FindReplacement_disabled. rewrite Hoff. apply andb_false_r. }
  revert Hrun.
  apply (run_ind p (λ st', cache_ st' = cache_ st ∧ levelCache_ st' = levelCache_ st
                           ∧ dom (textures st') = dom (textures st))); [|done].
  intros c st0 st1 (IHc & IHl & IHt) Hstep. rewrite <- IHc, <- IHl, <- IHt.
  clear IHc IHl IHt.
  destruct c as [mem addr bufw w0 h0 fmt maxSeenV|ck hs w0 h0
                |info data pitch level oW oH sW sH now|mode now];
    simpl in Hstep.
  - simplify_eq.
    by destruct (ComputeHash_frame p mem addr bufw w0 h0 fmt maxSeenV st0)
      as (-> & -> & _ & -> & _).
  - simplify_eq. rewrite FindReplacement_disabled; [done|].
    rewrite Hoff. apply andb_false_r.
  - by destruct (NotifyTextureDecoded_frame _ _ _ _ _ _ _ _ _ _ _ _ Hstep)
      as (-> & -> & -> & _).
  - simplify_eq. by destruct (Decimate_frame mode now st0) as (-> & -> & _ & _ & ->).
Qed.

(** In a consistent state the handle of a fast-tier entry is a live texture
    of the level cache. *)
Lemma cached_handle_live p st key ref t :
  cache_consistent p st → one_handle_per_identity st →
  cache_ st !! key = Some ref → texture ref = Some t →
  t ∈ dom (textures st).
Proof.
  intros Hcons [_ Hdom] Hkey Htex. specialize (Hcons key ref Hkey).
  destruct (resolve p key) as [[hashfiles foundAlias] []]; [congruence|].
  destruct Hcons as (t' & Htex' & Hlevel). apply Hdom. exists hashfiles. congruence.
Qed.

(** X7: a handle [FindReplacement] has returned stays a live texture of the
    store for the rest of the session: no call deletes a texture, Decimate
    included. *)
Theorem FindReplacement_handle_stays_live p st cachekey hash w h t cs :
  reachable p st →
  (FindReplacement p cachekey hash w h st).1 = Some t →
  ∃ st2, run p cs (FindReplacement p cachekey hash w h st).2 = Some st2
         ∧ is_Some (textures st2 !! t).
Proof.
  intros Hreach Hret.
  destruct (FindReplacement_Some_cached _ _ _ _ _ _ _ Hret)
    as (Hen & Hrep & ref & Hfast & Htex).
  destruct (run_total p cs (FindReplacement p cachekey hash w h st).2 Hen)
    as [st2 Hrun].
  exists st2. split; [done|].
  assert (reachable p st2) as Hreach2.
  { eapply reachable_run; [|done].
    by apply (reachable_step p (CallFindReplacement cachekey hash w h) st). }
  destruct (reachable_tier_invariants p st2 Hreach2) as [Hcons Hone].
  destruct (run_extends _ _ _ _ Hrun) as (Hc & _). apply Hc in Hfast.
  apply elem_of_dom. by eapply cached_handle_live.
Qed.

(** In a consistent state an ignored key gets nothing. *)
Lemma FindReplacement_ignored_None p ck hs w h st hashfiles foundAlias :
  cache_consistent p st →
  Enabled p = true → bReplaceTextures p = true →
  resolve p (mkKey ck hs) = (hashfiles, foundAlias, true) →
  (FindReplacement p ck hs w h st).1 = None.
Proof.
  intros Hcons Hen Hrep Hres.
  destruct (cache_ st !! mkKey ck hs) as [ref|] eqn:Hfast.
  - rewrite (FindReplacement_hit _ _ _ _ _ _ ref) by done. simpl.
    specialize (Hcons _ _ Hfast). by rewrite Hres in Hcons.
  - by pose proof (FindReplacement_miss p ck hs w h st _ _ _ Hen Hrep Hfast Hres)
      as (_ & _ & Hr & _).
Qed.

Lemma effective_cachekey_low p ck1 ck2 :
  ignoreAddress_ p = true →
  Z.land ck1 0xFFFFFFFF = Z.land ck2 0xFFFFFFFF →
  effective_cachekey p ck1 = effective_cachekey p ck2.
Proof. unfold effective_cachekey. by intros -> ->. Qed.

(** X8: with [ignoreAddress] set, address keys that agree on the low 32
    bits of the cachekey and on the hash get the same answer from
    [FindReplacement], whatever is called in between: the bits above are
    dropped before the key is resolved. *)
Theorem FindReplacement_ignoreAddress p st ck1 ck2 hash w1 h1 w2 h2 cs :
  reachable p st →
  Enabled p = true → bReplaceTextures p = true →
  ignoreAddress_ p = true →
  Z.land ck1 0xFFFFFFFF = Z.land ck2 0xFFFFFFFF →
  ∃ st2, run p cs (FindReplacement p ck1 hash w1 h1 st).2 = Some st2
         ∧ (FindReplacement p ck2 hash w2 h2 st2).1
           = (FindReplacement p ck1 hash w1 h1 st).1.
Proof.
  intros Hreach Hen Hrep Hia Hlow.
  destruct (reachable_tier_invariants p st Hreach) as [Hcons _].
  destruct (run_total p cs (FindReplacement p ck1 hash w1 h1 st).2 Hen) as [st2 Hrun].
  exists st2. split; [done|].
  assert (reachable p st2) as Hreach2.
  { eapply reachable_run; [|done].
    by apply (reachable_step p (CallFindReplacement ck1 hash w1 h1) st). }
  destruct (reachable_tier_invariants p st2 Hreach2) as [Hcons2 _].
  assert (resolve p (mkKey ck2 hash) = resolve p (mkKey ck1 hash)) as Hsame.
  { unfold resolve. simpl. by rewrite (effective_cachekey_low p ck1 ck2). }
  destruct (resolve p (mkKey ck1 hash)) as [[hashfiles foundAlias] ignored] eqn:Hres.
  destruct ignored.
  - rewrite (FindReplacement_ignored_None p ck1 hash w1 h1 st _ _ Hcons Hen Hrep Hres).
    by apply (FindReplacement_ignored_None p ck2 hash w2 h2 st2 _ _ Hcons2 Hen Hrep Hsame).
  - destruct (FindReplacement_level_handle p ck1 hash w1 h1 st _ _ Hcons Hen Hrep Hres)
      as (t & Hret1 & Hlevel1).
    destruct (FindReplacement_level_handle p ck2 hash w2 h2 st2 _ _ Hcons2 Hen Hrep Hsame)
      as (t' & Hret2 & Hlevel2).
    rewrite Hret1, Hret2. f_equal.
    destruct (run_extends _ _ _ _ Hrun) as (_ & Hl & _). apply Hl in Hlevel1.
    pose proof (FindReplacement_levelCache_mono p ck2 hash w2 h2 st2 _ _ Hlevel1).
    congruence.
Qed.
End Sessions.

(** X10: [FindFiltering] probes the six keys of the wildcard lookup in their
    order and then the global key (0, 0), and gives the filter of the first
    entry found; it finds nothing while textures are not replaced. *)
Theorem FindFiltering_probe_order p cachekey hash :
  is_u64 cachekey →
  FindFiltering p cachekey hash
  = if Enabled p && bReplaceTextures p then
      snd <$> first_hit (filtering_ p)
                (probe_order cachekey hash (ignoreAddress_ p) ++ [mkKey 0 0])
    else None.
Proof.
  intros Hck. unfold FindFiltering, LookupWildcard, probe_order.
  rewrite <- (land_upper_mask_u64 cachekey Hck).
  destruct (Enabled p), (bReplaceTextures p); simpl; try done.
  destruct (ignoreAddress_ p); simpl;
    repeat (match goal with
            | |- context [filtering_ p !! ?k] =>
              destruct (filtering_ p !! k); simpl; try done
            end).
Qed.

Section Hashing.
Context `{Externals}.
Implicit Types (p : Policy) (st : State).

Lemma LookupHashRange_miss p addr w h :
  (LookupHashRange p addr w h).1.1 = false →
  LookupHashRange p addr w h = (false, w, h).
Proof. unfold LookupHashRange. by destruct (hashranges_ p !! _). Qed.

(** X11: for a texture 512 rows high without hash range, a [maxSeenV]
    between 1 and 511 makes [ComputeHash] hash the texture of [maxSeenV]
    rows: the result and the state are those of the call for that height. *)
Theorem ComputeHash_maxSeenV p mem addr bufw w fmt maxSeenV v st :
  0 < maxSeenV < 512 →
  (LookupHashRange p addr w 512).1.1 = false →
  (LookupHashRange p addr w maxSeenV).1.1 = false →
  ComputeHash p mem addr bufw w 512 fmt maxSeenV st
  = ComputeHash p mem addr bufw w maxSeenV fmt v st.
Proof.
  intros Hv H512 Hseen. unfold ComputeHash, ComputeHash_size.
  rewrite (LookupHashRange_miss _ _ _ _ H512), (LookupHashRange_miss _ _ _ _ Hseen).
  simpl.
  replace (maxSeenV <? 512) with true by (symmetry; apply Z.ltb_lt; lia).
  replace (maxSeenV =? 0) with false by (symmetry; apply Z.eqb_neq; lia).
  replace (maxSeenV =? 512) with false by (symmetry; apply Z.eqb_neq; lia).
  done.
Qed.

(** Otherwise [maxSeenV] plays no part. *)
Lemma ComputeHash_maxSeenV_unused p mem addr bufw w h fmt maxSeenV v st :
  (LookupHashRange p addr w h).1.1 = true ∨ h ≠ 512 ∨ maxSeenV = 0 ∨ 512 ≤ maxSeenV →
  (LookupHashRange p addr w h).1.1 = true ∨ h ≠ 512 ∨ v = 0 ∨ 512 ≤ v →
  ComputeHash p mem addr bufw w h fmt maxSeenV st
  = ComputeHash p mem addr bufw w h fmt v st.
Proof.
  intros Hm Hv. unfold ComputeHash, ComputeHash_size.
  destruct (LookupHashRange p addr w h) as [[found w'] h'] eqn:Hrange.
  simpl in Hm, Hv.
  assert (found = false → h' = h) as Hh'.
  { intros ->. apply (f_equal (λ r, r.1.1)) in Hrange as Hf. simpl in Hf.
    apply LookupHashRange_miss in Hf. congruence. }
  assert (∀ m, found = true ∨ h ≠ 512 ∨ m = 0 ∨ 512 ≤ m →
    negb found && (h' =? 512) && (m <? 512) && negb (m =? 0) = false) as Hoff.
  { intros m [->|Hcase]; [done|]. destruct found; [done|]. rewrite Hh' by done.
    simpl. destruct Hcase as [?|[->|?]].
    - replace (h =? 512) with false by (symmetry; apply Z.eqb_neq; lia). done.
    - by rewrite andb_false_r.
    - replace (m <? 512) with false by (symmetry; apply Z.ltb_ge; lia).
      by rewrite andb_false_r. }
  by rewrite !Hoff.
Qed.

(** X12: once the last sweep measured the cap of 4 GiB or more, the
    per-frame sweep is the sweep forced under memory pressure: the age
    falls to 90 seconds. *)
Theorem Decimate_at_cap now st :
  Double.ltb (Double.of_Z 1) (lastTextureCacheSizeGB_ st) = true →
  Double.ltb (lastTextureCacheSizeGB_ st) MAX_CACHE_SIZE = false →
  Decimate_age NEW_FRAME (lastTextureCacheSizeGB_ st) = Double.of_Z 90
  ∧ Decimate NEW_FRAME now st = Decimate FORCE_PRESSURE now st.
Proof.
  intros Hbig Hcap.
  assert (Decimate_age NEW_FRAME (lastTextureCacheSizeGB_ st) = Double.of_Z 90) as Hage.
  { unfold Decimate_age, Double.std_min. rewrite Hbig, Hcap. by vm_compute. }
  split; [done|]. unfold Decimate. by rewrite Hage.
Qed.
End Hashing.

Section Unaliased.
Context `{Externals}.
Implicit Types (p : Policy) (st : State).

(** X9: keys without alias are all looked up in the level cache under the
    empty string, so the first of them looked up builds the texture that
    every other gets: the handle of the second key is the handle of the
    first, and its texture was built from the descriptor of the first key,
    with the file names generated for that key. *)
Theorem FindReplacement_unaliased_first_wins p st ck1 hs1 w1 h1 ck2 hs2 w2 h2 :
  reachable p st →
  Enabled p = true → bReplaceTextures p = true →
  resolve p (mkKey ck1 hs1) = ("", false, false) →
  resolve p (mkKey ck2 hs2) = ("", false, false) →
  levelCache_ st !! "" = None →
  ∃ t st1 st2 desc,
    FindReplacement p ck1 hs1 w1 h1 st = (Some t, st1)
    ∧ FindReplacement p ck2 hs2 w2 h2 st1 = (Some t, st2)
    ∧ textures st2 !! t = Some (ReplacedTexture_new desc)
    ∧ desc_cachekey desc = ck1 ∧ desc_hash desc = hs1
    ∧ desc_w desc = w1 ∧ desc_h desc = h1
    ∧ desc_filenames desc
      = (λ level : nat,
           HashName (effective_cachekey p ck1) hs1 (Z.of_nat level) +:+ ".png")
        <$> seq 0 MAX_REPLACEMENT_MIP_LEVELS.
Proof.
  intros Hreach Hen Hrep Hres1 Hres2 Hlevel.
  destruct (reachable_tier_invariants p st Hreach) as [Hcons _].
  assert (∀ ck hs, resolve p (mkKey ck hs) = ("", false, false) →
                   cache_ st !! mkKey ck hs = None) as Hfast.
  { intros ck hs Hres. destruct (cache_ st !! mkKey ck hs) as [ref|] eqn:Hkey; [|done].
    specialize (Hcons _ _ Hkey). rewrite Hres in Hcons.
    destruct Hcons as (t & _ & Ht). congruence. }
  set (t := fresh (dom (textures st))).
  unfold resolve in Hres1, Hres2. simpl in Hres1, Hres2.
  destruct (FindReplacement p ck1 hs1 w1 h1 st) as [r1 st1] eqn:Hfirst.
  assert (r1 = Some t
          ∧ cache_ st1
            = <[mkKey ck1 hs1 := Build_ReplacedTextureRef (Some t) ""]> (cache_ st)
          ∧ levelCache_ st1 = <["" := t]> (levelCache_ st)
          ∧ ∃ desc, textures st1 !! t = Some (ReplacedTexture_new desc)
                    ∧ desc_cachekey desc = ck1 ∧ desc_hash desc = hs1
                    ∧ desc_w desc = w1 ∧ desc_h desc = h1
                    ∧ desc_filenames desc
                      = (λ level : nat,
                           HashName (effective_cachekey p ck1) hs1 (Z.of_nat level)
                           +:+ ".png") <$> seq 0 MAX_REPLACEMENT_MIP_LEVELS)
    as (-> & Hc1 & Hl1 & desc & Ht1 & Hdesc).
  { unfold FindReplacement in Hfirst.
    rewrite Hen, Hrep, (Hfast ck1 hs1) in Hfirst by done. simpl in Hfirst.
    destruct (LookupHashRange p _ w1 h1) as [[found newW] newH].
    rewrite Hres1 in Hfirst. simpl in Hfirst. rewrite Hlevel in Hfirst.
    fold t in Hfirst. simplify_eq. simpl.
    split_and!; [done|by apply emplace_None, Hfast|by apply emplace_None|].
    eexists. split; [apply lookup_insert_eq|]. done. }
  exists t, st1.
  destruct (decide (mkKey ck2 hs2 = mkKey ck1 hs1)) as [Heq|Hne].
  - rewrite (FindReplacement_hit _ _ _ _ _ _ (Build_ReplacedTextureRef (Some t) ""));
      [|done..|by rewrite Heq, Hc1, lookup_insert_eq].
    by exists st1, desc.
  - unfold FindReplacement. rewrite Hen, Hrep. simpl negb. simpl orb. cbv iota.
    rewrite Hc1, lookup_insert_ne, (Hfast ck2 hs2) by done.
    destruct (LookupHashRange p _ w2 h2) as [[found2 newW2] newH2].
    rewrite Hres2. simpl. rewrite Hl1, lookup_insert_eq.
    by eexists _, desc.
Qed.
End Unaliased.

(** ** Hash ranges *)

Section RangeKeys.

Lemma lor_shiftl_low a n b :
  0 ≤ n → 0 ≤ b < 2 ^ n → Z.lor (Z.shiftl a n) b = a * 2 ^ n + b.
Proof.
  intros Hn Hb. rewrite <- Z.add_nocarry_lor.
  - by rewrite Z.shiftl_mul_pow2.
  - apply Z.bits_inj'. intros i Hi. rewrite Z.land_spec, Z.bits_0.
    destruct (Z_lt_ge_dec i n) as [Hlt|Hge].
    + by rewrite Z.shiftl_spec_low.
    + rewrite <- (Z.mod_small b (2 ^ n)) by done.
      rewrite Z.mod_pow2_bits_high by lia. apply andb_false_r.
Qed.

Lemma rangeKey_sum addr w h :
  is_u32 addr → 0 ≤ w < 2 ^ 16 → 0 ≤ h < 2 ^ 16 →
  rangeKey addr w h = addr * 2 ^ 32 + w * 2 ^ 16 + h.
Proof.
  unfold is_u32, rangeKey, to_u64. intros Haddr Hw Hh.
  rewrite (Z.mod_small addr), (Z.mod_small w), (Z.mod_small h) by lia.
  rewrite !Z.shiftl_mul_pow2 by lia.
  rewrite (Z.mod_small (addr * 2 ^ 32)), (Z.mod_small (w * 2 ^ 16)) by lia.
  rewrite <- (Z.shiftl_mul_pow2 addr 32) by lia.
  rewrite lor_shiftl_low by lia.
  replace (addr * 2 ^ 32 + w * 2 ^ 16) with ((addr * 2 ^ 16 + w) * 2 ^ 16) by lia.
  rewrite <- (Z.shiftl_mul_pow2 _ 16) by lia.
  rewrite lor_shiftl_low by lia. rewrite Z.shiftl_mul_pow2 by lia. lia.
Qed.

Lemma rangeKey_inj addr1 w1 h1 addr2 w2 h2 :
  is_u32 addr1 → 0 ≤ w1 < 2 ^ 16 → 0 ≤ h1 < 2 ^ 16 →
  is_u32 addr2 → 0 ≤ w2 < 2 ^ 16 → 0 ≤ h2 < 2 ^ 16 →
  rangeKey addr1 w1 h1 = rangeKey addr2 w2 h2 →
  addr1 = addr2 ∧ w1 = w2 ∧ h1 = h2.
Proof.
  intros Ha1 Hw1 Hh1 Ha2 Hw2 Hh2. rewrite !rangeKey_sum by done.
  unfold is_u32 in *. lia.
Qed.

Lemma to_i32_small x : 0 ≤ x < 2 ^ 31 → to_i32 x = x.
Proof. intros Hx. unfold to_i32. rewrite Z.mod_small; lia. Qed.
End RangeKeys.

Section HashRanges.
Context `{Externals} `{Parsers}.
Implicit Types (p : Policy) (st : State).

Lemma LookupHashRange_rangeKey p addr w h :
  LookupHashRange p addr w h
  = match hashranges_ p !! rangeKey addr w h with
    | Some wh => (true, wh.1, wh.2)
    | None => (false, w, h)
    end.
Proof. done. Qed.

(** What [ParseHashRange] does with an entry. *)
Lemma ParseHashRange_cases key value p :
  ParseHashRange key value p = p
  ∨ ∃ k0 k1 k2 v0 v1 addr fromW fromH toW toH,
      SplitString key "," = [k0; k1; k2] ∧ SplitString value "," = [v0; v1]
      ∧ TryParse_u32 k0 = Some addr ∧ TryParse_u32 k1 = Some fromW
      ∧ TryParse_u32 k2 = Some fromH
      ∧ TryParse_u32 v0 = Some toW ∧ TryParse_u32 v1 = Some toH
      ∧ toW ≤ fromW ∧ toH ≤ fromH
      ∧ ParseHashRange key value p
        = set_hashranges (insert (rangeKey addr fromW fromH) (to_i32 toW, to_i32 toH)) p.
Proof.
  unfold ParseHashRange.
  destruct (SplitString key ",") as [|k0 [|k1 [|k2 [|]]]]; auto.
  destruct (SplitString value ",") as [|v0 [|v1 [|]]]; auto.
  destruct (TryParse_u32 k0) as [addr|] eqn:?; auto.
  destruct (TryParse_u32 k1) as [fromW|] eqn:?; auto.
  destruct (TryParse_u32 k2) as [fromH|] eqn:?; auto.
  destruct (TryParse_u32 v0) as [toW|] eqn:?; auto.
  destruct (TryParse_u32 v1) as [toH|] eqn:?; auto.
  destruct ((fromW <? toW) || (fromH <? toH)) eqn:Hbig; auto.
  apply orb_false_elim in Hbig as [?%Z.ltb_ge ?%Z.ltb_ge].
  right. by exists k0, k1, k2, v0, v1, addr, fromW, fromH, toW, toH.
Qed.

(** X13: an entry "addr,w,h = newW,newH" of [hashranges] whose range is not
    larger than its source is what [LookupHashRange] finds for (addr, w, h)
    afterwards; a range larger than its source changes nothing. *)
Theorem ParseHashRange_lookup key value p k0 k1 k2 v0 v1 addr fromW fromH toW toH :
  SplitString key "," = [k0; k1; k2] → SplitString value "," = [v0; v1] →
  TryParse_u32 k0 = Some addr → TryParse_u32 k1 = Some fromW →
  TryParse_u32 k2 = Some fromH →
  TryParse_u32 v0 = Some toW → TryParse_u32 v1 = Some toH →
  fromW < 2 ^ 31 → fromH < 2 ^ 31 →
  (toW ≤ fromW ∧ toH ≤ fromH →
   LookupHashRange (ParseHashRange key value p) addr fromW fromH = (true, toW, toH))
  ∧ (fromW < toW ∨ fromH < toH → ParseHashRange key value p = p).
Proof.
  intros Hkey Hvalue Haddr HfromW HfromH HtoW HtoH HintW HintH.
  apply TryParse_u32_range in HtoW as HrangeW, HtoH as HrangeH.
  unfold ParseHashRange.
  rewrite Hkey, Hvalue, Haddr, HfromW, HfromH, HtoW, HtoH. split.
  - intros [HW HH].
    replace ((fromW <? toW) || (fromH <? toH)) with false
      by (symmetry; apply orb_false_intro; apply Z.ltb_ge; lia).
    unfold LookupHashRange. simpl. rewrite lookup_insert_eq. simpl.
    unfold is_u32 in *. rewrite !to_i32_small by lia. done.
  - intros Hbig.
    replace ((fromW <? toW) || (fromH <? toH)) with true; [done|].
    symmetry. apply orb_true_iff. rewrite !Z.ltb_lt. done.
Qed.

(** Filing a range that is not larger than its source, below 65536 x 65536,
    keeps the table free of ranges larger than the texture they are found
    for. *)
Lemma ranges_within_insert p addr fromW fromH toW toH :
  is_u32 addr → 0 ≤ fromW < 2 ^ 16 → 0 ≤ fromH < 2 ^ 16 →
  0 ≤ toW ≤ fromW → 0 ≤ toH ≤ fromH →
  ranges_within p →
  ranges_within (set_hashranges (insert (rangeKey addr fromW fromH) (toW, toH)) p).
Proof.
  intros Haddr HfromW HfromH HtoW HtoH Hp addr' w h newW newH Haddr' Hw Hh.
  rewrite LookupHashRange_rangeKey. simpl.
  destruct (decide (rangeKey addr fromW fromH = rangeKey addr' w h)) as [Heq|Hne].
  - rewrite Heq, lookup_insert_eq. simpl. intros [= <- <-].
    apply rangeKey_inj in Heq as (_ & <- & <-); done.
  - rewrite lookup_insert_ne by done. rewrite <- LookupHashRange_rangeKey.
    by apply Hp.
Qed.

(** X14: [ParseHashRange] keeps the table free of ranges larger than the
    texture they are found for, as long as the sources of the entries
    are below 65536 x 65536, where the keys of the table do not collide. *)
Theorem ParseHashRange_within key value p :
  (∀ k0 k1 k2 fromW fromH,
     SplitString key "," = [k0; k1; k2] →
     TryParse_u32 k1 = Some fromW → TryParse_u32 k2 = Some fromH →
     fromW < 2 ^ 16 ∧ fromH < 2 ^ 16) →
  ranges_within p →
  ranges_within (ParseHashRange key value p).
Proof.
  intros Hsmall Hp.
  destruct (ParseHashRange_cases key value p)
    as [->|(k0 & k1 & k2 & v0 & v1 & addr & fromW & fromH & toW & toH
            & Hkey & _ & Haddr & HfromW & HfromH & HtoW & HtoH & HW & HH & ->)];
    [done|].
  destruct (Hsmall _ _ _ _ _ Hkey HfromW HfromH) as [HsmallW HsmallH].
  apply TryParse_u32_range in Haddr, HfromW, HfromH, HtoW, HtoH.
  unfold is_u32 in *.
  rewrite !to_i32_small by lia.
  apply ranges_within_insert; [unfold is_u32; lia..|done].
Qed.

Lemma ranges_within_empty p : hashranges_ p = ∅ → ranges_within p.
Proof.
  intros Hempty addr w h newW newH _ _ _. rewrite LookupHashRange_rangeKey, Hempty.
  by rewrite lookup_empty.
Qed.

(** X4: when no hash range is larger than its texture, the image a save
    task holds is never larger than the decoded image it is cut from. *)
Theorem NotifyTextureDecoded_within_decoded p info data pitch level oW oH sW sH
    now st st' task :
  ranges_within p →
  is_u32 (info_addr info) → 0 < oW < 2 ^ 16 → 0 < oH < 2 ^ 16 → 0 ≤ sW → 0 ≤ sH →
  NotifyTextureDecoded p info data pitch level oW oH sW sH now st = Some st' →
  taskQueue st' = taskQueue st ++ [task] →
  0 ≤ task_w task ≤ sW ∧ 0 ≤ task_h task ≤ sH.
Proof.
  intros Hp Haddr HoW HoH HsW HsH Hst' Hq.
  destruct (NotifyTextureDecoded_task _ _ _ _ _ _ _ _ _ _ _ _ _ Hst' Hq)
    as (found & lookupW & lookupH & Hrange & _ & -> & -> & _).
  destruct found; [|lia].
  apply Hp in Hrange as [HW HH]; [|done|lia..].
  pose proof (Z.quot_pos sW oW ltac:(lia) ltac:(lia)).
  pose proof (Z.quot_pos sH oH ltac:(lia) ltac:(lia)).
  pose proof (Z.mul_quot_le sW oW ltac:(lia) ltac:(lia)).
  pose proof (Z.mul_quot_le sH oH ltac:(lia) ltac:(lia)).
  nia.
Qed.
End HashRanges.

Section Filtering.
Context `{Externals} `{Parsers}.
Implicit Types (p : Policy) (st : State).

Lemma strcasecmp_filter_named value :
  filter_named value
  = if strcasecmp (c_str value) "nearest" then Some TEX_FILTER_FORCE_NEAREST
    else if strcasecmp (c_str value) "linear" then Some TEX_FILTER_FORCE_LINEAR
    else if strcasecmp (c_str value) "auto" then Some TEX_FILTER_AUTO
    else None.
Proof.
  unfold filter_named, strcasecmp. simpl lowercase at 2 4 6.
  repeat case_bool_decide; repeat case_decide; try done; congruence.
Qed.

Lemma LookupWildcard_exact {V} (map : gmap ReplacementCacheKey V) key ck hs ia v :
  map !! key = Some v → LookupWildcard map key ck hs ia = Some (key, v).
Proof. unfold LookupWildcard. by intros ->. Qed.

(** X15: an entry "key = name" of [filtering] whose name is nearest, linear
    or auto in any case of letters is the filter [FindFiltering] gives for
    the key afterwards; any other name changes nothing. *)
Theorem ParseFiltering_lookup key value p cachekey rest :
  Enabled p = true → bReplaceTextures p = true →
  sscanf_hashname (c_str key) = cachekey :: rest →
  FindFiltering (ParseFiltering key value p) cachekey (default 0 (rest !! 0%nat))
  = match filter_named value with
    | Some filter => Some filter
    | None => FindFiltering p cachekey (default 0 (rest !! 0%nat))
    end.
Proof.
  intros Hen Hrep Hscan. unfold ParseFiltering. rewrite Hscan.
  rewrite strcasecmp_filter_named.
  repeat case_match; try done; unfold FindFiltering;
    change (Enabled (set_filtering ?f p)) with (Enabled p);
    change (bReplaceTextures (set_filtering ?f p)) with (bReplaceTextures p);
    rewrite Hen, Hrep; simpl;
    by erewrite LookupWildcard_exact by apply lookup_insert_eq.
Qed.
End Filtering.

Section ReduceHash.
Context `{Externals} `{Parsers}.
Implicit Types (p : Policy) (st : State).

(** X16: an entry "w,h = value" of [reducehashranges] whose value is not
    zero is the factor [LookupReduceHashRange] gives afterwards for (w, h),
    for w and h below 2^31, which the [int] arguments of the lookup can
    hold; a zero changes nothing. *)
Theorem ParseReduceHashRange_lookup key value p k0 k1 v0 forW forH rhashvalue :
  SplitString key "," = [k0; k1] → SplitString value "," = [v0] →
  TryParse_u32 k0 = Some forW → TryParse_u32 k1 = Some forH →
  TryParse_float v0 = Some rhashvalue →
  forW < 2 ^ 31 → forH < 2 ^ 31 →
  (SFeqb rhashvalue (S754_zero false) = false →
   LookupReduceHashRange (ParseReduceHashRange key value p) forW forH = rhashvalue)
  ∧ (SFeqb rhashvalue (S754_zero false) = true →
     ParseReduceHashRange key value p = p).
Proof.
  intros Hkey Hvalue HforW HforH Hrhv _ _. unfold ParseReduceHashRange.
  rewrite Hkey, Hvalue, HforW, HforH, Hrhv.
  split; intros ->; [|done].
  unfold LookupReduceHashRange. simpl. by rewrite lookup_insert_eq.
Qed.

Lemma ParseReduceHashRange_nonzero key value p :
  reduce_nonzero p → reduce_nonzero (ParseReduceHashRange key value p).
Proof.
  intros [Hglobal Htable]. unfold ParseReduceHashRange.
  repeat case_match; try done. split; [done|]. simpl.
  intros k rhv. destruct (decide (k = Z.lor (to_u64 (Z.shiftl (to_u64 z) 16)) (to_u64 z0)))
    as [->|Hne].
  - rewrite lookup_insert_eq. by intros [= <-].
  - rewrite lookup_insert_ne by done. apply Htable.
Qed.
End ReduceHash.

(** ** Aliases *)

Section Aliases.
Implicit Types (names : list string) (levels : list (Z * string)).

Lemma string_app_assoc' (s t u : string) : (s +:+ t) +:+ u = s +:+ (t +:+ u).
Proof.
  induction s as [|a s IH]; [done|].
  change (String a ((s +:+ t) +:+ u) = String a (s +:+ (t +:+ u))). by rewrite IH.
Qed.

Lemma LoadIniValues_levels_chain names rest (i : nat) alias :
  match rest with [] => True | level :: _ => level.1 ≠ Z.of_nat (i + length names) end →
  LoadIniValues_levels (imap (λ j name, (Z.of_nat (i + j), name)) names ++ rest)
    (Z.of_nat i) alias
  = alias +:+ bars names.
Proof.
  revert i alias. induction names as [|name names IH]; intros i alias Hrest; simpl.
  - rewrite string_app_empty_r. destruct rest as [|level rest]; [done|]. simpl.
    rewrite Nat.add_0_r in Hrest. by apply Z.eqb_neq in Hrest as ->.
  - rewrite Nat.add_0_r, Z.eqb_refl.
    replace (Z.of_nat i + 1) with (Z.of_nat (S i)) by lia.
    rewrite (imap_ext _ (λ j name, (Z.of_nat (S i + j), name)) names)
      by (intros j x _; simpl; do 2 f_equal; lia).
    rewrite IH.
    + by rewrite !string_app_assoc'.
    + destruct rest; [done|]. by replace (S i + length names)%nat
        with (i + S (length names))%nat by lia.
Qed.

(** X17: for a key whose entries name the levels 0, 1, ..., n - 1, the
    alias is the file names in this order, each followed by "|"; entries
    after the first gap in the levels are dropped; and the alias of the one
    empty name is the empty string, the marker of a texture to ignore. *)
Theorem LoadIniValues_alias_chain names rest :
  match rest with [] => True | level :: _ => level.1 ≠ Z.of_nat (length names) end →
  LoadIniValues_alias (mip_chain names ++ rest)
  = if decide (names = [""]) then "" else bars names.
Proof.
  intros Hrest. unfold LoadIniValues_alias, mip_chain.
  pose proof (LoadIniValues_levels_chain names rest 0 "" Hrest) as Hchain.
  simpl in Hchain. change (Z.of_nat 0) with 0 in Hchain.
  rewrite Hchain. clear Hchain. change ("" +:+ bars names) with (bars names).
  destruct (decide (bars names = "|")) as [Hbar|Hbar].
  - destruct names as [|name [|name' names]]; simpl in Hbar; [done| |].
    + destruct name; [done|]. destruct name; done.
    + destruct name as [|a name]; simpl in Hbar.
      * destruct name'; simpl in Hbar; [done|]. destruct name'; done.
      * injection Hbar as -> Hbar. destruct name; done.
  - destruct (decide (names = [""])) as [->|]; [|done].
    exfalso. apply Hbar. reflexivity.
Qed.
End Aliases.

Section Hashes.
Context `{Externals} `{Parsers}.
Implicit Types (p : Policy) (st : State) (hashes : list (string * string)).
Implicit Types (filenameMap : gmap ReplacementCacheKey (list (Z * string))).

(** One turn of the first loop over [hashes]. *)
Lemma LoadIniValues_filenameMap_step (item : string * string) filenameMap :
  match sscanf_hashname_level (c_str item.1) with
  | cachekey :: rest =>
    <[mkKey cachekey (default 0 (rest !! 0%nat)) :=
        std_map_assign (default 0 (rest !! 1%nat)) item.2
          (default [] (filenameMap !! mkKey cachekey (default 0 (rest !! 0%nat))))]>
      filenameMap
  | [] => filenameMap
  end
  = match hashes_key item.1 with
    | Some (key, level) =>
      <[key := std_map_assign level item.2 (default [] (filenameMap !! key))]>
        filenameMap
    | None => filenameMap
    end.
Proof. unfold hashes_key. by destruct (sscanf_hashname_level _). Qed.

Lemma foldl_filenameMap_other hashes filenameMap key :
  Forall (λ item, fst <$> hashes_key item.1 ≠ Some key) hashes →
  foldl (λ filenameMap item,
    match sscanf_hashname_level (c_str item.1) with
    | cachekey :: rest =>
      <[mkKey cachekey (default 0 (rest !! 0%nat)) :=
          std_map_assign (default 0 (rest !! 1%nat)) item.2
            (default [] (filenameMap !! mkKey cachekey (default 0 (rest !! 0%nat))))]>
        filenameMap
    | [] => filenameMap
    end) filenameMap hashes !! key
  = filenameMap !! key.
Proof.
  revert filenameMap. induction hashes as [|item hashes IH]; intros fm Hother;
    [done|].
  apply Forall_cons in Hother as [Hitem Hother]. simpl. rewrite IH by done.
  rewrite LoadIniValues_filenameMap_step.
  destruct (hashes_key item.1) as [[key' level]|]; [|done].
  rewrite lookup_insert_ne; [done|]. intros ->. by destruct Hitem.
Qed.

Lemma LoadIniValues_filenameMap_single before after name value key level :
  hashes_key name = Some (key, level) →
  Forall (λ item, fst <$> hashes_key item.1 ≠ Some key) (before ++ after) →
  LoadIniValues_filenameMap (before ++ (name, value) :: after) !! key
  = Some [(level, value)].
Proof.
  intros Hname [Hbefore Hafter]%Forall_app. unfold LoadIniValues_filenameMap.
  rewrite foldl_app. simpl. rewrite foldl_filenameMap_other by done.
  rewrite (LoadIniValues_filenameMap_step (name, value)). simpl. rewrite Hname.
  rewrite lookup_insert_eq, foldl_filenameMap_other by done.
  by rewrite lookup_empty.
Qed.

Lemma lookup_map_fold_insert {A B} `{Countable K} (g : A → B)
    (m : gmap K A) (b : gmap K B) k :
  map_fold (λ k x b, <[k := g x]> b) b m !! k
  = match m !! k with Some x => Some (g x) | None => b !! k end.
Proof.
  apply (map_fold_weak_ind
    (λ r m, r !! k = match m !! k with Some x => Some (g x) | None => b !! k end)).
  - by rewrite lookup_empty.
  - intros i x m' r Hi IH. destruct (decide (i = k)) as [->|Hne].
    + by rewrite !lookup_insert_eq.
    + by rewrite !lookup_insert_ne.
Qed.

Lemma lookup_LoadIniValues_hashes hashes p key :
  aliases_ (LoadIniValues_hashes hashes p) !! key
  = match LoadIniValues_filenameMap hashes !! key with
    | Some levels => Some (LoadIniValues_alias levels)
    | None => aliases_ p !! key
    end.
Proof. unfold LoadIniValues_hashes. simpl. apply lookup_map_fold_insert. Qed.

Lemma LoadIniValues_alias_single level name :
  LoadIniValues_alias [(level, name)]
  = if decide (level = 0 ∧ name ≠ "") then name +:+ "|" else "".
Proof.
  unfold LoadIniValues_alias. simpl.
  destruct (Z.eqb_spec level 0) as [->|Hlevel].
  - change ("" +:+ name +:+ "|") with (name +:+ "|").
    destruct (decide (name +:+ "|" = "|")) as [Hbar|Hbar].
    + rewrite decide_False; [done|]. intros [_ Hname].
      destruct name as [|a name]; [done|]. injection Hbar as -> Hbar.
      by destruct name.
    + rewrite decide_True; [done|]. split; [done|]. by intros ->.
  - by destruct (decide (level = 0 ∧ name ≠ "")) as [[? _]|].
Qed.

(** X18: when one line of [hashes] is filed under a key, the key resolves to
    its file name followed by "|" afterwards, if the line names level 0
    (or no level) and a file; a line for another level, or without file
    name, makes the texture of the key ignored. *)
Theorem LoadIniValues_hashes_single before after name value key level p :
  hashes_key name = Some (key, level) →
  Forall (λ item, fst <$> hashes_key item.1 ≠ Some key) (before ++ after) →
  LookupHashFile (LoadIniValues_hashes (before ++ (name, value) :: after) p)
    (cachekey key) (hash key)
  = if decide (level = 0 ∧ value ≠ "") then (value +:+ "|", true, false)
    else ("", true, true).
Proof.
  intros Hname Hothers. unfold LookupHashFile.
  erewrite LookupWildcard_exact; last first.
  { destruct key as [ck hs]. cbn [cachekey hash].
    rewrite lookup_LoadIniValues_hashes.
    by rewrite (LoadIniValues_filenameMap_single _ _ _ _ _ _ Hname Hothers). }
  simpl. rewrite LoadIniValues_alias_single.
  destruct (decide (level = 0 ∧ value ≠ "")) as [[_ Hvalue]|]; [|done].
  rewrite bool_decide_eq_false_2; [done|]. by destruct value.
Qed.
End Hashes.

(** ** Loading a configuration *)

Section Loading.
Context `{Externals} `{Parsers}.
Implicit Types (p : Policy) (st : State) (ini : IniFile) (files : Files).

(** The parsers of the sections write their own table only. *)
Lemma ParseHashRange_frame key value p :
  load_inputs (ParseHashRange key value p) = load_inputs p
  ∧ load_options (ParseHashRange key value p) = load_options p
  ∧ aliases_ (ParseHashRange key value p) = aliases_ p
  ∧ filtering_ (ParseHashRange key value p) = filtering_ p
  ∧ reducehashranges_ (ParseHashRange key value p) = reducehashranges_ p.
Proof. unfold ParseHashRange. repeat case_match; done. Qed.

Lemma ParseFiltering_frame key value p :
  load_inputs (ParseFiltering key value p) = load_inputs p
  ∧ load_options (ParseFiltering key value p) = load_options p
  ∧ aliases_ (ParseFiltering key value p) = aliases_ p
  ∧ hashranges_ (ParseFiltering key value p) = hashranges_ p
  ∧ reducehashranges_ (ParseFiltering key value p) = reducehashranges_ p.
Proof. unfold ParseFiltering. repeat case_match; done. Qed.

Lemma ParseReduceHashRange_frame key value p :
  load_inputs (ParseReduceHashRange key value p) = load_inputs p
  ∧ load_options (ParseReduceHashRange key value p) = load_options p
  ∧ aliases_ (ParseReduceHashRange key value p) = aliases_ p
  ∧ hashranges_ (ParseReduceHashRange key value p) = hashranges_ p
  ∧ filtering_ (ParseReduceHashRange key value p) = filtering_ p.
Proof. unfold ParseReduceHashRange. repeat case_match; done. Qed.

(** A property of the policy that every parser of a section keeps is kept
    by the loop over the section. *)
Lemma foldl_parser_ind (P : Policy → Prop) (parse : string → string → Policy → Policy)
    (items : list (string * string)) p :
  (∀ key value p, P p → P (parse key value p)) →
  P p → P (foldl (λ p item, parse item.1 item.2 p) p items).
Proof.
  intros Hparse. revert p. induction items as [|item items IH]; intros p Hp; simpl;
    auto.
Qed.

(** What [LoadIniValues] keeps when every step of it does. *)
Lemma LoadIniValues_ind (P : Policy → Prop) ini isOverride p :
  (∀ hash allowVideo ignoreAddress reduceHash ignoreMipmap,
     (hash = QUICK → reduceHash = false ∧ ignoreAddress = false) →
     P (set_options hash allowVideo ignoreAddress reduceHash ignoreMipmap p)) →
  (∀ hashes p, P p → P (LoadIniValues_hashes hashes p)) →
  (∀ key value p, P p → P (ParseHashRange key value p)) →
  (∀ key value p, P p → P (ParseFiltering key value p)) →
  (∀ key value p, P p → P (ParseReduceHashRange key value p)) →
  P p → P (LoadIniValues ini isOverride p).2.
Proof.
  intros Hoptions Hhashes Hranges Hfiltering Hreduce Hp. unfold LoadIniValues.
  match goal with
  | |- context [match ?chosen with Some _ => _ | None => _ end] =>
    destruct chosen as [hash|]; [|done]
  end.
  simpl.
  destruct (ini_reducehashranges ini); [apply foldl_parser_ind; [done|]|];
    (destruct (ini_filtering ini); [apply foldl_parser_ind; [done|]|]);
    (destruct (ini_hashranges ini); [apply foldl_parser_ind; [done|]|]);
    (destruct (ini_hashes ini); [apply Hhashes|]);
    apply Hoptions; intros ->; by rewrite !andb_true_r; repeat case_match.
Qed.

(** What [LoadIni] establishes: a property of the members after the reset
    that every step of [LoadIniValues] keeps. *)
Lemma LoadIni_ind (P : Policy → Prop) files p :
  (∀ p hash allowVideo ignoreAddress reduceHash ignoreMipmap,
     P p → (hash = QUICK → reduceHash = false ∧ ignoreAddress = false) →
     P (set_options hash allowVideo ignoreAddress reduceHash ignoreMipmap p)) →
  (∀ hashes p, P p → P (LoadIniValues_hashes hashes p)) →
  (∀ key value p, P p → P (ParseHashRange key value p)) →
  (∀ key value p, P p → P (ParseFiltering key value p)) →
  (∀ key value p, P p → P (ParseReduceHashRange key value p)) →
  P (LoadIni_reset p) → P (LoadIni files p).2.
Proof.
  intros Hoptions Hhashes Hranges Hfiltering Hreduce Hreset.
  assert (∀ ini isOverride p, P p → P (LoadIniValues ini isOverride p).2) as Hvalues.
  { intros ini isOverride p0 Hp0. apply LoadIniValues_ind; auto. }
  unfold LoadIni.
  destruct (LoadFromVFS files _ INI_FILENAME) as [ini|]; [|by case_match].
  pose proof (Hvalues ini false _ Hreset) as Hbase.
  destruct (LoadIniValues ini false (LoadIni_reset p)) as [[] p1]; [|done].
  simpl in Hbase.
  destruct (ini_games ini _) as [overrideFilename|]; [|done].
  case_match; [|done].
  destruct (LoadFromVFS files _ overrideFilename) as [overrideIni|]; [|done].
  by apply Hvalues.
Qed.

Lemma LoadIniValues_hashes_frame hashes p :
  load_inputs (LoadIniValues_hashes hashes p) = load_inputs p
  ∧ load_options (LoadIniValues_hashes hashes p) = load_options p
  ∧ hashranges_ (LoadIniValues_hashes hashes p) = hashranges_ p
  ∧ filtering_ (LoadIniValues_hashes hashes p) = filtering_ p
  ∧ reducehashranges_ (LoadIniValues_hashes hashes p) = reducehashranges_ p.
Proof. done. Qed.

Lemma LoadIni_inputs files p : load_inputs (LoadIni files p).2 = load_inputs p.
Proof.
  apply (LoadIni_ind (λ p', load_inputs p' = load_inputs p)); try done.
  - intros key value p0 <-. apply ParseHashRange_frame.
  - intros key value p0 <-. apply ParseFiltering_frame.
  - intros key value p0 <-. apply ParseReduceHashRange_frame.
Qed.

(** X19: whatever the files hold and whether the load succeeds, the
    configuration a load leaves never combines the quick hash with
    [reduceHash] or [ignoreAddress]; under the quick hash the cachekey is
    resolved with its address and [ComputeHash] leaves the replacer as it
    is. *)
Theorem LoadIni_quick files p mem addr bufw w h fmt maxSeenV st cachekey :
  hash_ (LoadIni files p).2 = QUICK →
  reduceHash_ (LoadIni files p).2 = false
  ∧ ignoreAddress_ (LoadIni files p).2 = false
  ∧ effective_cachekey (LoadIni files p).2 cachekey = cachekey
  ∧ (ComputeHash (LoadIni files p).2 mem addr bufw w h fmt maxSeenV st).2 = st.
Proof.
  intros Hquick.
  assert (reduceHash_ (LoadIni files p).2 = false
          ∧ ignoreAddress_ (LoadIni files p).2 = false) as [Hreduce Hignore].
  { revert Hquick.
    apply (LoadIni_ind (λ p', hash_ p' = QUICK →
             reduceHash_ p' = false ∧ ignoreAddress_ p' = false)); try done.
    - intros key value p0.
      destruct (ParseHashRange_frame key value p0) as (_ & [= -> _ -> -> _ _] & _). done.
    - intros key value p0.
      destruct (ParseFiltering_frame key value p0) as (_ & [= -> _ -> -> _ _] & _). done.
    - intros key value p0.
      destruct (ParseReduceHashRange_frame key value p0)
        as (_ & [= -> _ -> -> _ _] & _). done. }
  split_and!; [done..| |].
  - unfold effective_cachekey. by rewrite Hignore.
  - unfold ComputeHash. rewrite Hreduce. by repeat case_match.
Qed.

(** X20: no load leaves a reduce factor of zero: [LookupReduceHashRange]
    gives the global 0.5 or the value of an entry, and [ParseReduceHashRange]
    takes no zero. *)
Theorem LoadIni_reduce_nonzero files p w h :
  SFeqb (LookupReduceHashRange (LoadIni files p).2 w h) (S754_zero false) = false.
Proof.
  assert (reduce_nonzero (LoadIni files p).2) as [Hglobal Htable].
  { apply (LoadIni_ind reduce_nonzero); try done.
    - intros key value p0 Hp0. unfold reduce_nonzero.
      by destruct (ParseHashRange_frame key value p0) as (_ & [= _ _ _ _ _ ->] & _ & _ & ->).
    - intros key value p0 Hp0. unfold reduce_nonzero.
      by destruct (ParseFiltering_frame key value p0) as (_ & [= _ _ _ _ _ ->] & _ & _ & ->).
    - intros. by apply ParseReduceHashRange_nonzero. }
  unfold LookupReduceHashRange.
  destruct (reducehashranges_ _ !! _) as [rhv|] eqn:Hrhv; [|done]. by eapply Htable.
Qed.

(** X21: a load starts from nothing: what it leaves depends on the files and
    on the flags and paths of the replacer, not on the options and tables
    of the configuration before. *)
Theorem LoadIni_forgets files p1 p2 :
  load_inputs p1 = load_inputs p2 →
  LoadIni files p1 = LoadIni files p2.
Proof.
  intros [= Hen Hrep Hsave Hbase Hnew Hformats].
  assert (LoadIni_reset p1 = LoadIni_reset p2) as Hreset.
  { unfold LoadIni_reset. by rewrite Hen, Hrep, Hsave, Hbase, Hnew, Hformats. }
  unfold LoadIni. by rewrite Hreset.
Qed.

(** X22: a texture directory without textures.ini is accepted, a
    textures.zip without one is not; either way the configuration left is
    the default one: quick hash, no alias, filter or hash range for any
    texture, and the reduce factor 0.5. *)
Theorem LoadIni_without_ini files p cachekey hash addr w h :
  LoadFromVFS files
    (if ZipFileReader_Create files (Path_join (basePath_ p) ZIP_FILENAME)
     then Path_join (basePath_ p) ZIP_FILENAME else basePath_ p) INI_FILENAME = None →
  (LoadIni files p).1
  = negb (ZipFileReader_Create files (Path_join (basePath_ p) ZIP_FILENAME))
  ∧ hash_ (LoadIni files p).2 = QUICK
  ∧ LookupHashFile (LoadIni files p).2 cachekey hash = ("", false, false)
  ∧ FindFiltering (LoadIni files p).2 cachekey hash = None
  ∧ LookupHashRange (LoadIni files p).2 addr w h = (false, w, h)
  ∧ LookupReduceHashRange (LoadIni files p).2 w h = S754_finite false 8388608 (-24).
Proof.
  intros Hnone. unfold LoadIni. simpl basePath_. rewrite Hnone.
  assert (∀ b : bool, (if b then (false, LoadIni_reset p) else (true, LoadIni_reset p))
                      = (negb b, LoadIni_reset p)) as -> by (by intros []).
  simpl. split_and!; try done.
  unfold FindFiltering. by destruct (_ || _).
Qed.

(** X23: a configuration change leaves the caches as they are: the tiers,
    the saved-cache and the queue are not touched and no texture is
    deleted.  So a key cached before the change is answered from the fast
    tier after it, with the handle found under the configuration before,
    whatever the files say now. *)
Theorem NotifyConfigChanged_keeps_caches files now p st key ref w h :
  cache_ st !! key = Some ref →
  cache_ (NotifyConfigChanged files now p st).2 = cache_ st
  ∧ levelCache_ (NotifyConfigChanged files now p st).2 = levelCache_ st
  ∧ savedCache_ (NotifyConfigChanged files now p st).2 = savedCache_ st
  ∧ taskQueue (NotifyConfigChanged files now p st).2 = taskQueue st
  ∧ dom (textures (NotifyConfigChanged files now p st).2) = dom (textures st)
  ∧ (Enabled (NotifyConfigChanged files now p st).1
     && bReplaceTextures (NotifyConfigChanged files now p st).1 = true →
     FindReplacement (NotifyConfigChanged files now p st).1 (cachekey key) (hash key)
       w h (NotifyConfigChanged files now p st).2
     = (texture ref, (NotifyConfigChanged files now p st).2)).
Proof.
  intros Hkey.
  assert (cache_ (NotifyConfigChanged files now p st).2 = cache_ st
          ∧ levelCache_ (NotifyConfigChanged files now p st).2 = levelCache_ st
          ∧ savedCache_ (NotifyConfigChanged files now p st).2 = savedCache_ st
          ∧ taskQueue (NotifyConfigChanged files now p st).2 = taskQueue st
          ∧ dom (textures (NotifyConfigChanged files now p st).2) = dom (textures st))
    as (Hc & Hl & Hs & Hq & Ht).
  { unfold NotifyConfigChanged. pose proof (Decimate_frame ALL now st) as Hdec.
    simpl in Hdec. repeat case_match; simplify_eq; simpl; done. }
  split_and!; [done..|]. intros [Hen Hrep]%andb_true_iff.
  apply FindReplacement_hit; [done..|]. rewrite Hc. by destruct key.
Qed.
End Loading.

(** * Part III: the theorems at concrete inputs *)

(** The names of the end-to-end scenario. *)
Example HashName_scenario :
  HashName 1 0xaaaa 0 = "00000000000000010000aaaa"
  ∧ HashName 1 0xbbbb 3 = "00000000000000010000bbbb_3".
Proof. vm_compute. done. Qed.

(** The demo state is reachable: it is an initial state. *)
Lemma Demo_init_reachable p : @reachable Demo.E p Demo.init.
Proof. by exists (S754_zero false), (S754_finite false 8388608 (-23)), []. Qed.

(** C3 at a key that only the fourth probe, (low 32 bits, hash), finds. *)
Lemma LookupWildcard_probe_order_witness :
  LookupWildcard Demo.aliases (mkKey 0x900000001 0xbbbb) 0x900000001 0xbbbb false
  = first_hit Demo.aliases (probe_order 0x900000001 0xbbbb false).
Proof. apply LookupWildcard_probe_order. unfold is_u64. lia. Defined.



(** C2 for (1, 0xaaaa), looked up again after other calls. *)
Lemma FindReplacement_idempotent_witness :
  ∃ st2,
    @run Demo.E (Demo.policy Demo.aliases) Demo.between Demo.found = Some st2
    ∧ @FindReplacement Demo.E (Demo.policy Demo.aliases) 1 0xaaaa 4 4 st2
      = (Some 1%positive, st2)
    ∧ ∃ ref, cache_ st2 !! mkKey 1 0xaaaa = Some ref ∧ texture ref = Some 1%positive.
Proof.
  apply (@FindReplacement_idempotent Demo.E (Demo.policy Demo.aliases) 1 0xaaaa 4 4
           Demo.init 1%positive Demo.between).
  vm_compute. reflexivity.
Defined.

(** C4 for the suppressed key (2, 2). *)
Lemma FindReplacement_ignored_memoized_witness :
  (@FindReplacement Demo.E (Demo.policy Demo.aliases) 2 2 4 4 Demo.init).1 = None
  ∧ (∃ ref, cache_ Demo.ignored !! mkKey 2 2 = Some ref ∧ texture ref = None)
  ∧ (cache_ Demo.init !! mkKey 2 2 = None →
     cache_ Demo.ignored !! mkKey 2 2 = Some (Build_ReplacedTextureRef None "")
     ∧ trace Demo.ignored = trace Demo.init ++ [EvLookupHashFile 2 2])
  ∧ ∃ st2,
      @run Demo.E (Demo.policy Demo.aliases) Demo.between Demo.ignored = Some st2
      ∧ @FindReplacement Demo.E (Demo.policy Demo.aliases) 2 2 8 8 st2 = (None, st2).
Proof.
  apply (@FindReplacement_ignored_memoized Demo.E (Demo.policy Demo.aliases) Demo.init
           2 2 4 4 "" true Demo.between 8 8).
  - apply Demo_init_reachable.
  - reflexivity.
  - reflexivity.
  - vm_compute. reflexivity.
Defined.

(** The state with a measurement of 2 GiB is an initial state as well. *)
Lemma Demo_pressed_reachable p : @reachable Demo.E p Demo.pressed.
Proof. by exists (Double.of_Z 2), (S754_finite false 8388608 (-23)), []. Qed.

(** C5 for a normal sweep after 2 GiB were measured. *)
Lemma Decimate_age_and_measure_witness :
  Decimate_age NEW_FRAME (lastTextureCacheSizeGB_ Demo.pressed)
  = spec_age NEW_FRAME (lastTextureCacheSizeGB_ Demo.pressed)
  ∧ trace (@Decimate Demo.E NEW_FRAME (Double.of_Z 100) Demo.pressed)
    = trace Demo.pressed ++ @sweep_events
        (Double.sub (Double.of_Z 100)
           (spec_age NEW_FRAME (lastTextureCacheSizeGB_ Demo.pressed)))
        (map_to_list (levelCache_ Demo.pressed))
  ∧ lastTextureCacheSizeGB_ (@Decimate Demo.E NEW_FRAME (Double.of_Z 100) Demo.pressed)
    = Double.div
        (Double.of_Z
           (resident_size (@Decimate Demo.E NEW_FRAME (Double.of_Z 100) Demo.pressed)))
        GiB
  ∧ ∀ mode',
      Decimate_age mode'
        (lastTextureCacheSizeGB_
           (@Decimate Demo.E NEW_FRAME (Double.of_Z 100) Demo.pressed))
      = spec_age mode'
          (Double.div
             (Double.of_Z
                (resident_size
                   (@Decimate Demo.E NEW_FRAME (Double.of_Z 100) Demo.pressed)))
             GiB).
Proof.
  apply (@Decimate_age_and_measure Demo.E (Demo.policy ∅) NEW_FRAME (Double.of_Z 100)
           Demo.pressed).
  - apply Demo_pressed_reachable.
  - reflexivity.
Defined.

(** The age at 2 GiB: 90 + (1 - 2/4) * 1710 = 945 seconds. *)
Example Decimate_age_2GiB :
  Decimate_age NEW_FRAME (Double.of_Z 2) = Double.of_Z 945.
Proof. vm_compute. reflexivity. Qed.

(** C6 as stated fails, in two ways.  With persistence enabled and a
    texture [WillSave] accepts, two decodes of an address key that has an
    alias queue no task at all.  And after a save of level 1, two decodes of
    the same (cachekey, hash) at level 0 queue nothing: the only task of the
    session is the one of level 1. *)
Lemma NotifyTextureDecoded_two_decodes_no_task :
  enabled_ (Demo.policy Demo.aliases) = true
  ∧ bSaveNewTextures (Demo.policy Demo.aliases) = true
  ∧ @WillSave Demo.E (Demo.policy Demo.aliases) (Demo.info 1 0xaaaa) = Some true
  ∧ taskQueue <$> @run Demo.E (Demo.policy Demo.aliases)
                    [Demo.notify 1 0xaaaa 0; Demo.notify 1 0xaaaa 0] Demo.init
    = Some []
  ∧ @WillSave Demo.E (Demo.policy ∅) (Demo.info 5 6) = Some true
  ∧ fmap task_saveFilename ∘ taskQueue
      <$> @run Demo.E (Demo.policy ∅)
            [Demo.notify 5 6 1; Demo.notify 5 6 0; Demo.notify 5 6 0] Demo.init
    = Some ["textures/GAME/new/000000000000000500000006_1.png"].
Proof. vm_compute. done. Qed.

(** C6, amended, for two decodes of (5, 6) at level 0. *)
Lemma NotifyTextureDecoded_saves_once_witness :
  ∃ st1 st2 st3,
    @NotifyTextureDecoded Demo.E (Demo.policy ∅) (Demo.info 5 6) Demo.pixels 8 0
      2 2 2 2 (Double.of_Z 10) Demo.init = Some st1
    ∧ @run Demo.E (Demo.policy ∅) [CallFindReplacement 7 7 4 4] st1 = Some st2
    ∧ @NotifyTextureDecoded Demo.E (Demo.policy ∅) (Demo.info 5 6) Demo.pixels 8 0
        2 2 2 2 (Double.of_Z 20) st2 = Some st3
    ∧ (taskQueue st1 = taskQueue Demo.init ∨ taskQueue st3 = taskQueue st2)
    ∧ (@save_gates Demo.E (Demo.policy ∅) (Demo.info 5 6) 0 →
       savedCache_ Demo.init !! save_key (Demo.policy ∅) (Demo.info 5 6) = None →
       (∃ task, taskQueue st1 = taskQueue Demo.init ++ [task])
       ∧ is_Some (savedCache_ st2 !! save_key (Demo.policy ∅) (Demo.info 5 6))
       ∧ taskQueue st3 = taskQueue st2).
Proof.
  apply (@NotifyTextureDecoded_saves_once Demo.E (Demo.policy ∅)
           (Demo.info 5 6) (Demo.info 5 6) Demo.pixels Demo.pixels 8 8 0
           2 2 2 2 2 2 2 2 (Double.of_Z 10) (Double.of_Z 20)
           Demo.init [CallFindReplacement 7 7 4 4]).
  - reflexivity.
  - reflexivity.
  - reflexivity.
Defined.

(** C7 as stated fails: the call queues the task first and writes the
    record after it. *)
Lemma NotifyTextureDecoded_enqueues_before_record :
  trace <$> @NotifyTextureDecoded Demo.E (Demo.policy ∅) (Demo.info 5 6) Demo.pixels
              8 0 2 2 2 2 (Double.of_Z 10) Demo.init
  = Some [EvLookupHashFile 5 6; EvEnqueueTask Demo.saved_task;
          EvSavedCacheWrite (mkKey 5 6) 0].
Proof. vm_compute. reflexivity. Qed.

(** C7, amended, for the first decode of (5, 6). *)
Lemma NotifyTextureDecoded_record_follows_enqueue_witness :
  ∃ task,
    taskQueue Demo.saved = taskQueue Demo.init ++ [task]
    ∧ trace Demo.saved = trace Demo.init ++
        [EvLookupHashFile
           (effective_cachekey (Demo.policy ∅) (info_cachekey (Demo.info 5 6)))
           (info_hash (Demo.info 5 6));
         EvEnqueueTask task;
         EvSavedCacheWrite (save_key (Demo.policy ∅) (Demo.info 5 6)) 0]
    ∧ savedCache_ Demo.init !! save_key (Demo.policy ∅) (Demo.info 5 6) = None
    ∧ is_Some (savedCache_ Demo.saved !! save_key (Demo.policy ∅) (Demo.info 5 6))
    ∧ ∀ cs info2 data2 pitch2 level2 oW2 oH2 sW2 sH2 now2,
        save_key (Demo.policy ∅) info2 = save_key (Demo.policy ∅) (Demo.info 5 6) →
        ∃ st2 st3,
          @run Demo.E (Demo.policy ∅) cs Demo.saved = Some st2
          ∧ @NotifyTextureDecoded Demo.E (Demo.policy ∅) info2 data2 pitch2 level2
              oW2 oH2 sW2 sH2 now2 st2 = Some st3
          ∧ taskQueue st3 = taskQueue st2 ∧ task ∈ taskQueue st3.
Proof.
  apply (@NotifyTextureDecoded_record_follows_enqueue Demo.E (Demo.policy ∅)
           (Demo.info 5 6) Demo.pixels 8 0 2 2 2 2 (Double.of_Z 10)
           Demo.init Demo.saved).
  - vm_compute. reflexivity.
  - vm_compute. discriminate.
Defined.

(** C10 for (5, 6): saved at level 0, decoded again at level 1. *)
Lemma NotifyTextureDecoded_dedup_ignores_level_witness :
  ∃ st2 st3,
    @run Demo.E (Demo.policy ∅) [CallFindReplacement 7 7 4 4] Demo.saved = Some st2
    ∧ @NotifyTextureDecoded Demo.E (Demo.policy ∅) (Demo.info 5 6) Demo.pixels 8 1
        2 2 2 2 (Double.of_Z 20) st2 = Some st3
    ∧ taskQueue st3 = taskQueue st2 ∧ savedCache_ st3 = savedCache_ st2.
Proof.
  apply (@NotifyTextureDecoded_dedup_ignores_level Demo.E (Demo.policy ∅)
           (Demo.info 5 6) (Demo.info 5 6) Demo.pixels Demo.pixels 8 8 0 1
           2 2 2 2 2 2 2 2 (Double.of_Z 10) (Double.of_Z 20)
           Demo.init Demo.saved [CallFindReplacement 7 7 4 4]).
  - reflexivity.
  - reflexivity.
  - vm_compute. reflexivity.
  - vm_compute. reflexivity.
  - vm_compute. eexists. reflexivity.
Defined.

(** C8 as stated fails: with [reduceHash] only the first half of each row
    is hashed, so swapping two rows that differ in their second half leaves
    the hash as it is, whatever the hash functions are. *)
Lemma ComputeHash_row_swap_same_hash :
  read Demo.rows 0x1000 8 ≠ read Demo.rows 0x1010 8
  ∧ read Demo.rows_swapped 0x1000 8 = read Demo.rows 0x1010 8
  ∧ read Demo.rows_swapped 0x1010 8 = read Demo.rows 0x1000 8
  ∧ (∀ a, ¬ (0x1000 ≤ a < 0x1008 ∨ 0x1010 ≤ a < 0x1018) →
          Demo.rows_swapped a = Demo.rows a)
  ∧ ∀ quick xxh32 xxh64 st,
      (@ComputeHash (Demo.externals quick xxh32 xxh64) Demo.reduce_policy
         Demo.rows_swapped 0x1000 4 2 2 3 0 st).1
      = (@ComputeHash (Demo.externals quick xxh32 xxh64) Demo.reduce_policy
           Demo.rows 0x1000 4 2 2 3 0 st).1.
Proof.
  split_and!.
  - vm_compute. discriminate.
  - vm_compute. reflexivity.
  - vm_compute. reflexivity.
  - intros a Ha. unfold Demo.rows_swapped, Demo.rows.
    repeat case_match; lia.
  - intros quick xxh32 xxh64 st.
    apply (ComputeHash_strided_ext _ _ _ _ _ _ _ _ _ _ 2 2); [done|lia|].
    intros y Hy. assert (y = 0 ∨ y = 1) as [-> | ->] by lia;
      vm_compute; reflexivity.
Qed.

(** Row hashes that differ and still fold to the same value in either
    order. *)
Example fold_rows_collision :
  fold_rows [0; 0x80000000] 0 = fold_rows [0x80000000; 0] 0.
Proof. vm_compute. reflexivity. Qed.

Example fold_rows_order :
  fold_rows [1; 2] 0 = 9 ∧ fold_rows [2; 1] 0 = 23.
Proof. vm_compute. done. Qed.

(** C8, amended, for the two demo rows and the row hashes 1, 2, 3. *)
Lemma ComputeHash_strided_fold_witness :
  let '(w', h') := ComputeHash_size (Demo.policy ∅) 0x1000 2 2 0 in
  let st' := (@ComputeHash Demo.E (Demo.policy ∅) Demo.rows 0x1000 4 2 2 3 0 Demo.init).2 in
  (@ComputeHash Demo.E (Demo.policy ∅) Demo.rows 0x1000 4 2 2 3 0 Demo.init).1
  = fold_rows
      (strided_row_hashes (@ComputeHash_rowHash Demo.E (Demo.policy ∅)) Demo.rows
         (@ComputeHash_bytesPerLine Demo.E 3 w' (reduceHashSize st'))
         (@ComputeHash_stride Demo.E 3 4) (Z.to_nat h') 0x1000) 0
  ∧ (fold_rows ([] ++ 1 :: [] ++ 2 :: [3]) 0 = fold_rows ([] ++ 2 :: [] ++ 1 :: [3]) 0
     ↔ fold_rows ([] ++ 1 :: [] ++ [2]) 0 = fold_rows ([] ++ 2 :: [] ++ [1]) 0)
  ∧ (fold_rows (1 :: 2 :: [3]) 0 = fold_rows (2 :: 1 :: [3]) 0
     ↔ Z.lxor (to_u32 (1 * 11)) 2 = Z.lxor (to_u32 (2 * 11)) 1).
Proof.
  apply (@ComputeHash_strided_fold Demo.E (Demo.policy ∅) Demo.rows 0x1000 4 2 2 3 0
           Demo.init [] [] [3] 1 2).
  - vm_compute. reflexivity.
  - repeat constructor; unfold is_u32; lia.
Defined.

(** ** The further properties at concrete inputs *)

(** X1 for the name of (1, 0xaaaa) at level 3. *)
Lemma HashName_inj_witness : 1 = 1 ∧ 0xaaaa = 0xaaaa ∧ 3 = 3.
Proof.
  apply (HashName_inj 1 0xaaaa 3 1 0xaaaa 3); unfold is_u64, is_u32; try lia.
  reflexivity.
Defined.

(** Names of different keys and levels differ. *)
Example HashName_differ :
  HashName 1 0xaaaa 0 ≠ HashName 1 0xaaaa 1
  ∧ HashName 1 0xaaaa 0 ≠ HashName 0x100000001 0xaaaa 0.
Proof. split; vm_compute; discriminate. Qed.

(** The state after the save of (5, 6) is reachable. *)
Lemma Demo_saved_reachable : @reachable Demo.E (Demo.policy ∅) Demo.saved.
Proof.
  exists (S754_zero false), (S754_finite false 8388608 (-23)), [Demo.notify 5 6 0].
  vm_compute. reflexivity.
Qed.

(** X2 for the queue after the save of (5, 6). *)
Lemma taskQueue_generated_names_witness :
  Forall (λ task,
    task_createSaveDirectory task = false ∧ task_saveDirectory task = "" ∧
    task_skipIfExists task = false ∧ task_pitch task = task_w task * 4 ∧
    ∃ cachekey level,
      let hashfile := HashName cachekey (task_replacedInfoHash task) level +:+ ".png" in
      task_filename task = @Path_join Demo.E (basePath_ (Demo.policy ∅)) hashfile ∧
      task_saveFilename task = @Path_join Demo.E (newTextureDir_ (Demo.policy ∅)) hashfile ∧
      find_last_of "/" hashfile = None) (taskQueue Demo.saved).
Proof.
  apply (@taskQueue_generated_names Demo.E (Demo.policy ∅) Demo.saved).
  apply Demo_saved_reachable.
Defined.

(** X3 for the task of the save of (5, 6): a 2 x 2 image read at a pitch
    of 8 from data whose rows are 8 bytes apart. *)
Lemma NotifyTextureDecoded_compacts_pitch_witness :
  length (task_rgbaData Demo.saved_task)
  = Z.to_nat (task_w Demo.saved_task * task_h Demo.saved_task * 4)
  ∧ (∀ x y, 0 ≤ y < task_h Demo.saved_task → 0 ≤ x < task_w Demo.saved_task * 4 →
       task_rgbaData Demo.saved_task !! Z.to_nat (y * (task_w Demo.saved_task * 4) + x)
       = Some (Demo.pixels (y * 8 + x)))
  ∧ ((LookupHashRange (Demo.policy ∅) (info_addr (Demo.info 5 6)) 2 2).1.1 = false →
     task_w Demo.saved_task = 2 ∧ task_h Demo.saved_task = 2).
Proof.
  apply (@NotifyTextureDecoded_compacts_pitch Demo.E (Demo.policy ∅) (Demo.info 5 6)
           Demo.pixels 8 0 2 2 2 2 (Double.of_Z 10) Demo.init Demo.saved
           Demo.saved_task).
  - vm_compute. reflexivity.
  - vm_compute. reflexivity.
  - simpl. lia.
  - simpl. lia.
Defined.

(** The policy with the hash range files no range larger than its
    texture. *)
Lemma Pack_ranged_within : ranges_within Pack.ranged.
Proof.
  apply ranges_within_insert; unfold is_u32; try lia.
  by apply ranges_within_empty.
Qed.

(** X4 for an 8 x 8 texture with the hash range 4 x 2, decoded at 16 x 16:
    the task holds 8 x 4 pixels. *)
Lemma NotifyTextureDecoded_within_decoded_witness :
  0 ≤ task_w Pack.ranged_task ≤ 16 ∧ 0 ≤ task_h Pack.ranged_task ≤ 16.
Proof.
  apply (@NotifyTextureDecoded_within_decoded Demo.E Pack.ranged Pack.info
           Demo.pixels 64 0 8 8 16 16 (Double.of_Z 10) Demo.init Pack.ranged_saved
           Pack.ranged_task).
  - apply Pack_ranged_within.
  - unfold is_u32. simpl. lia.
  - lia.
  - lia.
  - lia.
  - lia.
  - vm_compute. reflexivity.
  - vm_compute. reflexivity.
Defined.

Example Pack_ranged_task_size :
  task_w Pack.ranged_task = 8 ∧ task_h Pack.ranged_task = 4
  ∧ length (task_rgbaData Pack.ranged_task) = 128%nat.
Proof. vm_compute. done. Qed.

(** X5 for a decode and a lookup while only replacing is switched on. *)
Lemma run_saving_off_witness :
  taskQueue (Demo.final Pack.replace_only
               [Demo.notify 5 6 0; CallFindReplacement 1 0xaaaa 4 4] Demo.init)
  = taskQueue Demo.init
  ∧ savedCache_ (Demo.final Pack.replace_only
                   [Demo.notify 5 6 0; CallFindReplacement 1 0xaaaa 4 4] Demo.init)
    = savedCache_ Demo.init.
Proof.
  apply (@run_saving_off Demo.E Pack.replace_only
           [Demo.notify 5 6 0; CallFindReplacement 1 0xaaaa 4 4] Demo.init).
  - reflexivity.
  - vm_compute. reflexivity.
Defined.

(** X6 for a lookup, a sweep and a decode while only saving is switched
    on. *)
Lemma run_replacing_off_witness :
  @FindReplacement Demo.E Pack.save_only 1 0xaaaa 4 4
    (Demo.final Pack.save_only
       [CallFindReplacement 1 0xaaaa 4 4; CallDecimate ALL (Double.of_Z 100);
        Demo.notify 5 6 0] Demo.init)
  = (None, Demo.final Pack.save_only
             [CallFindReplacement 1 0xaaaa 4 4; CallDecimate ALL (Double.of_Z 100);
              Demo.notify 5 6 0] Demo.init)
  ∧ cache_ (Demo.final Pack.save_only
              [CallFindReplacement 1 0xaaaa 4 4; CallDecimate ALL (Double.of_Z 100);
               Demo.notify 5 6 0] Demo.init) = cache_ Demo.init
  ∧ levelCache_ (Demo.final Pack.save_only
                   [CallFindReplacement 1 0xaaaa 4 4; CallDecimate ALL (Double.of_Z 100);
                    Demo.notify 5 6 0] Demo.init) = levelCache_ Demo.init
  ∧ dom (textures (Demo.final Pack.save_only
                     [CallFindReplacement 1 0xaaaa 4 4;
                      CallDecimate ALL (Double.of_Z 100); Demo.notify 5 6 0] Demo.init))
    = dom (textures Demo.init).
Proof.
  apply (@run_replacing_off Demo.E Pack.save_only
           [CallFindReplacement 1 0xaaaa 4 4; CallDecimate ALL (Double.of_Z 100);
            Demo.notify 5 6 0] Demo.init).
  - reflexivity.
  - vm_compute. reflexivity.
Defined.

(** X7 for the handle of (1, 0xaaaa), after a lookup, a sweep of
    everything and a save. *)
Lemma FindReplacement_handle_stays_live_witness :
  ∃ st2,
    @run Demo.E (Demo.policy Demo.aliases) Demo.between Demo.found = Some st2
    ∧ is_Some (textures st2 !! 1%positive).
Proof.
  apply (@FindReplacement_handle_stays_live Demo.E (Demo.policy Demo.aliases) Demo.init
           1 0xaaaa 4 4 1%positive Demo.between).
  - apply Demo_init_reachable.
  - vm_compute. reflexivity.
Defined.

(** X8 for two addresses of the texture with clut 1 and hash 0xaaaa. *)
Lemma FindReplacement_ignoreAddress_witness :
  ∃ st2,
    @run Demo.E Pack.ignore_address Demo.between
      (@FindReplacement Demo.E Pack.ignore_address 0x100000001 0xaaaa 4 4 Demo.init).2
    = Some st2
    ∧ (@FindReplacement Demo.E Pack.ignore_address 0x200000001 0xaaaa 8 8 st2).1
      = (@FindReplacement Demo.E Pack.ignore_address 0x100000001 0xaaaa 4 4 Demo.init).1.
Proof.
  apply (@FindReplacement_ignoreAddress Demo.E Pack.ignore_address Demo.init
           0x100000001 0x200000001 0xaaaa 4 4 8 8 Demo.between).
  - apply Demo_init_reachable.
  - reflexivity.
  - reflexivity.
  - reflexivity.
  - reflexivity.
Defined.

Example FindReplacement_ignoreAddress_handle :
  (@FindReplacement Demo.E Pack.ignore_address 0x100000001 0xaaaa 4 4 Demo.init).1
  = Some 1%positive
  ∧ (@FindReplacement Demo.E (Demo.policy Demo.aliases) 0x100000001 0xaaaa 4 4
       (@FindReplacement Demo.E (Demo.policy Demo.aliases) 0x200000001 0xaaaa 4 4
          Demo.init).2).1
    = Some 1%positive.
Proof. vm_compute. done. Qed.

(** X9 for (5, 6) and (7, 7), which have no alias. *)
Lemma FindReplacement_unaliased_first_wins_witness :
  ∃ t st1 st2 desc,
    @FindReplacement Demo.E (Demo.policy Demo.aliases) 5 6 4 4 Demo.init = (Some t, st1)
    ∧ @FindReplacement Demo.E (Demo.policy Demo.aliases) 7 7 8 8 st1 = (Some t, st2)
    ∧ textures st2 !! t = Some (@ReplacedTexture_new Demo.E desc)
    ∧ desc_cachekey desc = 5 ∧ desc_hash desc = 6
    ∧ desc_w desc = 4 ∧ desc_h desc = 4
    ∧ desc_filenames desc
      = (λ level : nat,
           HashName (effective_cachekey (Demo.policy Demo.aliases) 5) 6 (Z.of_nat level)
           +:+ ".png") <$> seq 0 (@MAX_REPLACEMENT_MIP_LEVELS Demo.E).
Proof.
  apply (@FindReplacement_unaliased_first_wins Demo.E (Demo.policy Demo.aliases)
           Demo.init 5 6 4 4 7 7 8 8).
  - apply Demo_init_reachable.
  - reflexivity.
  - reflexivity.
  - vm_compute. reflexivity.
  - vm_compute. reflexivity.
  - reflexivity.
Defined.

(** The texture (7, 7) gets is the one of the files of (5, 6). *)
Example FindReplacement_unaliased_files :
  (λ r, (r.1, (λ tex, head (desc_filenames (Demo.tex_desc tex))) <$> (textures r.2 !! 1%positive)))
    (@FindReplacement Demo.E (Demo.policy Demo.aliases) 7 7 8 8
       (@FindReplacement Demo.E (Demo.policy Demo.aliases) 5 6 4 4 Demo.init).2)
  = (Some 1%positive, Some (Some "000000000000000500000006.png")).
Proof. vm_compute. reflexivity. Qed.

(** X10 for a key that only the fourth probe finds in the filters of the
    pack. *)
Lemma FindFiltering_probe_order_witness :
  FindFiltering (Pack.loaded "ULES00001") 0x900000001 0xaaaaaaaa
  = if Enabled (Pack.loaded "ULES00001") && bReplaceTextures (Pack.loaded "ULES00001")
    then snd <$> first_hit (filtering_ (Pack.loaded "ULES00001"))
                   (probe_order 0x900000001 0xaaaaaaaa
                      (ignoreAddress_ (Pack.loaded "ULES00001")) ++ [mkKey 0 0])
    else None.
Proof. apply FindFiltering_probe_order. unfold is_u64. lia. Defined.

Example FindFiltering_pack :
  FindFiltering (Pack.loaded "ULES00001") 0x900000001 0xaaaaaaaa
  = Some TEX_FILTER_FORCE_LINEAR.
Proof. vm_compute. reflexivity. Qed.

(** X11 for a texture 512 rows high of which 272 rows were seen. *)
Lemma ComputeHash_maxSeenV_witness :
  @ComputeHash Demo.E (Demo.policy ∅) Demo.rows 0x1000 4 2 512 3 272 Demo.init
  = @ComputeHash Demo.E (Demo.policy ∅) Demo.rows 0x1000 4 2 272 3 0 Demo.init.
Proof.
  apply (@ComputeHash_maxSeenV Demo.E (Demo.policy ∅) Demo.rows 0x1000 4 2 3 272 0
           Demo.init).
  - lia.
  - reflexivity.
  - reflexivity.
Defined.

(** X12 for a replacer whose last sweep measured 4 GiB. *)
Lemma Decimate_at_cap_witness :
  Decimate_age NEW_FRAME (lastTextureCacheSizeGB_ Pack.full) = Double.of_Z 90
  ∧ @Decimate Demo.E NEW_FRAME (Double.of_Z 100) Pack.full
    = @Decimate Demo.E FORCE_PRESSURE (Double.of_Z 100) Pack.full.
Proof.
  apply (@Decimate_at_cap Demo.E (Double.of_Z 100) Pack.full).
  - vm_compute. reflexivity.
  - vm_compute. reflexivity.
Defined.

(** X13 for the line "0x100,512,512 = 480,272". *)
Lemma ParseHashRange_lookup_witness :
  (480 ≤ 512 ∧ 272 ≤ 512 →
   LookupHashRange
     (@ParseHashRange Pack.E Pack.parsers "0x100,512,512" "480,272" (Demo.policy ∅))
     0x100 512 512 = (true, 480, 272))
  ∧ (512 < 480 ∨ 512 < 272 →
     @ParseHashRange Pack.E Pack.parsers "0x100,512,512" "480,272" (Demo.policy ∅)
     = Demo.policy ∅).
Proof.
  apply (@ParseHashRange_lookup Pack.E Pack.parsers "0x100,512,512" "480,272"
           (Demo.policy ∅) "0x100" "512" "512" "480" "272" 0x100 512 512 480 272).
  all: try (vm_compute; reflexivity).
Defined.

(** The range that is larger than its source is not filed. *)
Example ParseHashRange_larger :
  @ParseHashRange Pack.E Pack.parsers "0x200,64,64" "128,64" (Demo.policy ∅)
  = Demo.policy ∅.
Proof. vm_compute. reflexivity. Qed.

(** X14 for the same line. *)
Lemma ParseHashRange_within_witness :
  ranges_within
    (@ParseHashRange Pack.E Pack.parsers "0x100,512,512" "480,272" (Demo.policy ∅)).
Proof.
  apply (@ParseHashRange_within Pack.E Pack.parsers "0x100,512,512" "480,272"
           (Demo.policy ∅)).
  - intros k0 k1 k2 fromW fromH Hkey HfromW HfromH.
    assert (k1 = "512" ∧ k2 = "512") as [-> ->].
    { vm_compute in Hkey. by injection Hkey as _ <- <-. }
    assert (fromW = 512 ∧ fromH = 512) as [-> ->]; [|lia].
    vm_compute in HfromW, HfromH. by injection HfromW as <-; injection HfromH as <-.
  - by apply ranges_within_empty.
Defined.

(** X15 for a filter written "Linear". *)
Lemma ParseFiltering_lookup_witness :
  FindFiltering
    (@ParseFiltering Pack.parsers "0000000000000001aaaaaaaa" "Linear" (Demo.policy ∅))
    1 (default 0 ([0xaaaaaaaa] !! 0%nat))
  = match filter_named "Linear" with
    | Some filter => Some filter
    | None => FindFiltering (Demo.policy ∅) 1 (default 0 ([0xaaaaaaaa] !! 0%nat))
    end.
Proof.
  apply (@ParseFiltering_lookup Pack.parsers "0000000000000001aaaaaaaa" "Linear"
           (Demo.policy ∅) 1 [0xaaaaaaaa]).
  - reflexivity.
  - reflexivity.
  - vm_compute. reflexivity.
Defined.

Example filter_named_cases :
  filter_named "Linear" = Some TEX_FILTER_FORCE_LINEAR
  ∧ filter_named "NEAREST" = Some TEX_FILTER_FORCE_NEAREST
  ∧ filter_named "auto" = Some TEX_FILTER_AUTO
  ∧ filter_named "cubic" = None.
Proof. vm_compute. done. Qed.

(** X16 for the line "512,512 = 0.25". *)
Lemma ParseReduceHashRange_lookup_witness :
  (SFeqb (S754_finite false 8388608 (-25)) (S754_zero false) = false →
   LookupReduceHashRange
     (@ParseReduceHashRange Pack.E Pack.parsers "512,512" "0.25" (Demo.policy ∅))
     512 512 = S754_finite false 8388608 (-25))
  ∧ (SFeqb (S754_finite false 8388608 (-25)) (S754_zero false) = true →
     @ParseReduceHashRange Pack.E Pack.parsers "512,512" "0.25" (Demo.policy ∅)
     = Demo.policy ∅).
Proof.
  apply (@ParseReduceHashRange_lookup Pack.E Pack.parsers "512,512" "0.25"
           (Demo.policy ∅) "512" "512" "0.25" 512 512).
  all: try lia; vm_compute; reflexivity.
Defined.

(** X17 for two levels followed by a line for level 3. *)
Lemma LoadIniValues_alias_chain_witness :
  LoadIniValues_alias (mip_chain ["a.png"; "b.png"] ++ [(3, "d.png")])
  = if decide (["a.png"; "b.png"] = [""]) then "" else bars ["a.png"; "b.png"].
Proof.
  apply (LoadIniValues_alias_chain ["a.png"; "b.png"] [(3, "d.png")]).
  simpl. lia.
Defined.

Example LoadIniValues_alias_cases :
  LoadIniValues_alias [(0, "a.png"); (1, "b.png"); (3, "d.png")] = "a.png|b.png|"
  ∧ LoadIniValues_alias [(1, "b.png")] = ""
  ∧ LoadIniValues_alias [(0, "")] = ""
  ∧ LoadIniValues_alias [(-1, "x.png"); (0, "a.png")] = ""
  ∧ LoadIniValues_alias [(0, ""); (1, "b.png")] = "|b.png|".
Proof. vm_compute. done. Qed.

(** X18 for the line of the pack that names level 1 alone. *)
Lemma LoadIniValues_hashes_single_witness :
  LookupHashFile
    (@LoadIniValues_hashes Pack.parsers
       ([("0000000000000001aaaaaaaa", "foo.png")]
        ++ ("0000000000000002bbbbbbbb_1", "mip1.png")
           :: [("0000000000000003cccccccc", "")])
       (Demo.policy ∅))
    (cachekey (mkKey 2 0xbbbbbbbb)) (hash (mkKey 2 0xbbbbbbbb))
  = if decide (1 = 0 ∧ "mip1.png" ≠ "") then ("mip1.png" +:+ "|", true, false)
    else ("", true, true).
Proof.
  apply (@LoadIniValues_hashes_single Pack.parsers
           [("0000000000000001aaaaaaaa", "foo.png")]
           [("0000000000000003cccccccc", "")]
           "0000000000000002bbbbbbbb_1" "mip1.png" (mkKey 2 0xbbbbbbbb) 1
           (Demo.policy ∅)).
  - vm_compute. reflexivity.
  - repeat constructor; vm_compute; discriminate.
Defined.

(** The stand-in of [sscanf] reads the level up to the first other
    character, with its sign. *)
Example Pack_scan_hashname_level :
  Pack.scan_hashname_level "0000000000000002bbbbbbbb_1x" = [2; 0xbbbbbbbb; 1]
  ∧ Pack.scan_hashname_level "0000000000000002bbbbbbbb_-1" = [2; 0xbbbbbbbb; -1]
  ∧ Pack.scan_hashname_level "0000000000000002bbbbbbbb_" = [2; 0xbbbbbbbb]
  ∧ Pack.scan_hashname_level "2" = [2]
  ∧ Pack.scan_hashname_level "" = [].
Proof. vm_compute. repeat split. Qed.

(** X19 for the disc whose override asks for the quick hash. *)
Lemma LoadIni_quick_witness :
  reduceHash_ (@LoadIni Pack.E Pack.parsers (Pack.files "ULUS10000")
                 (Demo.policy Demo.aliases)).2 = false
  ∧ ignoreAddress_ (@LoadIni Pack.E Pack.parsers (Pack.files "ULUS10000")
                      (Demo.policy Demo.aliases)).2 = false
  ∧ effective_cachekey (@LoadIni Pack.E Pack.parsers (Pack.files "ULUS10000")
                          (Demo.policy Demo.aliases)).2 0x900000001 = 0x900000001
  ∧ (@ComputeHash Pack.E (@LoadIni Pack.E Pack.parsers (Pack.files "ULUS10000")
                            (Demo.policy Demo.aliases)).2
       Demo.rows 0x1000 4 2 2 3 0 Pack.init).2 = Pack.init.
Proof.
  apply (@LoadIni_quick Pack.E Pack.parsers (Pack.files "ULUS10000")
           (Demo.policy Demo.aliases) Demo.rows 0x1000 4 2 2 3 0 Pack.init 0x900000001).
  vm_compute. reflexivity.
Defined.

(** What the pack loads for another disc and for the disc of the
    override. *)
Example LoadIni_pack :
  load_options (Pack.loaded "ULES00001")
  = (XXH32_, false, true, true, false, S754_finite false 8388608 (-24))
  ∧ load_options (Pack.loaded "ULUS10000")
    = (QUICK, true, false, false, false, S754_finite false 8388608 (-24))
  ∧ map_to_list (aliases_ (Pack.loaded "ULES00001"))
    = [(mkKey 3 0xcccccccc, ""); (mkKey 1 0xaaaaaaaa, "foo.png|");
       (mkKey 2 0xbbbbbbbb, "")]
  ∧ map_to_list (hashranges_ (Pack.loaded "ULES00001"))
    = [(0x10002000200, (480, 272))]
  ∧ map_to_list (reducehashranges_ (Pack.loaded "ULES00001"))
    = [(0x2000200, S754_finite false 8388608 (-25))].
Proof. vm_compute. repeat split. Qed.

(** X21 for two configurations that differ in their aliases. *)
Lemma LoadIni_forgets_witness :
  @LoadIni Pack.E Pack.parsers (Pack.files "ULES00001") (Demo.policy Demo.aliases)
  = @LoadIni Pack.E Pack.parsers (Pack.files "ULES00001") (Demo.policy ∅).
Proof.
  apply (@LoadIni_forgets Pack.E Pack.parsers (Pack.files "ULES00001")
           (Demo.policy Demo.aliases) (Demo.policy ∅)).
  reflexivity.
Defined.

(** X22 for a textures.zip without textures.ini. *)
Lemma LoadIni_without_ini_witness :
  (@LoadIni Pack.E Pack.parsers Pack.bare_zip (Demo.policy Demo.aliases)).1
  = negb (ZipFileReader_Create Pack.bare_zip
            (@Path_join Pack.E (basePath_ (Demo.policy Demo.aliases)) ZIP_FILENAME))
  ∧ hash_ (@LoadIni Pack.E Pack.parsers Pack.bare_zip (Demo.policy Demo.aliases)).2 = QUICK
  ∧ LookupHashFile (@LoadIni Pack.E Pack.parsers Pack.bare_zip (Demo.policy Demo.aliases)).2
      1 0xaaaa = ("", false, false)
  ∧ FindFiltering (@LoadIni Pack.E Pack.parsers Pack.bare_zip (Demo.policy Demo.aliases)).2
      1 0xaaaa = None
  ∧ LookupHashRange (@LoadIni Pack.E Pack.parsers Pack.bare_zip (Demo.policy Demo.aliases)).2
      0x100 512 512 = (false, 512, 512)
  ∧ LookupReduceHashRange
      (@LoadIni Pack.E Pack.parsers Pack.bare_zip (Demo.policy Demo.aliases)).2 512 512
    = S754_finite false 8388608 (-24).
Proof.
  apply (@LoadIni_without_ini Pack.E Pack.parsers Pack.bare_zip
           (Demo.policy Demo.aliases) 1 0xaaaa 0x100 512 512).
  reflexivity.
Defined.

(** X23 for the handle of (1, 0xaaaa), cached under the aliases of the
    demo, after a change to the configuration of the pack, which has no
    alias for the key. *)
Lemma NotifyConfigChanged_keeps_caches_witness :
  cache_ (@NotifyConfigChanged Demo.E Pack.parsers (Pack.files "ULES00001")
            (Double.of_Z 100) (Demo.policy Demo.aliases) Demo.found).2
  = cache_ Demo.found
  ∧ levelCache_ (@NotifyConfigChanged Demo.E Pack.parsers (Pack.files "ULES00001")
                   (Double.of_Z 100) (Demo.policy Demo.aliases) Demo.found).2
    = levelCache_ Demo.found
  ∧ savedCache_ (@NotifyConfigChanged Demo.E Pack.parsers (Pack.files "ULES00001")
                   (Double.of_Z 100) (Demo.policy Demo.aliases) Demo.found).2
    = savedCache_ Demo.found
  ∧ taskQueue (@NotifyConfigChanged Demo.E Pack.parsers (Pack.files "ULES00001")
                 (Double.of_Z 100) (Demo.policy Demo.aliases) Demo.found).2
    = taskQueue Demo.found
  ∧ dom (textures (@NotifyConfigChanged Demo.E Pack.parsers (Pack.files "ULES00001")
                     (Double.of_Z 100) (Demo.policy Demo.aliases) Demo.found).2)
    = dom (textures Demo.found)
  ∧ (Enabled (@NotifyConfigChanged Demo.E Pack.parsers (Pack.files "ULES00001")
                (Double.of_Z 100) (Demo.policy Demo.aliases) Demo.found).1
     && bReplaceTextures (@NotifyConfigChanged Demo.E Pack.parsers
                            (Pack.files "ULES00001") (Double.of_Z 100)
                            (Demo.policy Demo.aliases) Demo.found).1 = true →
     @FindReplacement Demo.E
       (@NotifyConfigChanged Demo.E Pack.parsers (Pack.files "ULES00001")
          (Double.of_Z 100) (Demo.policy Demo.aliases) Demo.found).1
       (cachekey (mkKey 1 0xaaaa)) (hash (mkKey 1 0xaaaa)) 4 4
       (@NotifyConfigChanged Demo.E Pack.parsers (Pack.files "ULES00001")
          (Double.of_Z 100) (Demo.policy Demo.aliases) Demo.found).2
     = (texture (Build_ReplacedTextureRef (Some 1%positive) "foo.png|"),
        (@NotifyConfigChanged Demo.E Pack.parsers (Pack.files "ULES00001")
           (Double.of_Z 100) (Demo.policy Demo.aliases) Demo.found).2)).
Proof.
  apply (@NotifyConfigChanged_keeps_caches Demo.E Pack.parsers (Pack.files "ULES00001")
           (Double.of_Z 100) (Demo.policy Demo.aliases) Demo.found (mkKey 1 0xaaaa)
           (Build_ReplacedTextureRef (Some 1%positive) "foo.png|") 4 4).
  vm_compute. reflexivity.
Defined.

(** After the change the replacer is enabled and has no alias for
    (1, 0xaaaa), which keeps the handle cached before. *)
Example NotifyConfigChanged_pack :
  (λ r, (enabled_ r.1, aliases_ r.1 !! mkKey 1 0xaaaa,
         (@FindReplacement Demo.E r.1 1 0xaaaa 4 4 r.2).1))
    (@NotifyConfigChanged Demo.E Pack.parsers (Pack.files "ULES00001")
       (Double.of_Z 100) (Demo.policy Demo.aliases) Demo.found)
  = (true, None, Some 1%positive).
Proof. vm_compute. reflexivity. Qed.
